(** * Chirp Social backend: engagement and fan-out handlers

    A shallow embedding of the Express/Mongoose handlers of
    [controllers/userController.js] (follow, unfollow) and of the tweet
    controller (create, like, retweet, reply, delete), together with the
    schemas [models/Tweet.js], [models/Trending.js], the Notification schema
    and the error middleware.

    Every collection is a list of documents in insertion order; a handler is a
    function from the world (the four collections, the ObjectId supply and the
    image store) to an outcome and a new world.  There is no transaction in the
    source: a write that happened before a later step throws stays written, so
    the monad below keeps the world on both the normal and the abrupt path. *)

From Stdlib Require Import List String Ascii Bool Arith ZArith Lia.
From Stdlib Require Import Sorted Permutation.
Import ListNotations.

Local Open Scope string_scope.
Local Open Scope bool_scope.

(** ** JavaScript strings

    A string is a sequence of code units; the embedding keeps the one-byte
    code units of [Stdlib.Strings.String]. *)

Module Js.

Definition between (lo hi : nat) (c : ascii) : bool :=
  let n := nat_of_ascii c in ((lo <=? n) && (n <=? hi))%nat.

(** The class [\w] of a JavaScript regular expression: [A-Za-z0-9_]. *)
Definition isWordChar (c : ascii) : bool :=
  between 65 90 c || between 97 122 c || between 48 57 c
  || (nat_of_ascii c =? 95)%nat.

(** White space as [String.prototype.trim] sees it, among one-byte units:
    TAB, LF, VT, FF, CR, SPACE and NBSP. *)
Definition isSpace (c : ascii) : bool :=
  between 9 13 c || (nat_of_ascii c =? 32)%nat || (nat_of_ascii c =? 160)%nat.

Definition lowerChar (c : ascii) : ascii :=
  if between 65 90 c then ascii_of_nat (nat_of_ascii c + 32) else c.

(** [toLowerCase], used by the source on [\w+] captures only. *)
Fixpoint toLowerCase (s : string) : string :=
  match s with
  | EmptyString => EmptyString
  | String c r => String (lowerChar c) (toLowerCase r)
  end.

Fixpoint trimStart (s : string) : string :=
  match s with
  | EmptyString => EmptyString
  | String c r => if isSpace c then trimStart r else s
  end.

Fixpoint trimEnd (s : string) : string :=
  match s with
  | EmptyString => EmptyString
  | String c r =>
      let r' := trimEnd r in
      if isSpace c && (r' =? "") then EmptyString else String c r'
  end.

Definition trim (s : string) : string := trimEnd (trimStart s).

(** The longest prefix made of word characters: what [(\w+)] captures when
    the match starts here (empty when there is no match). *)
Fixpoint wordPrefix (s : string) : string :=
  match s with
  | EmptyString => EmptyString
  | String c r => if isWordChar c then String c (wordPrefix r) else EmptyString
  end.

(** The loop [while ((match = re.exec(s)) !== null) out.push(match[1])] for
    the global regular expression [/<sigil>(\w+)/g], where [sigil] is not a
    word character.  After a match the source resumes at the end of the
    capture; resuming right after the sigil gives the same matches, since
    the captured characters are word characters and none of them is the
    sigil. *)
Fixpoint execAll (sigil : ascii) (s : string) : list string :=
  match s with
  | EmptyString => []
  | String c r =>
      if (c =? sigil)%char then
        let w := wordPrefix r in
        if w =? "" then execAll sigil r else w :: execAll sigil r
      else execAll sigil r
  end.

(** [[...new Set(xs)]]: the distinct elements, in order of first insertion. *)
Fixpoint setOf (xs : list string) : list string :=
  match xs with
  | [] => []
  | x :: r => x :: filter (fun y => negb (y =? x)) (setOf r)
  end.

(** [s.split(sep).pop()]: what follows the last separator. *)
Fixpoint lastSegment (sep : ascii) (s : string) : string :=
  match s with
  | EmptyString => EmptyString
  | String c r =>
      if existsb (Ascii.eqb sep) (list_ascii_of_string r) then lastSegment sep r
      else if (c =? sep)%char then r else s
  end.

(** [s.split(sep)[0]]: what precedes the first separator. *)
Fixpoint firstSegment (sep : ascii) (s : string) : string :=
  match s with
  | EmptyString => EmptyString
  | String c r => if (c =? sep)%char then EmptyString else String c (firstSegment sep r)
  end.

(** Truthiness of a value that is [undefined] or a string. *)
Definition truthy (v : option string) : bool :=
  match v with
  | None => false
  | Some s => negb (s =? "")
  end.

(** [v || ''] *)
Definition orEmpty (v : option string) : string :=
  match v with
  | None => ""
  | Some s => s
  end.

(** [String(v)], the coercion [RegExp.prototype.exec] applies. *)
Definition toString (v : option string) : string :=
  match v with
  | None => "undefined"
  | Some s => s
  end.

End Js.

(** ** Documents

    [ObjectId]s are drawn from a counter kept in the world; a route parameter
    [:id] is taken to be a well-formed ObjectId.  Timestamps are left out:
    only the read-only feeds sort on them. *)

Definition ObjectId := nat.

(** [arr.includes(id)] on an array of ObjectIds. *)
Definition includes (i : ObjectId) (l : list ObjectId) : bool :=
  existsb (Nat.eqb i) l.

(** [arr.filter(x => x.toString() !== id.toString())], also the effect of
    [$pull] of an ObjectId. *)
Definition without (i : ObjectId) (l : list ObjectId) : list ObjectId :=
  filter (fun x => negb (x =? i)%nat) l.

(** Modelled from the spec: the Account record.  [models/User.js] is not among
    the sources; the handlers read and write the fields below, and the spec
    gives an account a unique handle and the two sets of account references. *)
Record User := mkUser {
  u_id : ObjectId;
  username : string;
  followers : list ObjectId;
  following : list ObjectId
}.

(** [models/Tweet.js], [tweetSchema]. *)
Record Tweet := mkTweet {
  t_id : ObjectId;
  text : string;
  author : ObjectId;
  imageUrl : option string;
  likes : list ObjectId;
  retweets : list ObjectId;
  replies : list ObjectId;
  parentTweet : option ObjectId;
  isRetweet : bool;
  isReply : bool;
  originalTweet : option ObjectId;
  hashtags : list string;
  mentions : list ObjectId
}.

Inductive NotificationType := like | retweet | follow | reply | mention.

(** The Notification schema. *)
Record Notification := mkNotification {
  n_id : ObjectId;
  recipient : ObjectId;
  sender : ObjectId;
  n_type : NotificationType;
  n_tweet : option ObjectId;
  read : bool
}.

(** [models/Trending.js], [trendingSchema]. *)
Record Trending := mkTrending {
  tr_id : ObjectId;
  tag : string;
  count : Z;
  category : string;
  tr_tweets : list ObjectId
}.

(** What the image store was asked to do, successfully. *)
Inductive CloudCall :=
| Uploaded (secure_url : string)
| Destroyed (public_id : string).

Record World := mkWorld {
  users : list User;
  tweets : list Tweet;
  notifications : list Notification;
  trending : list Trending;
  cloud : list CloudCall;
  next_oid : ObjectId
}.

Definition set_followers (v : list ObjectId) (u : User) : User :=
  mkUser (u_id u) (username u) v (following u).

Definition set_following (v : list ObjectId) (u : User) : User :=
  mkUser (u_id u) (username u) (followers u) v.

Definition set_id (v : ObjectId) (t : Tweet) : Tweet :=
  mkTweet v (text t) (author t) (imageUrl t) (likes t) (retweets t) (replies t)
    (parentTweet t) (isRetweet t) (isReply t) (originalTweet t) (hashtags t) (mentions t).

Definition set_text (v : string) (t : Tweet) : Tweet :=
  mkTweet (t_id t) v (author t) (imageUrl t) (likes t) (retweets t) (replies t)
    (parentTweet t) (isRetweet t) (isReply t) (originalTweet t) (hashtags t) (mentions t).

Definition set_likes (v : list ObjectId) (t : Tweet) : Tweet :=
  mkTweet (t_id t) (text t) (author t) (imageUrl t) v (retweets t) (replies t)
    (parentTweet t) (isRetweet t) (isReply t) (originalTweet t) (hashtags t) (mentions t).

Definition set_retweets (v : list ObjectId) (t : Tweet) : Tweet :=
  mkTweet (t_id t) (text t) (author t) (imageUrl t) (likes t) v (replies t)
    (parentTweet t) (isRetweet t) (isReply t) (originalTweet t) (hashtags t) (mentions t).

Definition set_replies (v : list ObjectId) (t : Tweet) : Tweet :=
  mkTweet (t_id t) (text t) (author t) (imageUrl t) (likes t) (retweets t) v
    (parentTweet t) (isRetweet t) (isReply t) (originalTweet t) (hashtags t) (mentions t).

Definition set_hashtags (v : list string) (t : Tweet) : Tweet :=
  mkTweet (t_id t) (text t) (author t) (imageUrl t) (likes t) (retweets t) (replies t)
    (parentTweet t) (isRetweet t) (isReply t) (originalTweet t) v (mentions t).

Definition with_users (v : list User) (w : World) : World :=
  mkWorld v (tweets w) (notifications w) (trending w) (cloud w) (next_oid w).

Definition with_tweets (v : list Tweet) (w : World) : World :=
  mkWorld (users w) v (notifications w) (trending w) (cloud w) (next_oid w).

Definition with_notifications (v : list Notification) (w : World) : World :=
  mkWorld (users w) (tweets w) v (trending w) (cloud w) (next_oid w).

Definition with_trending (v : list Trending) (w : World) : World :=
  mkWorld (users w) (tweets w) (notifications w) v (cloud w) (next_oid w).

Definition with_cloud (v : list CloudCall) (w : World) : World :=
  mkWorld (users w) (tweets w) (notifications w) (trending w) v (next_oid w).

(** A document was inserted under the next ObjectId. *)
Definition bump (w : World) : World :=
  mkWorld (users w) (tweets w) (notifications w) (trending w) (cloud w) (S (next_oid w)).

(** ** Collections: a list of documents, first match first *)

Section Collection.
Context {D : Type}.

Definition findOne (p : D -> bool) (c : list D) : option D := find p c.

Fixpoint updateOne (p : D -> bool) (f : D -> D) (c : list D) : list D :=
  match c with
  | [] => []
  | d :: r => if p d then f d :: r else d :: updateOne p f r
  end.

Fixpoint deleteOne (p : D -> bool) (c : list D) : list D :=
  match c with
  | [] => []
  | d :: r => if p d then r else d :: deleteOne p r
  end.

Definition deleteMany (p : D -> bool) (c : list D) : list D :=
  filter (fun d => negb (p d)) c.

End Collection.

(** [.sort(...)]: a stable insertion sort; [first x y] says that [x] may stand
    before [y].  Documents that tie keep the order of the collection: the
    store leaves their order open, and no statement depends on it. *)
Fixpoint insertBy {A} (first : A -> A -> bool) (x : A) (l : list A) : list A :=
  match l with
  | [] => [x]
  | y :: r => if first x y then x :: y :: r else y :: insertBy first x r
  end.

Definition sortBy {A} (first : A -> A -> bool) (l : list A) : list A :=
  fold_right (insertBy first) [] l.

Definition userIs (i : ObjectId) (u : User) : bool := (u_id u =? i)%nat.
Definition tweetIs (i : ObjectId) (t : Tweet) : bool := (t_id t =? i)%nat.
Definition tagIs (g : string) (d : Trending) : bool := (tag d =? g).

(** ** Outcomes of a handler *)

Inductive SideEffect := NotificationCreate | TrendingUpsert | ImageUpload | ImageDestroy.

Inductive Exn :=
| ValidationError (messages : list string)
| TypeError (message : string)
| ServiceError (s : SideEffect).

Definition UserView : Type := ObjectId * string.

Inductive Body :=
| Message (message : string)
| LikeResult (message : string) (likes : nat) (isLiked : bool)
| RetweetResult (message : string) (retweets : nat) (isRetweeted : bool)
| TweetCreated (_id : ObjectId) (text : string) (author : option UserView) (imageUrl : option string)
| ReplyCreated (_id : ObjectId) (text : string) (author : option UserView) (parentTweet : ObjectId).

(** A handler either answers itself ([res.status(s).json(b)]) or hands the
    exception to the error middleware ([next(error)] in its [catch]). *)
Inductive Outcome :=
| Sent (status : nat) (body : Body)
| Next (error : Exn).

(** [errorHandler]: the response the client gets, as (status, message).  A
    validation error is answered 400 with the joined messages; the exceptions
    below carry no [statusCode], so the default branch answers 500. *)
Definition errorHandler (err : Exn) : nat * string :=
  match err with
  | ValidationError messages => (400, String.concat ", " messages)
  | TypeError message => (500, message)
  | ServiceError _ => (500, "Server Error")
  end.

Definition statusOf (o : Outcome) : nat :=
  match o with
  | Sent status _ => status
  | Next err => fst (errorHandler err)
  end.

(** ** The handler monad: world passing with abrupt completion *)

Inductive Step (A : Type) :=
| Go (a : A)
| Stop (o : Outcome).

Arguments Go {A} a.
Arguments Stop {A} o.

Definition M (A : Type) : Type := World -> Step A * World.

Definition ret {A} (a : A) : M A := fun w => (Go a, w).

Definition bind {A B} (m : M A) (k : A -> M B) : M B :=
  fun w =>
    match m w with
    | (Go a, w') => k a w'
    | (Stop o, w') => (Stop o, w')
    end.

Definition send {A} (status : nat) (body : Body) : M A :=
  fun w => (Stop (Sent status body), w).

Definition throw {A} (e : Exn) : M A :=
  fun w => (Stop (Next e), w).

Declare Scope handler_scope.
Delimit Scope handler_scope with handler.

Notation "x <- m ;; k" := (bind m (fun x => k))
  (at level 100, m at next level, right associativity) : handler_scope.
Notation "m ;; k" := (bind m (fun _ => k))
  (at level 100, right associativity) : handler_scope.

Local Open Scope handler_scope.

(** [for (const x of xs) await body(x)] *)
Fixpoint forEach {A} (xs : list A) (body : A -> M unit) : M unit :=
  match xs with
  | [] => ret tt
  | x :: r => body x ;; forEach r body
  end.

Definition when (b : bool) (m : M unit) : M unit := if b then m else ret tt.

(** The whole [try { ... } catch (error) { next(error) }] of a handler. *)
Definition handler (m : M Outcome) (w : World) : Outcome * World :=
  match m w with
  | (Go o, w') => (o, w')
  | (Stop o, w') => (o, w')
  end.

(** ** The services a handler awaits

    Notification creation, the trending upsert and the image store are the
    secondary effects that can reject; [Env] says which calls do.  A rejected
    promise is an exception at the [await].  [natural_order] is the order in
    which the store hands out the accounts a query without [sort] matches:
    the matches come arranged by that comparison, and every arrangement of
    them is the one of some comparison. *)

Record Env := mkEnv {
  notification_ok : Notification -> bool;
  trending_ok : string -> bool;
  upload_result : string -> option string;
  destroy_ok : string -> bool;
  natural_order : User -> User -> bool
}.

(** [tweetSchema.text]: [required] (an empty string does not satisfy the
    required validator of a String path) and [maxlength: 280]. *)
Definition validateText (s : string) : list string :=
  if s =? "" then ["Tweet text is required"]
  else if (280 <? String.length s)%nat then ["Tweet cannot be more than 280 characters"]
  else [].

(** [tweetSchema.pre('save')] *)
Definition preSave (t : Tweet) : Tweet :=
  set_hashtags (Js.setOf (map Js.toLowerCase (Js.execAll "#" (text t)))) t.

Definition view (u : User) : UserView := (u_id u, username u).

(** ** Route parameters that name a document

    [followUser] and [unfollowUser] use [req.params.id] in two ways:
    [User.findById(id)] casts the string to an ObjectId, and
    [req.user._id.toString() === id] compares it as a string.  The cast reads
    the hexadecimal digits in either letter case and [toString()] writes them
    in lower case, so an account is also named by strings that are not its
    [toString()].  [castId] is the ObjectId the parameter casts to, and
    [canonical] says that the parameter is spelled as [toString()] spells that
    ObjectId.  (A parameter that does not cast makes [findById] reject, in
    every handler with an [:id]; the handlers are modelled for parameters
    that cast.) *)
Record RouteId := mkRouteId {
  castId : ObjectId;
  canonical : bool
}.

(** [i.toString() === id] *)
Definition spells (i : ObjectId) (id : RouteId) : bool :=
  canonical id && (i =? castId id)%nat.

Section Handlers.
Variable env : Env.

(** *** Model methods *)

Definition User_findById (i : ObjectId) : M (option User) :=
  fun w => (Go (findOne (userIs i) (users w)), w).

(** [user.save()]: the handlers save a document right after loading it, so
    writing the modified paths is writing the document. *)
Definition User_save (u : User) : M unit :=
  fun w => (Go tt, with_users (updateOne (userIs (u_id u)) (fun _ => u) (users w)) w).

(** [User.find({ username: { $in: names } })]: no [sort], so the matches
    come in the order of the store. *)
Definition User_find_usernameIn (names : list string) : M (list User) :=
  fun w =>
    (Go (sortBy (natural_order env)
           (filter (fun u => existsb (String.eqb (username u)) names) (users w))), w).

Definition Tweet_findById (i : ObjectId) : M (option Tweet) :=
  fun w => (Go (findOne (tweetIs i) (tweets w)), w).

(** [Tweet.create(fields)]: the [trim] setter, validation, the pre-save hook,
    then the insert. *)
Definition Tweet_create (fields : Tweet) : M Tweet :=
  fun w =>
    let doc := set_id (next_oid w) (set_text (Js.trim (text fields)) fields) in
    match validateText (text doc) with
    | [] =>
        let doc := preSave doc in
        (Go doc, bump (with_tweets (tweets w ++ [doc]) w))
    | messages => (Stop (Next (ValidationError messages)), w)
    end.

(** [tweet.save()] on a loaded document: validation, the pre-save hook, then
    the update. *)
Definition Tweet_save (doc : Tweet) : M unit :=
  fun w =>
    match validateText (text doc) with
    | [] =>
        (Go tt, with_tweets (updateOne (tweetIs (t_id doc)) (fun _ => preSave doc) (tweets w)) w)
    | messages => (Stop (Next (ValidationError messages)), w)
    end.

(** [Tweet.findByIdAndUpdate(id, update)]: no validation, no hook. *)
Definition Tweet_findByIdAndUpdate (i : ObjectId) (update : Tweet -> Tweet) : M unit :=
  fun w => (Go tt, with_tweets (updateOne (tweetIs i) update (tweets w)) w).

Definition Tweet_deleteOne (p : Tweet -> bool) : M unit :=
  fun w => (Go tt, with_tweets (deleteOne p (tweets w)) w).

(** [tweet.remove()] *)
Definition Tweet_remove (doc : Tweet) : M unit :=
  Tweet_deleteOne (tweetIs (t_id doc)).

Definition Notification_create (recipient0 sender0 : ObjectId) (type0 : NotificationType)
    (tweet0 : option ObjectId) : M unit :=
  fun w =>
    let doc := mkNotification (next_oid w) recipient0 sender0 type0 tweet0 false in
    if notification_ok env doc
    then (Go tt, bump (with_notifications (notifications w ++ [doc]) w))
    else (Stop (Next (ServiceError NotificationCreate)), w).

Definition Notification_deleteMany (p : Notification -> bool) : M unit :=
  fun w => (Go tt, with_notifications (deleteMany p (notifications w)) w).

(** [Trending.findOneAndUpdate({ tag }, { $inc: { count: 1 }, $push: { tweets: id } },
    { upsert: true, new: true })]: on insert, [$inc] on the absent [count]
    starts from 0 and [category] takes the schema default. *)
Definition Trending_findOneAndUpdate (g : string) (i : ObjectId) : M unit :=
  fun w =>
    if trending_ok env g then
      match findOne (tagIs g) (trending w) with
      | Some _ =>
          (Go tt,
           with_trending
             (updateOne (tagIs g)
                (fun d => mkTrending (tr_id d) (tag d) (count d + 1) (category d) (tr_tweets d ++ [i]))
                (trending w)) w)
      | None =>
          (Go tt,
           bump (with_trending (trending w ++ [mkTrending (next_oid w) g 1 "Trending" [i]]) w))
      end
    else (Stop (Next (ServiceError TrendingUpsert)), w).

(** [cloudinary.uploader.upload(path)], giving [result.secure_url]. *)
Definition cloudinary_upload (path : string) : M string :=
  fun w =>
    match upload_result env path with
    | Some url => (Go url, with_cloud (cloud w ++ [Uploaded url]) w)
    | None => (Stop (Next (ServiceError ImageUpload)), w)
    end.

(** [cloudinary.uploader.destroy(public_id)] *)
Definition cloudinary_destroy (public_id : string) : M unit :=
  fun w =>
    if destroy_ok env public_id
    then (Go tt, with_cloud (cloud w ++ [Destroyed public_id]) w)
    else (Stop (Next (ServiceError ImageDestroy)), w).

(** [Tweet.findById(id).populate('author', ...)] *)
Definition Tweet_findById_populated (i : ObjectId) : M (option (Tweet * option UserView)) :=
  fun w =>
    (Go (match findOne (tweetIs i) (tweets w) with
         | Some t => Some (t, option_map view (findOne (userIs (author t)) (users w)))
         | None => None
         end), w).

(** *** [followUser], [unfollowUser]

    [me] is [req.user._id], [id] is [req.params.id] as the request spells
    it. *)

Definition followUser (me : ObjectId) (id : RouteId) : M Outcome :=
  userToFollow <- User_findById (castId id) ;;
  match userToFollow with
  | None => send 404 (Message "User not found")
  | Some userToFollow =>
      if spells me id then send 400 (Message "You cannot follow yourself")
      else if includes me (followers userToFollow)
      then send 400 (Message "You are already following this user")
      else
        let userToFollow := set_followers (followers userToFollow ++ [me]) userToFollow in
        User_save userToFollow ;;
        currentUser <- User_findById me ;;
        match currentUser with
        | None => throw (TypeError "Cannot read properties of null (reading 'following')")
        | Some currentUser =>
            let currentUser :=
              set_following (following currentUser ++ [u_id userToFollow]) currentUser in
            User_save currentUser ;;
            Notification_create (u_id userToFollow) me follow None ;;
            ret (Sent 200 (Message "User followed successfully"))
        end
  end.

Definition unfollowUser (me : ObjectId) (id : RouteId) : M Outcome :=
  userToUnfollow <- User_findById (castId id) ;;
  match userToUnfollow with
  | None => send 404 (Message "User not found")
  | Some userToUnfollow =>
      if spells me id then send 400 (Message "You cannot unfollow yourself")
      else if negb (includes me (followers userToUnfollow))
      then send 400 (Message "You are not following this user")
      else
        let userToUnfollow := set_followers (without me (followers userToUnfollow)) userToUnfollow in
        User_save userToUnfollow ;;
        currentUser <- User_findById me ;;
        match currentUser with
        | None => throw (TypeError "Cannot read properties of null (reading 'following')")
        | Some currentUser =>
            let currentUser :=
              set_following (without (u_id userToUnfollow) (following currentUser)) currentUser in
            User_save currentUser ;;
            ret (Sent 200 (Message "User unfollowed successfully"))
        end
  end.

(** *** [createTweet]

    [text0] is [req.body.text], [file] is [req.file.path] when a file came
    with the request. *)

Definition createTweet (me : ObjectId) (text0 : option string) (file : option string)
    : M Outcome :=
  if negb (Js.truthy text0) && match file with Some _ => false | None => true end
  then send 400 (Message "Tweet text or image is required")
  else
    imageUrl0 <- match file with
                 | Some path => (url <- cloudinary_upload path ;; ret (Some url))
                 | None => ret None
                 end ;;
    tweet <- Tweet_create
               (mkTweet 0 (Js.orEmpty text0) me imageUrl0 [] [] [] None false false None [] []) ;;
    populatedTweet <- Tweet_findById_populated (t_id tweet) ;;
    when (0 <? List.length (hashtags tweet))%nat
      (forEach (hashtags tweet) (fun g => Trending_findOneAndUpdate g (t_id tweet))) ;;
    let mentionedUsernames := Js.execAll "@" (Js.toString text0) in
    when (0 <? List.length mentionedUsernames)%nat
      (mentionedUsers <- User_find_usernameIn mentionedUsernames ;;
       forEach mentionedUsers
         (fun user =>
            when (negb (u_id user =? me)%nat)
              (Notification_create (u_id user) me mention (Some (t_id tweet))))) ;;
    match populatedTweet with
    | None => throw (TypeError "Cannot read properties of null (reading '_id')")
    | Some (t, a) => ret (Sent 201 (TweetCreated (t_id t) (text t) a (imageUrl t)))
    end.

(** *** [likeTweet] *)

Definition likeTweet (me id : ObjectId) : M Outcome :=
  found <- Tweet_findById id ;;
  match found with
  | None => send 404 (Message "Tweet not found")
  | Some tweet =>
      let alreadyLiked := includes me (likes tweet) in
      tweet <- (if alreadyLiked
                then ret (set_likes (without me (likes tweet)) tweet)
                else
                  let tweet := set_likes (likes tweet ++ [me]) tweet in
                  when (negb (author tweet =? me)%nat)
                    (Notification_create (author tweet) me like (Some (t_id tweet))) ;;
                  ret tweet) ;;
      Tweet_save tweet ;;
      ret (Sent 200
             (LikeResult (if alreadyLiked then "Tweet unliked" else "Tweet liked")
                (List.length (likes tweet)) (negb alreadyLiked)))
  end.

(** *** [retweetTweet] *)

Definition retweetTweet (me id : ObjectId) : M Outcome :=
  found <- Tweet_findById id ;;
  match found with
  | None => send 404 (Message "Tweet not found")
  | Some tweet =>
      let alreadyRetweeted := includes me (retweets tweet) in
      tweet <- (if alreadyRetweeted
                then
                  let tweet := set_retweets (without me (retweets tweet)) tweet in
                  Tweet_deleteOne
                    (fun d => isRetweet d
                              && match originalTweet d with
                                 | Some o => (o =? t_id tweet)%nat
                                 | None => false
                                 end
                              && (author d =? me)%nat) ;;
                  ret tweet
                else
                  let tweet := set_retweets (retweets tweet ++ [me]) tweet in
                  Tweet_create
                    (mkTweet 0 (text tweet) me None [] [] [] None true false
                       (Some (t_id tweet)) [] []) ;;
                  when (negb (author tweet =? me)%nat)
                    (Notification_create (author tweet) me retweet (Some (t_id tweet))) ;;
                  ret tweet) ;;
      Tweet_save tweet ;;
      ret (Sent 200
             (RetweetResult (if alreadyRetweeted then "Retweet undone" else "Tweet retweeted")
                (List.length (retweets tweet)) (negb alreadyRetweeted)))
  end.

(** *** [replyToTweet]

    Past the first test [text] is a non-empty string, and [Js.orEmpty text0]
    is that string. *)

Definition replyToTweet (me id : ObjectId) (text0 : option string) : M Outcome :=
  if negb (Js.truthy text0) then send 400 (Message "Reply text is required")
  else
    found <- Tweet_findById id ;;
    match found with
    | None => send 404 (Message "Tweet not found")
    | Some parent =>
        replyTweet <- Tweet_create
                        (mkTweet 0 (Js.orEmpty text0) me None [] [] [] (Some (t_id parent))
                           false true None [] []) ;;
        let parent := set_replies (replies parent ++ [t_id replyTweet]) parent in
        Tweet_save parent ;;
        populatedReply <- Tweet_findById_populated (t_id replyTweet) ;;
        when (negb (author parent =? me)%nat)
          (Notification_create (author parent) me reply (Some (t_id parent))) ;;
        match populatedReply with
        | None => throw (TypeError "Cannot read properties of null (reading '_id')")
        | Some (t, a) => ret (Sent 201 (ReplyCreated (t_id t) (text t) a (t_id parent)))
        end
    end.

(** *** [deleteTweet] *)

Definition publicId (url : string) : string :=
  Js.firstSegment "." (Js.lastSegment "/" url).

Definition deleteTweet (me id : ObjectId) : M Outcome :=
  found <- Tweet_findById id ;;
  match found with
  | None => send 404 (Message "Tweet not found")
  | Some tweet =>
      if negb (author tweet =? me)%nat
      then send 403 (Message "Not authorized to delete this tweet")
      else
        match imageUrl tweet with
        | Some url =>
            when (negb (url =? ""))
              (cloudinary_destroy ("chirp-social/tweets/" ++ publicId url))
        | None => ret tt
        end ;;
        match parentTweet tweet with
        | Some p =>
            when (isReply tweet)
              (Tweet_findByIdAndUpdate p (fun d => set_replies (without (t_id tweet) (replies d)) d))
        | None => ret tt
        end ;;
        match originalTweet tweet with
        | Some o =>
            when (isRetweet tweet)
              (Tweet_findByIdAndUpdate o (fun d => set_retweets (without me (retweets d)) d))
        | None => ret tt
        end ;;
        Notification_deleteMany
          (fun n => match n_tweet n with
                    | Some i => (i =? t_id tweet)%nat
                    | None => false
                    end) ;;
        Tweet_remove tweet ;;
        ret (Sent 200 (Message "Tweet deleted successfully"))
  end.

End Handlers.

Local Open Scope list_scope.

(** ** Vocabulary of the statements

    [respects R m]: whatever [m] does to the world, on the normal and on the
    abrupt path, is within [R].  For a reflexive and transitive [R] this goes
    through sequencing, branches and loops. *)

Definition respects {A} (R : World -> World -> Prop) (m : M A) : Prop :=
  forall w, R w (snd (m w)).

(** The field [proj] of the world is left as it was. *)
Definition keeps {X} (proj : World -> X) : World -> World -> Prop :=
  fun w w' => proj w' = proj w.

(** [_id] is unique within the tweets collection. *)
Definition uniqueIds (w : World) : Prop := NoDup (map t_id (tweets w)).

(** The notification points at the post [i]. *)
Definition refersTo (i : ObjectId) (n : Notification) : bool :=
  match n_tweet n with
  | Some j => (j =? i)%nat
  | None => false
  end.

(** Notifications were only added, each from a sender to somebody else. *)
Definition notifiesOthers (w w' : World) : Prop :=
  exists l, notifications w' = notifications w ++ l
            /\ Forall (fun n => sender n <> recipient n) l.

(** [likeTweet] and [retweetTweet] on the array of a post: leave when in, join
    when out. *)
Definition toggle (i : ObjectId) (l : list ObjectId) : list ObjectId :=
  if includes i l then without i l else l ++ [i].

(** The retweet shell of account [a] for post [p]: the filter of the
    [Tweet.deleteOne] in [retweetTweet]. *)
Definition isShellOf (a p : ObjectId) (d : Tweet) : bool :=
  isRetweet d
  && match originalTweet d with
     | Some o => (o =? p)%nat
     | None => false
     end
  && (author d =? a)%nat.

(** The document [retweetTweet] creates for requester [a] and post [t], under
    ObjectId [i]. *)
Definition shellFor (i a : ObjectId) (t : Tweet) : Tweet :=
  preSave (mkTweet i (Js.trim (text t)) a None [] [] [] None true false (Some (t_id t)) [] []).

(** The document [createTweet] stores for the body ["#Foo bar #foo #FOO"]. *)
Definition fooPost (i a : ObjectId) : Tweet :=
  mkTweet i "#Foo bar #foo #FOO" a None [] [] [] None false false None ["foo"] [].

(** The document [replyToTweet] creates under ObjectId [i]. *)
Definition replyFor (i a p : ObjectId) (text0 : option string) : Tweet :=
  preSave (mkTweet i (Js.trim (Js.orEmpty text0)) a None [] [] [] (Some p) false true None [] []).

(** The document [createTweet] creates under ObjectId [i]. *)
Definition postFor (i a : ObjectId) (text0 : option string) (imageUrl0 : option string) : Tweet :=
  preSave (mkTweet i (Js.trim (Js.orEmpty text0)) a imageUrl0 [] [] [] None false false None [] []).

(** The accounts a post by [me] with body [text0] notifies of a mention. *)
Definition mentioned (me : ObjectId) (text0 : option string) (w : World) : list User :=
  filter (fun u => negb (u_id u =? me)%nat)
    (filter (fun u => existsb (String.eqb (username u)) (Js.execAll "@" (Js.toString text0)))
       (users w)).

(** [imageUrl] of a new post: the [secure_url] of the upload when a file came
    with the request, [null] otherwise. *)
Definition imageFor (env : Env) (file : option string) : option string :=
  match file with
  | Some path => upload_result env path
  | None => None
  end.

(** The image store takes the file of the request, if there is one. *)
Definition uploads (env : Env) (file : option string) : Prop :=
  forall path, file = Some path -> upload_result env path <> None.

(** A post as [Tweet.create] and [tweet.save()] leave it: the text passes the
    schema and is trimmed, the hashtags are those of the text, and the arrays
    of accounts hold nobody twice. *)
Record stored (t : Tweet) : Prop := mkStored {
  text_valid : validateText (text t) = [];
  text_trimmed : Js.trim (text t) = text t;
  hashtags_fresh : preSave t = t;
  likes_nodup : NoDup (likes t);
  retweets_nodup : NoDup (retweets t)
}.

(** How many retweet shells of account [a] for post [p] the collection holds. *)
Definition shells (a p : ObjectId) (c : list Tweet) : nat :=
  List.length (filter (isShellOf a p) c).

(** The tweets collection as the handlers keep it, with [n] the next
    ObjectId: ids are unique and already drawn, every post is [stored], a
    shell is younger than its original, and an account has one shell for a
    post when it is among the post's retweets and none otherwise. *)
Record tweetsOk (n : ObjectId) (c : list Tweet) : Prop := mkTweetsOk {
  ids_drawn : forall t, In t c -> t_id t < n;
  ids_unique : NoDup (map t_id c);
  all_stored : forall t, In t c -> stored t;
  originals_older : forall d o, In d c -> originalTweet d = Some o -> o < t_id d;
  shells_match : forall a t, In t c ->
    shells a (t_id t) c = if includes a (retweets t) then 1 else 0
}.

Definition consistent (w : World) : Prop := tweetsOk (next_oid w) (tweets w).

(** [f] rewrites a post without touching what ties it to its shells. *)
Definition sameShape (f : Tweet -> Tweet) : Prop :=
  forall d, t_id (f d) = t_id d /\ isRetweet (f d) = isRetweet d
            /\ originalTweet (f d) = originalTweet d /\ author (f d) = author d
            /\ retweets (f d) = retweets d.

(** The tweets collection is left alone and the ObjectId supply only moves
    forward. *)
Definition quiet (w w' : World) : Prop :=
  tweets w' = tweets w /\ next_oid w <= next_oid w'.

(** A step that does not disturb a consistent world. *)
Definition sound (w w' : World) : Prop := consistent w -> consistent w'.

(** The requests of the engagement subsystem, as the routers hand them to
    the controllers. *)
Inductive Request :=
| CreateTweet (me : ObjectId) (text0 : option string) (file : option string)
| LikeTweet (me id : ObjectId)
| RetweetTweet (me id : ObjectId)
| ReplyToTweet (me id : ObjectId) (text0 : option string)
| DeleteTweet (me id : ObjectId)
| FollowUser (me : ObjectId) (id : RouteId)
| UnfollowUser (me : ObjectId) (id : RouteId).

Definition serve (env : Env) (r : Request) : World -> Outcome * World :=
  handler
    match r with
    | CreateTweet me text0 file => createTweet env me text0 file
    | LikeTweet me id => likeTweet env me id
    | RetweetTweet me id => retweetTweet env me id
    | ReplyToTweet me id text0 => replyToTweet env me id text0
    | DeleteTweet me id => deleteTweet env me id
    | FollowUser me id => followUser env me id
    | UnfollowUser me id => unfollowUser me id
    end.

(** The worlds the handlers produce from a store without posts, one request
    after the other, as long as notification creation answers. *)
Inductive reachable : World -> Prop :=
| reachable_start us ns tr cl n : reachable (mkWorld us [] ns tr cl n)
| reachable_step env r w :
    (forall n, notification_ok env n = true) ->
    reachable w -> reachable (snd (serve env r w)).

(** The tweets collection as the handlers leave it whatever fails, with [n]
    the next ObjectId: every id is already drawn and every post is
    [stored]. *)
Definition keptIn (n : ObjectId) (c : list Tweet) : Prop :=
  forall t, In t c -> t_id t < n /\ stored t.

Definition settled (w : World) : Prop := keptIn (next_oid w) (tweets w).

(** A step that does not disturb a settled world. *)
Definition steady (w w' : World) : Prop := settled w -> settled w'.

(** The worlds the handlers produce from a store without posts, one request
    after the other, whatever the services do. *)
Inductive served : World -> Prop :=
| served_start us ns tr cl n : served (mkWorld us [] ns tr cl n)
| served_step env r w : served w -> served (snd (serve env r w)).

(** ** A small deployment, for concrete runs *)

Module Sample.

(** Every service answers.  In all four samples the store hands out the
    accounts in the order of the collection. *)
Definition reliable : Env :=
  mkEnv (fun _ => true) (fun _ => true) (fun path => Some path) (fun _ => true)
    (fun _ _ => true).

(** Notification creation rejects. *)
Definition notifications_down : Env :=
  mkEnv (fun _ => false) (fun _ => true) (fun path => Some path) (fun _ => true)
    (fun _ _ => true).

(** The trending upsert rejects. *)
Definition trending_down : Env :=
  mkEnv (fun _ => true) (fun _ => false) (fun path => Some path) (fun _ => true)
    (fun _ _ => true).

(** The image store refuses to destroy. *)
Definition destroy_down : Env :=
  mkEnv (fun _ => true) (fun _ => true) (fun path => Some path) (fun _ => false)
    (fun _ _ => true).

Definition alice : User := mkUser 1 "alice" [] [].
Definition bob : User := mkUser 2 "bob" [] [].

Definition hello : Tweet :=
  mkTweet 10 "Hello #world" 1 None [] [] [] None false false None ["world"] [].

Definition photo : Tweet :=
  mkTweet 11 "look" 1 (Some "https://res.cloudinary.com/demo/chirp-social/tweets/abc123.jpg")
    [] [] [] None false false None [] [].

(** A reply of bob to [hello], with a notification that points at the reply. *)
Definition answer : Tweet :=
  mkTweet 12 "hi" 2 None [] [] [] (Some 10) false true None [] [].

Definition start : World :=
  mkWorld [alice; bob] [hello; photo] [] [mkTrending 13 "world" 1 "Trending" [10]] [] 20.

Definition thread : World :=
  mkWorld [alice; bob]
    [mkTweet 10 "Hello #world" 1 None [] [] [12] None false false None ["world"] []; answer]
    [mkNotification 14 1 2 reply (Some 10) false; mkNotification 15 2 1 like (Some 12) false]
    [mkTrending 13 "world" 1 "Trending" [10]] [] 20.

End Sample.

(** * The rest of the API

    Vocabulary and models for the statements about the code the engagement
    handlers sit in: refusals, the follow graph, hashtags and trending
    topics, the notification controller, the routers and the read
    handlers. *)

(** [raises m]: when [m] completes abruptly it is by an exception, never by
    an answer of its own. *)
Definition raises {A} (m : M A) : Prop :=
  forall w o w', m w = (Stop o, w') -> exists e, o = Next e.

(** [answersOnly P m]: every answer [m] sends has a status in [P]. *)
Definition answersOnly (P : nat -> Prop) (m : M Outcome) : Prop :=
  forall w s b, fst (handler m w) = Sent s b -> P s.

(** The follow graph as the accounts store it: account ids are unique, and
    [y] is in [x.following] exactly when [x] is in [y.followers]. *)
Definition graphOk (us : list User) : Prop :=
  NoDup (map u_id us)
  /\ forall x y, In x us -> In y us ->
       (In (u_id y) (following x) <-> In (u_id x) (followers y)).

(** [req.user._id] of a request. *)
Definition requester (r : Request) : ObjectId :=
  match r with
  | CreateTweet me _ _ => me
  | LikeTweet me _ => me
  | RetweetTweet me _ => me
  | ReplyToTweet me _ _ => me
  | DeleteTweet me _ => me
  | FollowUser me _ => me
  | UnfollowUser me _ => me
  end.

(** What [followUser] does to an account, for requester [a] and target [b]:
    the save of the target, then the save of the requester.  The two are the
    same account when the requester is reached under another spelling. *)
Definition followed (a b : ObjectId) (x : User) : User :=
  let x := if (u_id x =? b)%nat then set_followers (followers x ++ [a]) x else x in
  if (u_id x =? a)%nat then set_following (following x ++ [b]) x else x.

(** What [unfollowUser] does to an account. *)
Definition unfollowed (a b : ObjectId) (x : User) : User :=
  let x := if (u_id x =? b)%nat then set_followers (without a (followers x)) x else x in
  if (u_id x =? a)%nat then set_following (without b (following x)) x else x.

(** A character of a stored hashtag: [a-z0-9_]. *)
Definition isTagChar (c : ascii) : bool :=
  Js.between 97 122 c || Js.between 48 57 c || (nat_of_ascii c =? 95)%nat.

Fixpoint allChars (p : ascii -> bool) (s : string) : bool :=
  match s with
  | EmptyString => true
  | String c r => p c && allChars p r
  end.

(** Every topic that was there is still there, under the same [_id], with a
    count that is not lower and its contributors extended. *)
Definition trendGrows (w w' : World) : Prop :=
  forall g d, findOne (tagIs g) (trending w) = Some d ->
    exists d', findOne (tagIs g) (trending w') = Some d'
               /\ tr_id d' = tr_id d /\ (count d <= count d')%Z
               /\ exists l, tr_tweets d' = tr_tweets d ++ l.

(** Notifications were only appended. *)
Definition notificationsGrow (w w' : World) : Prop :=
  exists l, notifications w' = notifications w ++ l.

(** What a notification says, its [_id] apart. *)
Definition about (n : Notification)
    : ObjectId * ObjectId * NotificationType * option ObjectId * bool :=
  (recipient n, sender n, n_type n, n_tweet n, read n).

(** What the upserts of a post [i] with hashtags [tags] do to the trending
    topics: every tag of the post is a topic afterwards, counted once more
    than before (once, if it was new) and listing the post; no other topic is
    touched. *)
Definition upserted (i : ObjectId) (tags : list string) (before after : list Trending) : Prop :=
  forall g,
    (In g tags ->
     exists d', findOne (tagIs g) after = Some d'
                /\ count d' = match findOne (tagIs g) before with
                              | Some d => (count d + 1)%Z
                              | None => 1%Z
                              end
                /\ In i (tr_tweets d'))
    /\ (~ In g tags -> findOne (tagIs g) after = findOne (tagIs g) before).

(** ** The notification controller

    [me] is [req.user._id]: the router runs [authenticateToken] before every
    handler of this controller. *)

Definition notificationIs (i : ObjectId) (n : Notification) : bool := (n_id n =? i)%nat.

Definition set_read (v : bool) (n : Notification) : Notification :=
  mkNotification (n_id n) (recipient n) (sender n) (n_type n) (n_tweet n) v.

(** [Model.updateMany(filter, update)] and [Model.countDocuments(filter)] on a
    collection. *)
Definition updateMany {D} (p : D -> bool) (f : D -> D) (c : list D) : list D :=
  map (fun d => if p d then f d else d) c.

Definition countDocuments {D} (p : D -> bool) (c : list D) : nat :=
  List.length (filter p c).

(** The filter [{ recipient: req.user._id, read: false }]. *)
Definition unreadOf (me : ObjectId) (n : Notification) : bool :=
  (recipient n =? me)%nat && negb (read n).

Definition Notification_findById (i : ObjectId) : M (option Notification) :=
  fun w => (Go (findOne (notificationIs i) (notifications w)), w).

(** [notification.save()] on a loaded document. *)
Definition Notification_save (doc : Notification) : M unit :=
  fun w =>
    (Go tt,
     with_notifications (updateOne (notificationIs (n_id doc)) (fun _ => doc) (notifications w)) w).

Definition Notification_updateMany (p : Notification -> bool) (f : Notification -> Notification)
    : M unit :=
  fun w => (Go tt, with_notifications (updateMany p f (notifications w)) w).

Definition markAsRead (me id : ObjectId) : M Outcome :=
  found <- Notification_findById id ;;
  match found with
  | None => send 404 (Message "Notification not found")
  | Some notification =>
      if negb (recipient notification =? me)%nat
      then send 403 (Message "Not authorized to mark this notification as read")
      else
        let notification := set_read true notification in
        Notification_save notification ;;
        ret (Sent 200 (Message "Notification marked as read"))
  end.

Definition markAllAsRead (me : ObjectId) : M Outcome :=
  Notification_updateMany (unreadOf me) (set_read true) ;;
  ret (Sent 200 (Message "All notifications marked as read")).

(** [getUnreadCount]: the [count] of its response, which is all it computes;
    it writes nothing. *)
Definition getUnreadCount (me : ObjectId) (w : World) : nat :=
  countDocuments (unreadOf me) (notifications w).

(** ** Routing

    The route files and the mounts of [server.js].  A path is the list of its
    segments, none of them empty; the router takes the first route, in the
    order of declaration, whose method is that of the request and whose
    pattern matches, and no controller calls [next()] without an error, so
    that route answers.  Literal segments compare without regard to case
    (the routers are created without [caseSensitive]). *)

Inductive Method := GET | POST | PUT | DELETE.

Inductive Segment :=
| Lit (s : string)
| Param (name : string).

Inductive Controller :=
| to_registerUser | to_loginUser | to_getCurrentUser | to_refreshUserToken | to_logoutUser
| to_getUserProfile | to_getUserTweets | to_followUser | to_unfollowUser
| to_updateUserProfile | to_getSuggestedUsers | to_searchUsers
| to_createTweet | to_getTimeline | to_getTrendingTweets | to_getTweetById | to_likeTweet
| to_retweetTweet | to_replyToTweet | to_getTweetReplies | to_deleteTweet | to_searchTweets
| to_getNotifications | to_markAsRead | to_markAllAsRead | to_getUnreadCount
| to_getTrendingTopics.

(** [authenticated]: [authenticateToken] stands before the controller, so
    that [req.user] is set when the controller runs. *)
Record Route := mkRoute {
  method : Method;
  pattern : list Segment;
  authenticated : bool;
  controller : Controller
}.

Definition sameMethod (a b : Method) : bool :=
  match a, b with
  | GET, GET | POST, POST | PUT, PUT | DELETE, DELETE => true
  | _, _ => false
  end.

(** [req.params] when the pattern matches the path. *)
Fixpoint matchPath (pat : list Segment) (path : list string) : option (list (string * string)) :=
  match pat, path with
  | [], [] => Some []
  | Lit s :: pat, seg :: path =>
      if Js.toLowerCase seg =? Js.toLowerCase s then matchPath pat path else None
  | Param name :: pat, seg :: path =>
      if seg =? "" then None
      else match matchPath pat path with
           | Some params => Some ((name, seg) :: params)
           | None => None
           end
  | _, _ => None
  end.

Fixpoint dispatch (router : list Route) (m : Method) (path : list string)
    : option (Route * list (string * string)) :=
  match router with
  | [] => None
  | r :: router =>
      if sameMethod (method r) m
      then match matchPath (pattern r) path with
           | Some params => Some (r, params)
           | None => dispatch router m path
           end
      else dispatch router m path
  end.

(** [routes/auth.js] *)
Definition authRoutes : list Route :=
  [ mkRoute POST [Lit "register"] false to_registerUser;
    mkRoute POST [Lit "login"] false to_loginUser;
    mkRoute GET [Lit "me"] true to_getCurrentUser;
    mkRoute POST [Lit "refresh-token"] false to_refreshUserToken;
    mkRoute POST [Lit "logout"] true to_logoutUser ].

(** [routes/users.js] *)
Definition userRoutes : list Route :=
  [ mkRoute GET [Param "username"] false to_getUserProfile;
    mkRoute GET [Param "username"; Lit "tweets"] false to_getUserTweets;
    mkRoute POST [Param "id"; Lit "follow"] true to_followUser;
    mkRoute POST [Param "id"; Lit "unfollow"] true to_unfollowUser;
    mkRoute PUT [Lit "profile"] true to_updateUserProfile;
    mkRoute GET [Lit "suggestions"] true to_getSuggestedUsers;
    mkRoute GET [Lit "search"] false to_searchUsers ].

(** [routes/tweets.js] *)
Definition tweetRoutes : list Route :=
  [ mkRoute POST [] true to_createTweet;
    mkRoute GET [Lit "timeline"] true to_getTimeline;
    mkRoute GET [Lit "trending"] false to_getTrendingTweets;
    mkRoute GET [Param "id"] false to_getTweetById;
    mkRoute POST [Param "id"; Lit "like"] true to_likeTweet;
    mkRoute POST [Param "id"; Lit "retweet"] true to_retweetTweet;
    mkRoute POST [Param "id"; Lit "reply"] true to_replyToTweet;
    mkRoute GET [Param "id"; Lit "replies"] false to_getTweetReplies;
    mkRoute DELETE [Param "id"] true to_deleteTweet;
    mkRoute GET [Lit "search"] false to_searchTweets ].

(** [routes/notifications.js]; the mount adds [authenticateToken] once more. *)
Definition notificationRoutes : list Route :=
  [ mkRoute GET [] true to_getNotifications;
    mkRoute PUT [Param "id"; Lit "read"] true to_markAsRead;
    mkRoute PUT [Lit "read-all"] true to_markAllAsRead;
    mkRoute GET [Lit "unread-count"] true to_getUnreadCount ].

(** [routes/trending.js] *)
Definition trendingRoutes : list Route :=
  [ mkRoute GET [] false to_getTrendingTopics ].

(** The mounts of [server.js], in order: [app.use('/api/auth', authRoutes)]
    and so on.  A router that has no route for the request hands it on. *)
Definition mounts : list (string * list Route) :=
  [ ("auth", authRoutes); ("users", userRoutes); ("tweets", tweetRoutes);
    ("notifications", notificationRoutes); ("trending", trendingRoutes) ].

Fixpoint throughMounts (ms : list (string * list Route)) (m : Method) (area : string)
    (path : list string) : option (Route * list (string * string)) :=
  match ms with
  | [] => None
  | (name, router) :: ms =>
      if Js.toLowerCase area =? Js.toLowerCase name
      then match dispatch router m path with
           | Some hit => Some hit
           | None => throughMounts ms m area path
           end
      else throughMounts ms m area path
  end.

Definition app (m : Method) (path : list string) : option (Route * list (string * string)) :=
  match path with
  | api :: area :: path =>
      if Js.toLowerCase api =? "api" then throughMounts mounts m area path else None
  | _ => None
  end.

(** [req.user] in a controller: the account of the token when
    [authenticateToken] ran, [undefined] otherwise. *)
Definition requestUser (r : Route) (bearer : option ObjectId) : option ObjectId :=
  if authenticated r then bearer else None.

(** The controllers whose routes stand behind a parameter route that takes
    their path. *)
Definition unrouted (c : Controller) : Prop :=
  c = to_getSuggestedUsers \/ c = to_searchUsers \/ c = to_searchTweets.

(** ** The read handlers

    They write nothing, so they are functions of the world.  [res.json(x)] is
    [Json x]; an exception goes to the error middleware ([Raised]), and so
    does the rejection of a query by the store ([QueryRejected]: a negative
    [skip]); both are answered 500. *)

Inductive Reply (A : Type) :=
| Json (body : A)
| Refused (status : nat) (message : string)
| Raised (error : Exn)
| QueryRejected.

Arguments Json {A} body.
Arguments Refused {A} status message.
Arguments Raised {A} error.
Arguments QueryRejected {A}.

(** [.limit(Number(limit))]: a limit of 0 is no limit. *)
Definition limitTo {A} (limit : nat) (l : list A) : list A :=
  if (limit =? 0)%nat then l else firstn limit l.

(** [.skip((page - 1) * limit).limit(Number(limit))] for numeric query
    parameters: page 0 asks for a negative skip, which the store rejects
    (with limit 0 the product is zero). *)
Definition paginate {A} (page limit : nat) (l : list A) : option (list A) :=
  if (page =? 0)%nat && negb (limit =? 0)%nat then None
  else Some (limitTo limit (skipn ((page - 1) * limit) l)).

(** The fields the tweet listings share ([createdAt] apart: the timestamps
    are not part of the world). *)
Record Meta := mkMeta {
  m_id : ObjectId;
  m_text : string;
  m_author : option UserView;
  m_imageUrl : option string;
  m_likes : nat;
  m_retweets : nat;
  m_replies : nat;
  m_isLiked : bool;
  m_isRetweeted : bool
}.

(** [.populate('author', ...)] *)
Definition populateAuthor (w : World) (i : ObjectId) : option UserView :=
  option_map view (findOne (userIs i) (users w)).

(** [.populate({ path: 'originalTweet', populate: { path: 'author', ... } })] *)
Definition populateOriginal (w : World) (o : option ObjectId)
    : option (Tweet * option UserView) :=
  match o with
  | Some i =>
      match findOne (tweetIs i) (tweets w) with
      | Some t => Some (t, populateAuthor w (author t))
      | None => None
      end
  | None => None
  end.

(** [viewer] is [req.user] with its [_id]: [req.user ? ....includes(req.user._id) : false]. *)
Definition meta (viewer : option ObjectId) (w : World) (t : Tweet) : Meta :=
  mkMeta (t_id t) (text t) (populateAuthor w (author t)) (imageUrl t)
    (List.length (likes t)) (List.length (retweets t)) (List.length (replies t))
    (match viewer with Some me => includes me (likes t) | None => false end)
    (match viewer with Some me => includes me (retweets t) | None => false end).

(** A tweet of a listing: the shared fields, [isRetweet], [originalTweet]. *)
Definition TweetView : Type := Meta * bool * option (Tweet * option UserView).

Definition tweetWithMeta (viewer : option ObjectId) (w : World) (t : Tweet) : TweetView :=
  (meta viewer w t, isRetweet t, populateOriginal w (originalTweet t)).

(** A reply of a listing: the shared fields and [parentTweet]. *)
Definition ReplyView : Type := Meta * option ObjectId.

Definition getTweetById (viewer : option ObjectId) (id : ObjectId) (w : World)
    : Reply TweetView :=
  match findOne (tweetIs id) (tweets w) with
  | None => Refused 404 "Tweet not found"
  | Some tweet => Json (tweetWithMeta viewer w tweet)
  end.

(** [getSuggestedUsers]: no [sort], so the first [limit] matches in the
    order of the store. *)
Definition getSuggestedUsers (env : Env) (me : ObjectId) (limit : nat) (w : World)
    : Reply (list UserView) :=
  match findOne (userIs me) (users w) with
  | None => Raised (TypeError "Cannot read properties of null (reading 'following')")
  | Some currentUser =>
      Json (map view
              (limitTo limit
                 (sortBy (natural_order env)
                    (filter (fun u => negb (includes (u_id u) (me :: following currentUser)))
                       (users w)))))
  end.




(** The filter of [getTimeline] for the accounts [following]:
    [{ $or: [{ author: { $in: following } }, { retweets: { $in: following } }] }]. *)
Definition onTimeline (following : list ObjectId) (t : Tweet) : bool :=
  includes (author t) following || existsb (fun r => includes r following) (retweets t).

Section Reads.

(** The [createdAt] the store keeps for the document with a given [_id]. *)
Variable createdAt : ObjectId -> nat.

(** [.sort({ createdAt: -1 })] *)
Definition newestFirst {A} (idOf : A -> ObjectId) (l : list A) : list A :=
  sortBy (fun x y => (createdAt (idOf y) <=? createdAt (idOf x))%nat) l.

Definition getTimeline (me : ObjectId) (page limit : nat) (w : World)
    : Reply (list TweetView) :=
  match findOne (userIs me) (users w) with
  | None => Raised (TypeError "Cannot read properties of null (reading 'following')")
  | Some user =>
      let following := following user ++ [me] in
      match paginate page limit
              (newestFirst t_id
                 (filter (fun t => includes (author t) following
                                   || existsb (fun r => includes r following) (retweets t))
                    (tweets w))) with
      | None => QueryRejected
      | Some tweets => Json (map (tweetWithMeta (Some me) w) tweets)
      end
  end.

Definition getUserTweets (viewer : option ObjectId) (username0 : string) (page limit : nat)
    (w : World) : Reply (list TweetView) :=
  match findOne (fun u => username u =? username0) (users w) with
  | None => Refused 404 "User not found"
  | Some user =>
      match paginate page limit
              (newestFirst t_id
                 (filter (fun t => (author t =? u_id user)%nat && negb (isReply t)) (tweets w))) with
      | None => QueryRejected
      | Some tweets => Json (map (tweetWithMeta viewer w) tweets)
      end
  end.

Definition getTweetReplies (viewer : option ObjectId) (id : ObjectId) (page limit : nat)
    (w : World) : Reply (list ReplyView) :=
  match findOne (tweetIs id) (tweets w) with
  | None => Refused 404 "Tweet not found"
  | Some tweet =>
      match paginate page limit
              (newestFirst t_id
                 (filter (fun t => match parentTweet t with
                                   | Some p => (p =? t_id tweet)%nat
                                   | None => false
                                   end && isReply t)
                    (tweets w))) with
      | None => QueryRejected
      | Some replies => Json (map (fun reply => (meta viewer w reply, parentTweet reply)) replies)
      end
  end.

(** [getTrendingTweets]: an aggregation.  [$skip] rejects a negative number
    and [$limit] anything that is not positive.  The route carries no
    [authenticateToken], so [req.user] is not set and both flags are
    [false]. *)
Definition engagementScore (t : Tweet) : nat :=
  List.length (likes t) + List.length (retweets t) + List.length (replies t).

Definition aggregatePage {A} (page limit : nat) (l : list A) : option (list A) :=
  if (page =? 0)%nat || (limit =? 0)%nat then None
  else Some (firstn limit (skipn ((page - 1) * limit) l)).

Definition getTrendingTweets (page limit : nat) (w : World) : Reply (list Meta) :=
  match aggregatePage page limit
          (sortBy (fun x y => (engagementScore y <? engagementScore x)%nat
                              || (engagementScore y =? engagementScore x)%nat
                                 && (createdAt (t_id y) <=? createdAt (t_id x))%nat)
             (tweets w)) with
  | None => QueryRejected
  | Some tweets => Json (map (meta None w) tweets)
  end.





End Reads.

(** * Properties *)

(** ** JavaScript strings *)

Example execAll_hashtags :
  Js.execAll "#" "#Foo bar #foo #FOO ## # a#b_1!" = ["Foo"; "foo"; "FOO"; "b_1"].
Proof. reflexivity. Qed.

Example trim_both_ends : Js.trim "  a b  " = "a b".
Proof. reflexivity. Qed.

Example publicId_of_url :
  publicId "https://res.cloudinary.com/demo/chirp-social/tweets/abc123.jpg" = "abc123".
Proof. reflexivity. Qed.

Lemma trimStart_shape s :
  Js.trimStart s = "" \/ exists c r, Js.trimStart s = String c r /\ Js.isSpace c = false.
Proof.
  induction s as [|c r IH]; simpl; [now left|].
  destruct (Js.isSpace c) eqn:Hc; [exact IH|]. right. now exists c, r.
Qed.

Lemma trimEnd_idempotent s : Js.trimEnd (Js.trimEnd s) = Js.trimEnd s.
Proof.
  induction s as [|c r IH]; simpl; [reflexivity|].
  destruct (Js.isSpace c && (Js.trimEnd r =? "")) eqn:Hc; simpl; [reflexivity|].
  now rewrite IH, Hc.
Qed.

(** What the [trim] setter stores is left alone by a second [trim]. *)
Lemma trim_idempotent s : Js.trim (Js.trim s) = Js.trim s.
Proof.
  unfold Js.trim. destruct (trimStart_shape s) as [->|[c [r [-> Hc]]]]; [reflexivity|].
  simpl. rewrite Hc. simpl. rewrite Hc. simpl.
  rewrite trimEnd_idempotent. now rewrite Hc.
Qed.

(** A document that [Tweet.create] stored passes the schema again, as it is
    and after another [trim]: the two conditions on the post in the retweet
    statements. *)
Lemma Tweet_create_stored fields w doc w' :
  Tweet_create fields w = (Go doc, w') ->
  validateText (text doc) = [] /\ validateText (Js.trim (text doc)) = [].
Proof.
  unfold Tweet_create. simpl.
  destruct (validateText (Js.trim (text fields))) eqn:Hv; [|discriminate].
  intros [= <- _]. simpl. rewrite trim_idempotent. now split.
Qed.

(** ** Lists of ObjectIds *)

Lemma includes_In i l : includes i l = true <-> In i l.
Proof.
  unfold includes. rewrite existsb_exists. split.
  - intros [x [Hin Heq]]. apply Nat.eqb_eq in Heq. now subst.
  - intros Hin. exists i. split; [assumption | apply Nat.eqb_refl].
Qed.

Lemma includes_false i l : includes i l = false <-> ~ In i l.
Proof.
  rewrite <- includes_In. destruct (includes i l); split; intros; congruence.
Qed.

Lemma includes_push i l : includes i (l ++ [i]) = true.
Proof. apply includes_In, in_or_app. right. now left. Qed.

Lemma In_without j i l : In j (without i l) <-> In j l /\ j <> i.
Proof.
  unfold without. rewrite filter_In, negb_true_iff, Nat.eqb_neq. reflexivity.
Qed.

Lemma includes_without i l : includes i (without i l) = false.
Proof. apply includes_false. rewrite In_without. tauto. Qed.

Lemma without_absent i l : includes i l = false -> without i l = l.
Proof.
  intros H. apply includes_false in H. unfold without.
  induction l as [|x l IH]; simpl; [reflexivity|].
  destruct (Nat.eqb_spec x i) as [->|Hne]; simpl.
  - exfalso. apply H. now left.
  - f_equal. apply IH. intros Hin. apply H. now right.
Qed.

Lemma without_push i l : without i (l ++ [i]) = without i l.
Proof.
  unfold without. rewrite filter_app. simpl. rewrite Nat.eqb_refl. simpl.
  apply app_nil_r.
Qed.

(** Removing an id that occurs once shortens the array by one. *)
Lemma without_length i (l : list ObjectId) :
  NoDup l -> In i l -> S (List.length (without i l)) = List.length l.
Proof.
  induction 1 as [|x l Hx Hnd IH]; simpl; [tauto|].
  intros [->|Hin].
  - rewrite Nat.eqb_refl. simpl. f_equal. f_equal.
    apply without_absent, includes_false. assumption.
  - destruct (Nat.eqb_spec x i) as [->|Hne]; [tauto|]. simpl. f_equal. now apply IH.
Qed.

Lemma NoDup_without i (l : list ObjectId) : NoDup l -> NoDup (without i l).
Proof. apply NoDup_filter. Qed.

Lemma NoDup_push (i : ObjectId) l : NoDup l -> ~ In i l -> NoDup (l ++ [i]).
Proof.
  intros Hnd Hni. apply NoDup_app; [assumption | repeat constructor; simpl; tauto |].
  intros x Hx [<-|[]]. tauto.
Qed.

(** ** Collections *)

Section CollectionFacts.
Context {D : Type}.
Implicit Types (p q : D -> bool) (f : D -> D) (c : list D).

Lemma findOne_updateOne_hit p f c d :
  findOne p c = Some d -> p (f d) = true -> findOne p (updateOne p f c) = Some (f d).
Proof.
  unfold findOne. induction c as [|x c IH]; simpl; [discriminate|].
  destruct (p x) eqn:Hx; simpl.
  - intros [= ->] ->. reflexivity.
  - rewrite Hx. assumption.
Qed.

(** An update aimed at other documents is not seen by a query [q]. *)
Lemma findOne_updateOne_miss p q f c :
  (forall d, p d = true -> q d = false /\ q (f d) = false) ->
  findOne q (updateOne p f c) = findOne q c.
Proof.
  unfold findOne. intros H. induction c as [|x c IH]; simpl; [reflexivity|].
  destruct (p x) eqn:Hx; simpl.
  - destruct (H x Hx) as [-> ->]. reflexivity.
  - now rewrite IH.
Qed.

Lemma findOne_push p c d :
  findOne p (c ++ [d]) =
  match findOne p c with Some x => Some x | None => if p d then Some d else None end.
Proof.
  unfold findOne. induction c as [|x c IH]; simpl; [reflexivity|].
  destruct (p x); [reflexivity | assumption].
Qed.

Lemma findOne_Some p c d : findOne p c = Some d -> In d c /\ p d = true.
Proof. apply find_some. Qed.

Lemma findOne_None p c : findOne p c = None -> forall d, In d c -> p d = false.
Proof. apply find_none. Qed.

Lemma updateOne_absent p f c : (forall d, In d c -> p d = false) -> updateOne p f c = c.
Proof.
  induction c as [|x c IH]; simpl; intros H; [reflexivity|].
  rewrite (H x (or_introl eq_refl)). f_equal. apply IH. intros d Hd. apply H. now right.
Qed.

Lemma deleteOne_absent p c : (forall d, In d c -> p d = false) -> deleteOne p c = c.
Proof.
  induction c as [|x c IH]; simpl; intros H; [reflexivity|].
  rewrite (H x (or_introl eq_refl)). f_equal. apply IH. intros d Hd. apply H. now right.
Qed.


Lemma updateOne_push p f c d :
  (exists x, In x c /\ p x = true) -> updateOne p f (c ++ [d]) = updateOne p f c ++ [d].
Proof.
  induction c as [|x c IH]; simpl; intros [y [Hy Hp]]; [tauto|].
  destruct (p x) eqn:Hx; [reflexivity|]. simpl. f_equal. apply IH.
  destruct Hy as [->|Hy]; [congruence|]. now exists y.
Qed.

Lemma In_deleteOne p c d : In d (deleteOne p c) -> In d c.
Proof.
  induction c as [|x c IH]; simpl; [tauto|].
  destruct (p x); simpl; intuition.
Qed.

Lemma In_deleteMany p c d : In d (deleteMany p c) <-> In d c /\ p d = false.
Proof. unfold deleteMany. rewrite filter_In, negb_true_iff. reflexivity. Qed.

Lemma findOne_deleteOne_miss p q c :
  (forall d, q d = true -> p d = false) -> findOne p (deleteOne q c) = findOne p c.
Proof.
  unfold findOne. intros H. induction c as [|x c IH]; simpl; [reflexivity|].
  destruct (q x) eqn:Hq; simpl.
  - now rewrite (H x Hq).
  - now rewrite IH.
Qed.

Lemma findOne_updateOne_inv p f c x :
  (forall d, p (f d) = p d) ->
  findOne p (updateOne p f c) = Some x -> exists y, findOne p c = Some y /\ x = f y.
Proof.
  unfold findOne. intros Hf. induction c as [|d c IH]; simpl; [discriminate|].
  destruct (p d) eqn:Hd; simpl.
  - rewrite Hf, Hd. intros [= <-]. now exists d.
  - rewrite Hd. assumption.
Qed.

Lemma findOne_updateOne_cases p q f c x :
  (forall d, q (f d) = q d) ->
  findOne q (updateOne p f c) = Some x ->
  exists y, findOne q c = Some y /\ (x = y \/ x = f y).
Proof.
  unfold findOne. intros Hf. induction c as [|d c IH]; simpl; [discriminate|].
  destruct (p d) eqn:Hd; simpl.
  - rewrite Hf. destruct (q d); [intros [= <-]|intros H]; eauto.
  - destruct (q d); [intros [= <-]|]; eauto.
Qed.

Lemma findOne_updateOne_fwd p q f c y :
  (forall d, q (f d) = q d) ->
  findOne q c = Some y ->
  exists x, findOne q (updateOne p f c) = Some x /\ (x = y \/ x = f y).
Proof.
  unfold findOne. intros Hf. induction c as [|d c IH]; simpl; [discriminate|].
  destruct (p d) eqn:Hd; simpl.
  - rewrite Hf. destruct (q d); [intros [= <-]|intros H]; eauto.
  - destruct (q d); [intros [= <-]|]; eauto.
Qed.



Lemma In_updateOne p f c x :
  In x (updateOne p f c) -> In x c \/ exists y, In y c /\ p y = true /\ x = f y.
Proof.
  induction c as [|d c IH]; simpl; [tauto|].
  destruct (p d) eqn:Hd; simpl.
  - intros [<-|H]; [right; exists d; auto | auto].
  - intros [<-|H]; [auto|]. destruct (IH H) as [|[y [Hy [Hp ->]]]]; [auto|].
    right. exists y. auto.
Qed.

End CollectionFacts.

Lemma ids_updateOne p f c :
  (forall d, t_id (f d) = t_id d) -> map t_id (updateOne p f c) = map t_id c.
Proof.
  intros Hf. induction c as [|d c IH]; simpl; [reflexivity|].
  destruct (p d); simpl; [now rewrite Hf | now rewrite IH].
Qed.

Lemma findOne_deleteOne_unique i c :
  NoDup (map t_id c) -> findOne (tweetIs i) (deleteOne (tweetIs i) c) = None.
Proof.
  unfold findOne, tweetIs. induction c as [|d c IH]; simpl; [reflexivity|].
  intros Hnd. inversion Hnd as [|? ? Hni Hnd']; subst.
  destruct (Nat.eqb_spec (t_id d) i) as [<-|Hne]; simpl.
  - destruct (find _ c) as [x|] eqn:Hx; [|reflexivity].
    apply find_some in Hx. destruct Hx as [Hin Heq]. apply Nat.eqb_eq in Heq.
    exfalso. apply Hni. rewrite <- Heq. now apply in_map.
  - destruct (Nat.eqb_spec (t_id d) i); [contradiction|]. now apply IH.
Qed.

Lemma tweetIs_id i t : tweetIs i t = true <-> t_id t = i.
Proof. apply Nat.eqb_eq. Qed.

Lemma findOne_tweetIs i c t : findOne (tweetIs i) c = Some t -> t_id t = i.
Proof. intros H. apply findOne_Some in H. now apply tweetIs_id. Qed.

(** ** Effects of a handler, step by step *)

Section Effects.
Variable R : World -> World -> Prop.
Hypothesis R_refl : forall w, R w w.
Hypothesis R_trans : forall a b c, R a b -> R b c -> R a c.

Lemma respects_ret {A} (a : A) : respects R (ret a).
Proof. intros w. apply R_refl. Qed.

Lemma respects_send {A} status body : respects R (@send A status body).
Proof. intros w. apply R_refl. Qed.

Lemma respects_throw {A} e : respects R (@throw A e).
Proof. intros w. apply R_refl. Qed.

Lemma respects_bind {A B} (m : M A) (k : A -> M B) :
  respects R m -> (forall a, respects R (k a)) -> respects R (bind m k).
Proof.
  intros Hm Hk w. unfold bind. specialize (Hm w).
  destruct (m w) as [[a|o] w1]; simpl in *; [|assumption].
  eapply R_trans; [eassumption | apply Hk].
Qed.

Lemma respects_when b (m : M unit) : respects R m -> respects R (when b m).
Proof. intros Hm. destruct b; simpl; [assumption | apply respects_ret]. Qed.

Lemma respects_forEach {A} (xs : list A) (body : A -> M unit) :
  (forall x, respects R (body x)) -> respects R (forEach xs body).
Proof.
  intros Hb. induction xs as [|x xs IH]; simpl.
  - apply respects_ret.
  - apply respects_bind; [apply Hb | intros _; exact IH].
Qed.

Lemma respects_handler (m : M Outcome) :
  respects R m -> forall w, R w (snd (handler m w)).
Proof.
  intros Hm w. unfold handler. specialize (Hm w).
  destruct (m w) as [[o|o] w1]; exact Hm.
Qed.

End Effects.

Lemma keeps_refl {X} (proj : World -> X) w : keeps proj w w.
Proof. reflexivity. Qed.

Lemma keeps_trans {X} (proj : World -> X) a b c :
  keeps proj a b -> keeps proj b c -> keeps proj a c.
Proof. unfold keeps. congruence. Qed.

(** Walks through the control structure of a handler, trying [tac] first at
    every node and leaving one goal per model method. *)
Ltac walk_with tac Rrefl Rtrans :=
  repeat first
    [ tac
    | apply (respects_ret _ Rrefl)
    | apply (respects_send _ Rrefl)
    | apply (respects_throw _ Rrefl)
    | apply (respects_bind _ Rtrans)
    | apply (respects_when _ Rrefl)
    | apply (respects_forEach _ Rrefl Rtrans)
    | match goal with
      | |- forall _, _ => intro
      | |- respects _ (match ?x with _ => _ end) => destruct x
      | |- respects _ (let _ := _ in _) => cbv zeta
      end ].

Ltac walk Rrefl Rtrans := walk_with fail Rrefl Rtrans.

(** A model method that does not write the field [proj]. *)
Ltac untouched :=
  let w := fresh "w" in
  intro w; unfold keeps;
  cbv [User_findById User_save User_find_usernameIn Tweet_findById Tweet_create Tweet_save
       Tweet_findByIdAndUpdate Tweet_deleteOne Tweet_remove Notification_create
       Notification_deleteMany Trending_findOneAndUpdate cloudinary_upload cloudinary_destroy
       Tweet_findById_populated];
  repeat match goal with
         | |- context [match ?x with _ => _ end] => destruct x
         end;
  reflexivity.

(** Unfolds the monad and the model methods, leaving the tests of the handler. *)
Ltac exec :=
  cbv beta iota zeta delta
    [handler bind ret send throw when
     User_findById User_save User_find_usernameIn Tweet_findById Tweet_create Tweet_save
     Tweet_findByIdAndUpdate Tweet_deleteOne Tweet_remove Notification_create
     Notification_deleteMany Trending_findOneAndUpdate cloudinary_upload cloudinary_destroy
     Tweet_findById_populated].

(** The first step of a sequence decides how it goes on. *)
Lemma bind_Go {A B} (m : M A) (k : A -> M B) w a w1 :
  m w = (Go a, w1) -> bind m k w = k a w1.
Proof. intros H. unfold bind. now rewrite H. Qed.

Lemma bind_Stop {A B} (m : M A) (k : A -> M B) w o w1 :
  m w = (Stop o, w1) -> bind m k w = (Stop o, w1).
Proof. intros H. unfold bind. now rewrite H. Qed.

(** ** Consistency of the tweets collection

    The handlers keep the collection [consistent] as long as notification
    creation answers.  What they keep whatever fails is [settled], further
    down: the condition of the toggle statements. *)

(** *** Retweet shells *)

Lemma isShellOf_spec a p d :
  isShellOf a p d = true <-> isRetweet d = true /\ originalTweet d = Some p /\ author d = a.
Proof.
  unfold isShellOf. destruct (isRetweet d); simpl; [|intuition discriminate].
  destruct (originalTweet d) as [o|]; simpl; [|intuition discriminate].
  rewrite andb_true_iff, !Nat.eqb_eq. intuition congruence.
Qed.

Lemma shells_app a p c d :
  shells a p (c ++ [d]) = shells a p c + (if isShellOf a p d then 1 else 0).
Proof.
  unfold shells. rewrite filter_app, length_app. simpl.
  now destruct (isShellOf a p d).
Qed.

Lemma shells_updateOne a p q f c :
  (forall d, isShellOf a p (f d) = isShellOf a p d) ->
  shells a p (updateOne q f c) = shells a p c.
Proof.
  intros Hf. unfold shells. induction c as [|d c IH]; simpl; [reflexivity|].
  destruct (q d); simpl.
  - rewrite Hf. now destruct (isShellOf a p d).
  - destruct (isShellOf a p d); simpl; now rewrite IH.
Qed.

Lemma shells_zero a p c :
  shells a p c = 0 <-> forall d, In d c -> isShellOf a p d = false.
Proof.
  unfold shells. induction c as [|d c IH]; simpl.
  - split; [intros _ x [] | reflexivity].
  - destruct (isShellOf a p d) eqn:Hd; simpl.
    + split; [discriminate|]. intros H. rewrite (H d) in Hd by auto. discriminate.
    + rewrite IH. split.
      * intros H x [<-|Hx]; auto.
      * intros H x Hx. apply H. now right.
Qed.

Lemma shells_pos a p c d : In d c -> isShellOf a p d = true -> 0 < shells a p c.
Proof.
  intros Hin Hd. destruct (shells a p c) eqn:Hs; [|lia].
  rewrite shells_zero in Hs. rewrite (Hs d Hin) in Hd. discriminate.
Qed.

(** Deleting the first document that satisfies [q]: the count goes down by
    one when that document is a shell of the pair, and stays otherwise. *)
Lemma shells_deleteOne a p q c :
  shells a p (deleteOne q c)
  = shells a p c - match findOne q c with
                   | Some d => if isShellOf a p d then 1 else 0
                   | None => 0
                   end.
Proof.
  induction c as [|d c IH]; [reflexivity|].
  unfold findOne in *. simpl. destruct (q d) eqn:Hq.
  - unfold shells. simpl. destruct (isShellOf a p d); simpl; lia.
  - change (shells a p (d :: deleteOne q c)
            = shells a p (d :: c) - match find q c with
                                    | Some d => if isShellOf a p d then 1 else 0
                                    | None => 0
                                    end).
    assert (Hcons : forall l, shells a p (d :: l)
                              = (if isShellOf a p d then 1 else 0) + shells a p l).
    { intros l. unfold shells. simpl. now destruct (isShellOf a p d). }
    rewrite !Hcons, IH.
    destruct (find q c) as [x|] eqn:Hx; [|lia].
    destruct (isShellOf a p x) eqn:Hsx; [|lia].
    apply find_some in Hx. pose proof (shells_pos a p c x (proj1 Hx) Hsx).
    destruct (isShellOf a p d); lia.
Qed.

(** *** Unique ids *)

Lemma findOne_unique c t :
  NoDup (map t_id c) -> In t c -> findOne (tweetIs (t_id t)) c = Some t.
Proof.
  unfold findOne, tweetIs. induction c as [|d c IH]; simpl; [tauto|].
  intros Hnd. inversion Hnd as [|? ? Hni Hnd']; subst. intros [->|Hin].
  - now rewrite Nat.eqb_refl.
  - destruct (Nat.eqb_spec (t_id d) (t_id t)) as [Heq|_]; [|now apply IH].
    exfalso. apply Hni. rewrite Heq. now apply in_map.
Qed.

Lemma In_updateOne_unique p f c x :
  NoDup (map t_id c) ->
  In x (updateOne (tweetIs p) f c) ->
  (exists y, findOne (tweetIs p) c = Some y /\ x = f y) \/ (In x c /\ t_id x <> p).
Proof.
  unfold findOne, tweetIs. induction c as [|d c IH]; simpl; [tauto|].
  intros Hnd. inversion Hnd as [|? ? Hni Hnd']; subst.
  destruct (Nat.eqb_spec (t_id d) p) as [Heq|Hne]; simpl.
  - intros [<-|Hin]; [left; now exists d|]. right. split; [now right|].
    intros Hx. apply Hni. rewrite Heq, <- Hx. now apply in_map.
  - intros [<-|Hin]; [right; split; [now left | assumption]|].
    destruct (IH Hnd' Hin) as [?|[? ?]]; [now left | right; split; [now right | assumption]].
Qed.

Lemma In_deleteOne_found (q : Tweet -> bool) c s x :
  NoDup (map t_id c) -> findOne q c = Some s ->
  (In x (deleteOne q c) <-> In x c /\ t_id x <> t_id s).
Proof.
  unfold findOne. induction c as [|d c IH]; simpl; [discriminate|].
  intros Hnd. inversion Hnd as [|? ? Hni Hnd']; subst.
  destruct (q d) eqn:Hq.
  - intros [= ->]. split.
    + intros Hin. split; [now right|]. intros Heq. apply Hni. rewrite <- Heq. now apply in_map.
    + intros [[<-|Hin] Hne]; [congruence | assumption].
  - intros Hs. simpl. rewrite (IH Hnd' Hs). split.
    + intros [<-|[Hin Hne]]; [|split; [now right | assumption]].
      split; [now left|]. intros Heq. apply Hni. rewrite Heq.
      apply in_map. now apply find_some in Hs.
    + intros [[<-|Hin] Hne]; [now left | right; now split].
Qed.

Lemma ids_deleteOne (q : Tweet -> bool) c :
  NoDup (map t_id c) -> NoDup (map t_id (deleteOne q c)).
Proof.
  induction c as [|d c IH]; simpl; [trivial|].
  intros Hnd. inversion Hnd as [|? ? Hni Hnd']; subst.
  destruct (q d); simpl; [assumption|]. constructor; [|now apply IH].
  intros Hin. apply Hni. apply in_map_iff in Hin. destruct Hin as [x [Hx Hin]].
  rewrite <- Hx. apply in_map. now apply In_deleteOne in Hin.
Qed.

Lemma updateOne_const (q : Tweet -> bool) (g : Tweet -> Tweet) c t :
  findOne q c = Some t -> updateOne q (fun _ => g t) c = updateOne q g c.
Proof.
  unfold findOne. induction c as [|d c IH]; simpl; [discriminate|].
  destruct (q d); [now intros [= ->] | intros H; now rewrite IH].
Qed.

Lemma ids_save p x c :
  t_id x = p -> map t_id (updateOne (tweetIs p) (fun _ => x) c) = map t_id c.
Proof.
  intros Hx. unfold tweetIs. induction c as [|d c IH]; simpl; [reflexivity|].
  destruct (Nat.eqb_spec (t_id d) p); simpl; [congruence | now rewrite IH].
Qed.

(** *** Transitions of the collection *)

Lemma sameShape_isShellOf f a p d : sameShape f -> isShellOf a p (f d) = isShellOf a p d.
Proof.
  intros Hf. destruct (Hf d) as [_ [H1 [H2 [H3 _]]]]. unfold isShellOf. now rewrite H1, H2, H3.
Qed.

Lemma tweetsOk_bump n n' c : tweetsOk n c -> n <= n' -> tweetsOk n' c.
Proof.
  intros [H1 H2 H3 H4 H5] Hle. constructor; trivial.
  intros t Ht. specialize (H1 t Ht). lia.
Qed.

Lemma tweetsOk_updateOne n c q f :
  tweetsOk n c -> sameShape f -> (forall d, stored d -> stored (f d)) ->
  tweetsOk n (updateOne q f c).
Proof.
  intros [H1 H2 H3 H4 H5] Hf Hs.
  assert (Hfrom : forall x, In x (updateOne q f c) ->
            exists y, In y c /\ (x = y \/ x = f y)).
  { intros x Hx. apply In_updateOne in Hx. destruct Hx as [Hx|[y [Hy [_ ->]]]]; eauto. }
  constructor.
  - intros x Hx. destruct (Hfrom x Hx) as [y [Hy [->| ->]]]; [now apply H1|].
    destruct (Hf y) as [-> _]. now apply H1.
  - rewrite ids_updateOne; [assumption|]. intros d. apply Hf.
  - intros x Hx. destruct (Hfrom x Hx) as [y [Hy [->| ->]]]; auto.
  - intros x o Hx. destruct (Hfrom x Hx) as [y [Hy [->| ->]]]; [now apply H4|].
    destruct (Hf y) as [-> [_ [-> _]]]. now apply H4.
  - intros a x Hx. rewrite shells_updateOne by (intros d; now apply sameShape_isShellOf).
    destruct (Hfrom x Hx) as [y [Hy [->| ->]]]; [now apply H5|].
    destruct (Hf y) as [-> [_ [_ [_ ->]]]]. now apply H5.
Qed.

(** No shell points at an ObjectId that has not been drawn yet. *)
Lemma shells_undrawn n c a i : tweetsOk n c -> n <= i -> shells a i c = 0.
Proof.
  intros [H1 _ _ H4 _] Hle. apply shells_zero. intros d Hd.
  destruct (isShellOf a i d) eqn:Hs; [|reflexivity].
  apply isShellOf_spec in Hs. destruct Hs as [_ [Ho _]].
  specialize (H4 d i Hd Ho). specialize (H1 d Hd). lia.
Qed.

(** Appending a new post that is not a shell and that nobody liked or
    retweeted yet. *)
Lemma tweetsOk_append n c d :
  tweetsOk n c -> t_id d = n -> stored d -> isRetweet d = false ->
  originalTweet d = None -> retweets d = [] ->
  tweetsOk (S n) (c ++ [d]).
Proof.
  intros Hok Hid Hst Hrt Hor Hre. pose proof Hok as [H1 H2 H3 H4 H5].
  assert (Hd : forall a p, isShellOf a p d = false).
  { intros a p. unfold isShellOf. now rewrite Hrt. }
  constructor.
  - intros x Hx. apply in_app_or in Hx. destruct Hx as [Hx|[<-|[]]]; [|lia].
    specialize (H1 x Hx). lia.
  - rewrite map_app. simpl. apply NoDup_push; [assumption|].
    intros Hin. apply in_map_iff in Hin. destruct Hin as [x [Hx Hin]].
    specialize (H1 x Hin). lia.
  - intros x Hx. apply in_app_or in Hx. destruct Hx as [Hx|[<-|[]]]; auto.
  - intros x o Hx. apply in_app_or in Hx. destruct Hx as [Hx|[<-|[]]]; [now apply H4|].
    congruence.
  - intros a x Hx. rewrite shells_app, Hd, Nat.add_0_r.
    apply in_app_or in Hx. destruct Hx as [Hx|[<-|[]]]; [now apply H5|].
    rewrite Hre, Hid. simpl. apply (shells_undrawn n c a n Hok). lia.
Qed.

Lemma includes_push_other a b l : b <> a -> includes b (l ++ [a]) = includes b l.
Proof.
  intros Hne. unfold includes. rewrite existsb_app. simpl.
  destruct (Nat.eqb_spec b a); [contradiction|]. now rewrite !orb_false_r.
Qed.

Lemma includes_without_other a b l : b <> a -> includes b (without a l) = includes b l.
Proof.
  intros Hne. destruct (includes b l) eqn:H.
  - apply includes_In. apply includes_In in H. rewrite In_without. auto.
  - apply includes_false. apply includes_false in H. rewrite In_without. tauto.
Qed.

Lemma shells_find a p c :
  0 < shells a p c -> exists s, findOne (isShellOf a p) c = Some s.
Proof.
  intros Hpos. destruct (findOne (isShellOf a p) c) as [s|] eqn:Hs; [now exists s|].
  assert (shells a p c = 0); [|lia].
  apply shells_zero. now apply findOne_None.
Qed.

Lemma stored_preSave_retweets l t : stored t -> NoDup l -> stored (preSave (set_retweets l t)).
Proof. intros [H1 H2 H3 H4 H5] Hl. constructor; try assumption; reflexivity. Qed.

Lemma stored_shell n a t : stored t -> stored (shellFor n a t).
Proof.
  intros [H1 H2 H3 H4 H5]. unfold shellFor. constructor; simpl.
  - now rewrite H2.
  - now rewrite trim_idempotent.
  - reflexivity.
  - constructor.
  - constructor.
Qed.

(** The add transition of [retweetTweet] on the collection. *)
Lemma tweetsOk_retweet_add n c t a :
  tweetsOk n c -> In t c -> includes a (retweets t) = false ->
  tweetsOk (S n)
    (updateOne (tweetIs (t_id t)) (fun _ => preSave (set_retweets (retweets t ++ [a]) t)) c
     ++ [shellFor n a t]).
Proof.
  intros Hok Ht Hout. pose proof Hok as [H1 H2 H3 H4 H5].
  set (p := t_id t). set (t1 := preSave (set_retweets (retweets t ++ [a]) t)).
  set (s := shellFor n a t).
  pose proof (findOne_unique c t H2 Ht) as Hfind. fold p in Hfind.
  assert (Hp : p < n) by (apply H1; exact Ht).
  assert (Hfrom : forall x, In x (updateOne (tweetIs p) (fun _ => t1) c) ->
                            x = t1 \/ (In x c /\ t_id x <> p)).
  { intros x Hx. apply In_updateOne_unique in Hx; [|assumption].
    destruct Hx as [[y [_ ->]]|Hx]; auto. }
  assert (Hshell : forall b q, isShellOf b q s = (q =? p)%nat && (a =? b)%nat).
  { intros b q. unfold isShellOf, s, shellFor. simpl. fold p.
    now rewrite (Nat.eqb_sym p q). }
  assert (Hcount : forall b q, shells b q (updateOne (tweetIs p) (fun _ => t1) c) = shells b q c).
  { intros b q. unfold t1.
    rewrite (updateOne_const _ (fun d => preSave (set_retweets (retweets t ++ [a]) d)) c t Hfind).
    now apply shells_updateOne. }
  assert (Hst1 : stored t1).
  { apply stored_preSave_retweets; [now apply H3|].
    apply NoDup_push; [apply (H3 t Ht) | now apply includes_false]. }
  constructor.
  - intros x Hx. apply in_app_or in Hx. destruct Hx as [Hx|[<-|[]]]; [|simpl; lia].
    destruct (Hfrom x Hx) as [->|[Hin _]]; [simpl; fold p; lia|].
    specialize (H1 x Hin). lia.
  - rewrite map_app, ids_save by reflexivity.
    simpl. apply NoDup_push; [assumption|].
    intros Hin. apply in_map_iff in Hin. destruct Hin as [x [Hx Hin]].
    specialize (H1 x Hin). lia.
  - intros x Hx. apply in_app_or in Hx. destruct Hx as [Hx|[<-|[]]].
    + destruct (Hfrom x Hx) as [->|[Hin _]]; auto.
    + apply stored_shell. now apply H3.
  - intros x o Hx Ho. apply in_app_or in Hx. destruct Hx as [Hx|[<-|[]]].
    + destruct (Hfrom x Hx) as [->|[Hin _]]; [|now apply H4].
      simpl in *. now apply (H4 t).
    + simpl in *. injection Ho as <-. exact Hp.
  - intros b x Hx. rewrite shells_app, Hcount, Hshell.
    apply in_app_or in Hx. destruct Hx as [Hx|[<-|[]]].
    + destruct (Hfrom x Hx) as [->|[Hin Hne]].
      * simpl. fold p. rewrite Nat.eqb_refl. simpl.
        rewrite (H5 b t Ht : shells b p c = _).
        destruct (Nat.eqb_spec a b) as [<-|Hab].
        -- now rewrite Hout, includes_push.
        -- rewrite includes_push_other by congruence. destruct (includes b (retweets t)); lia.
      * destruct (Nat.eqb_spec (t_id x) p); [contradiction|]. simpl.
        rewrite Nat.add_0_r. now apply H5.
    + simpl. destruct (Nat.eqb_spec n p); [lia|]. simpl.
      rewrite Nat.add_0_r. apply (shells_undrawn n c b n Hok). lia.
Qed.

(** The remove transition of [retweetTweet] on the collection. *)
Lemma tweetsOk_retweet_remove n c t a :
  tweetsOk n c -> In t c -> includes a (retweets t) = true ->
  tweetsOk n
    (updateOne (tweetIs (t_id t)) (fun _ => preSave (set_retweets (without a (retweets t)) t))
       (deleteOne (isShellOf a (t_id t)) c)).
Proof.
  intros Hok Ht Hin. pose proof Hok as [H1 H2 H3 H4 H5].
  set (p := t_id t). set (t2 := preSave (set_retweets (without a (retweets t)) t)).
  set (c0 := deleteOne (isShellOf a p) c).
  assert (Hone : shells a p c = 1).
  { unfold p. rewrite (H5 a t Ht). now rewrite Hin. }
  destruct (shells_find a p c) as [s Hs]; [lia|].
  pose proof (findOne_Some _ _ _ Hs) as [Hsc Hsh].
  pose proof (proj1 (isShellOf_spec a p s) Hsh) as [Hrt [Hor Hau]].
  assert (Hps : p < t_id s) by (now apply (H4 s p)).
  assert (Hin0 : forall x, In x c0 <-> In x c /\ t_id x <> t_id s).
  { intros x. now apply In_deleteOne_found. }
  assert (Ht0 : In t c0) by (apply Hin0; split; [assumption | fold p; lia]).
  assert (Hnd0 : NoDup (map t_id c0)) by now apply ids_deleteOne.
  pose proof (findOne_unique c0 t Hnd0 Ht0) as Hfind. fold p in Hfind.
  assert (Hfrom : forall x, In x (updateOne (tweetIs p) (fun _ => t2) c0) ->
                            x = t2 \/ (In x c /\ t_id x <> p)).
  { intros x Hx. apply In_updateOne_unique in Hx; [|assumption].
    destruct Hx as [[y [_ ->]]|[Hx Hne]]; [now left|]. right. split; [|assumption].
    now apply Hin0 in Hx. }
  assert (Hcount : forall b q,
             shells b q (updateOne (tweetIs p) (fun _ => t2) c0)
             = shells b q c - (if isShellOf b q s then 1 else 0)).
  { intros b q. unfold t2.
    rewrite (updateOne_const _ (fun d => preSave (set_retweets (without a (retweets t)) d)) c0 t Hfind).
    rewrite shells_updateOne by reflexivity. unfold c0.
    now rewrite shells_deleteOne, Hs. }
  assert (Hother : forall b q, (q <> p \/ b <> a) -> isShellOf b q s = false).
  { intros b q Hne. destruct (isShellOf b q s) eqn:Hb; [|reflexivity].
    apply isShellOf_spec in Hb. destruct Hb as [_ [Hq Hb]].
    rewrite Hor in Hq. injection Hq as <-. destruct Hne; congruence. }
  constructor.
  - intros x Hx. destruct (Hfrom x Hx) as [->|[Hxc _]]; [simpl; now apply H1 | now apply H1].
  - now rewrite ids_save by reflexivity.
  - intros x Hx. destruct (Hfrom x Hx) as [->|[Hxc _]]; [|now apply H3].
    apply stored_preSave_retweets; [now apply H3|]. apply NoDup_without, (H3 t Ht).
  - intros x o Hx Ho. destruct (Hfrom x Hx) as [->|[Hxc _]]; [|now apply H4].
    simpl in *. now apply (H4 t).
  - intros b x Hx. rewrite Hcount. destruct (Hfrom x Hx) as [->|[Hxc Hne]].
    + simpl. fold p. rewrite (H5 b t Ht : shells b p c = _).
      destruct (Nat.eq_dec b a) as [->|Hba].
      * rewrite Hsh, Hin, includes_without. reflexivity.
      * rewrite Hother by auto. rewrite includes_without_other by assumption.
        destruct (includes b (retweets t)); reflexivity.
    + rewrite Hother by auto. rewrite Nat.sub_0_r. now apply H5.
Qed.

Lemma tweetsOk_delete_plain n c t :
  tweetsOk n c -> In t c -> (forall a p, isShellOf a p t = false) ->
  tweetsOk n (deleteOne (tweetIs (t_id t)) c).
Proof.
  intros Hok Ht Hplain. pose proof Hok as [H1 H2 H3 H4 H5].
  pose proof (findOne_unique c t H2 Ht) as Hfind.
  assert (Hin0 : forall x, In x (deleteOne (tweetIs (t_id t)) c) -> In x c).
  { intros x. apply In_deleteOne. }
  constructor; auto.
  - now apply ids_deleteOne.
  - intros a x Hx. rewrite shells_deleteOne, Hfind, Hplain, Nat.sub_0_r. auto.
Qed.

Lemma tweetsOk_delete_shell n c t o :
  tweetsOk n c -> In t c -> isRetweet t = true -> originalTweet t = Some o ->
  tweetsOk n
    (deleteOne (tweetIs (t_id t))
       (updateOne (tweetIs o) (fun d => set_retweets (without (author t) (retweets d)) d) c)).
Proof.
  intros Hok Ht Hrt Hor. pose proof Hok as [H1 H2 H3 H4 H5].
  remember (author t) as me eqn:Hme. set (i := t_id t).
  set (pull := fun d => set_retweets (without me (retweets d)) d).
  set (c1 := updateOne (tweetIs o) pull c).
  assert (Hoi : o < i) by (now apply (H4 t o)).
  assert (Hsh : isShellOf me o t = true) by (apply isShellOf_spec; auto).
  assert (Hfind1 : findOne (tweetIs i) c1 = Some t).
  { unfold c1. rewrite findOne_updateOne_miss; [now apply findOne_unique|].
    intros d Hd. apply tweetIs_id in Hd. unfold tweetIs. simpl. rewrite Hd.
    split; apply Nat.eqb_neq; lia. }
  assert (Hnd1 : NoDup (map t_id c1)) by (unfold c1; now rewrite ids_updateOne).
  assert (Hin1 : forall x, In x (deleteOne (tweetIs i) c1) <-> In x c1 /\ t_id x <> i).
  { intros x. now apply In_deleteOne_found. }
  assert (Hfrom : forall x, In x c1 ->
             (exists y, In y c /\ t_id y = o /\ x = pull y) \/ (In x c /\ t_id x <> o)).
  { intros x Hx. apply In_updateOne_unique in Hx; [|assumption].
    destruct Hx as [[y [Hy ->]]|Hx]; [left; exists y|now right].
    apply findOne_Some in Hy. destruct Hy as [Hy Hyo]. apply tweetIs_id in Hyo. auto. }
  assert (Hcount : forall b q,
             shells b q (deleteOne (tweetIs i) c1)
             = shells b q c - (if isShellOf b q t then 1 else 0)).
  { intros b q. rewrite shells_deleteOne, Hfind1. unfold c1.
    now rewrite shells_updateOne by reflexivity. }
  assert (Hother : forall b q, (q <> o \/ b <> me) -> isShellOf b q t = false).
  { intros b q Hne. destruct (isShellOf b q t) eqn:Hb; [|reflexivity].
    apply isShellOf_spec in Hb. destruct Hb as [_ [Hq Hb]].
    rewrite Hor in Hq. injection Hq as <-. destruct Hne; congruence. }
  constructor.
  - intros x Hx. apply Hin1 in Hx. destruct Hx as [Hx _].
    destruct (Hfrom x Hx) as [[y [Hy [_ ->]]]|[Hxc _]]; [simpl; now apply H1 | now apply H1].
  - now apply ids_deleteOne.
  - intros x Hx. apply Hin1 in Hx. destruct Hx as [Hx _].
    destruct (Hfrom x Hx) as [[y [Hy [_ ->]]]|[Hxc _]]; [|now apply H3].
    destruct (H3 y Hy) as [S1 S2 S3 S4 S5]. constructor; simpl; try assumption.
    + change (preSave (pull y)) with (set_retweets (without me (retweets y)) (preSave y)).
      now rewrite S3.
    + now apply NoDup_without.
  - intros x p Hx Hp. apply Hin1 in Hx. destruct Hx as [Hx _].
    destruct (Hfrom x Hx) as [[y [Hy [_ ->]]]|[Hxc _]]; [|now apply H4].
    simpl in *. now apply (H4 y).
  - intros b x Hx. rewrite Hcount. apply Hin1 in Hx. destruct Hx as [Hx Hxi].
    destruct (Hfrom x Hx) as [[y [Hy [Hyo ->]]]|[Hxc Hxo]].
    + simpl. rewrite Hyo. pose proof (H5 b y Hy) as Hy5. rewrite Hyo in Hy5. rewrite Hy5.
      destruct (Nat.eq_dec b me) as [->|Hb].
      * rewrite Hsh, includes_without.
        destruct (includes me (retweets y)); reflexivity.
      * rewrite Hother by auto. rewrite includes_without_other by assumption.
        destruct (includes b (retweets y)); reflexivity.
    + rewrite Hother by auto. rewrite Nat.sub_0_r. now apply H5.
Qed.

(** *** The handlers *)

Lemma sound_refl w : sound w w.
Proof. intros H. exact H. Qed.

Lemma sound_trans a b c : sound a b -> sound b c -> sound a c.
Proof. unfold sound. auto. Qed.

Lemma quiet_sound w w' : quiet w w' -> sound w w'.
Proof.
  intros [Ht Hn] Hc. unfold consistent. rewrite Ht. now apply (tweetsOk_bump (next_oid w)).
Qed.

(** A model method that leaves the tweets alone. *)
Ltac hush :=
  let w := fresh "w" in
  intro w; apply quiet_sound; unfold quiet;
  cbv [User_findById User_save User_find_usernameIn Tweet_findById
       Notification_create Notification_deleteMany Trending_findOneAndUpdate
       cloudinary_upload cloudinary_destroy Tweet_findById_populated];
  repeat match goal with
         | |- context [match ?x with _ => _ end] => destruct x
         end;
  simpl; split; solve [reflexivity | lia].

Ltac sound_walk tac := walk_with tac sound_refl sound_trans; try hush.

Lemma followUser_sound env me id : respects sound (followUser env me id).
Proof. unfold followUser. sound_walk fail. Qed.

Lemma unfollowUser_sound me id : respects sound (unfollowUser me id).
Proof. unfold unfollowUser. sound_walk fail. Qed.

Lemma stored_created i text0 a img p rp :
  validateText (Js.trim text0) = [] ->
  stored (preSave (mkTweet i (Js.trim text0) a img [] [] [] p false rp None [] [])).
Proof.
  intros Hv. constructor; simpl; try assumption; try constructor.
  apply trim_idempotent.
Qed.

(** [Tweet.create] of a post that is not a retweet. *)
Lemma Tweet_create_plain_sound text0 a img p rp :
  respects sound (Tweet_create (mkTweet 0 text0 a img [] [] [] p false rp None [] [])).
Proof.
  intros w Hc. unfold Tweet_create. simpl.
  destruct (validateText (Js.trim text0)) eqn:Hv; [|exact Hc].
  unfold consistent. simpl. apply tweetsOk_append; try reflexivity; [exact Hc|].
  now apply stored_created.
Qed.

Lemma createTweet_sound env me text0 file : respects sound (createTweet env me text0 file).
Proof.
  unfold createTweet.
  sound_walk ltac:(apply Tweet_create_plain_sound).
Qed.

Lemma sameShape_save_likes l : sameShape (fun d => preSave (set_likes l d)).
Proof. intros d. repeat split. Qed.

Lemma sameShape_save_replies l : sameShape (fun d => preSave (set_replies l d)).
Proof. intros d. repeat split. Qed.

Lemma sameShape_pull_replies i : sameShape (fun d => set_replies (without i (replies d)) d).
Proof. intros d. repeat split. Qed.

Lemma stored_save_likes l d : NoDup l -> stored d -> stored (preSave (set_likes l d)).
Proof. intros Hl [H1 H2 H3 H4 H5]. constructor; try assumption; reflexivity. Qed.

Lemma stored_save_replies l d : stored d -> stored (preSave (set_replies l d)).
Proof. intros [H1 H2 H3 H4 H5]. constructor; try assumption; reflexivity. Qed.

Lemma stored_pull_replies i d : stored d -> stored (set_replies (without i (replies d)) d).
Proof.
  intros [H1 H2 H3 H4 H5]. constructor; try assumption.
  change (preSave (set_replies (without i (replies d)) d))
    with (set_replies (without i (replies d)) (preSave d)).
  now rewrite H3.
Qed.

(** [tweet.save()] of a loaded post after a change of its likes. *)
Lemma tweetsOk_save_likes n c t l :
  tweetsOk n c -> findOne (tweetIs (t_id t)) c = Some t -> NoDup l ->
  tweetsOk n (updateOne (tweetIs (t_id t)) (fun _ => preSave (set_likes l t)) c).
Proof.
  intros Hok Hfind Hl.
  rewrite (updateOne_const _ (fun d => preSave (set_likes l d)) c t Hfind).
  apply tweetsOk_updateOne; [assumption | apply sameShape_save_likes |].
  intros d. now apply stored_save_likes.
Qed.

Lemma likeTweet_sound env me id : respects sound (likeTweet env me id).
Proof.
  intros w Hc. unfold likeTweet. exec.
  destruct (findOne (tweetIs id) (tweets w)) as [t|] eqn:Hfind; [|exact Hc].
  pose proof (findOne_tweetIs _ _ _ Hfind) as Hid. subst id.
  pose proof (findOne_Some _ _ _ Hfind) as [Ht _].
  pose proof (all_stored _ _ Hc t Ht) as Hst.
  pose proof (text_valid _ Hst) as Hval.
  assert (Hsave : forall l n, NoDup l -> next_oid w <= n ->
            tweetsOk n (updateOne (tweetIs (t_id t)) (fun _ => preSave (set_likes l t)) (tweets w))).
  { intros l n Hl Hn. apply (tweetsOk_bump (next_oid w)); [|exact Hn].
    now apply tweetsOk_save_likes. }
  destruct (includes me (likes t)) eqn:Hin; simpl.
  - rewrite Hval. unfold consistent. simpl. apply Hsave; [|lia].
    apply NoDup_without, (likes_nodup _ Hst).
  - assert (Hl : NoDup (likes t ++ [me])).
    { apply NoDup_push; [apply (likes_nodup _ Hst) | now apply includes_false]. }
    destruct (negb (author t =? me)%nat); simpl.
    + destruct (notification_ok env _); simpl; [|exact Hc].
      rewrite Hval. unfold consistent. simpl. apply Hsave; [assumption | lia].
    + rewrite Hval. unfold consistent. simpl. apply Hsave; [assumption | lia].
Qed.

Lemma replyToTweet_sound env me id text0 : respects sound (replyToTweet env me id text0).
Proof.
  intros w Hc. unfold replyToTweet.
  destruct (negb (Js.truthy text0)); [exact Hc|]. exec.
  destruct (findOne (tweetIs id) (tweets w)) as [t|] eqn:Hfind; [|exact Hc].
  pose proof (findOne_tweetIs _ _ _ Hfind) as Hid. subst id.
  pose proof (findOne_Some _ _ _ Hfind) as [Ht _].
  pose proof (all_stored _ _ Hc t Ht) as Hst.
  pose proof (text_valid _ Hst) as Hval. simpl.
  destruct (validateText (Js.trim (Js.orEmpty text0))) eqn:Hv; simpl; [|exact Hc].
  rewrite Hval. simpl.
  set (r := preSave (mkTweet (next_oid w) (Js.trim (Js.orEmpty text0)) me None [] [] []
                       (Some (t_id t)) false true None [] [])).
  assert (Hok1 : tweetsOk (S (next_oid w)) (tweets w ++ [r])).
  { apply tweetsOk_append; try reflexivity; [exact Hc|]. now apply stored_created. }
  assert (Hfind1 : findOne (tweetIs (t_id t)) (tweets w ++ [r]) = Some t).
  { now rewrite findOne_push, Hfind. }
  assert (Hok2 : forall n, S (next_oid w) <= n ->
            tweetsOk n (updateOne (tweetIs (t_id t))
                          (fun _ => preSave (set_replies (replies t ++ [next_oid w]) t))
                          (tweets w ++ [r]))).
  { intros n Hn. apply (tweetsOk_bump (S (next_oid w))); [|exact Hn].
    rewrite (updateOne_const _ (fun d => preSave (set_replies (replies t ++ [next_oid w]) d))
               _ t Hfind1).
    apply tweetsOk_updateOne; [assumption | apply sameShape_save_replies |].
    intros d. apply stored_save_replies. }
  destruct (negb (author t =? me)%nat); simpl.
  - destruct (notification_ok env _); simpl.
    + match goal with
      | |- context [findOne (tweetIs (next_oid w)) ?c] =>
          destruct (findOne (tweetIs (next_oid w)) c) as [[]|]
      end; unfold consistent; simpl; apply Hok2; lia.
    + unfold consistent. simpl. apply Hok2; lia.
  - match goal with
    | |- context [findOne (tweetIs (next_oid w)) ?c] =>
        destruct (findOne (tweetIs (next_oid w)) c) as [[]|]
    end; unfold consistent; simpl; apply Hok2; lia.
Qed.

Lemma retweetTweet_sound env me id :
  (forall n, notification_ok env n = true) -> respects sound (retweetTweet env me id).
Proof.
  intros Hok w Hc. unfold retweetTweet. exec.
  destruct (findOne (tweetIs id) (tweets w)) as [t|] eqn:Hfind; [|exact Hc].
  pose proof (findOne_tweetIs _ _ _ Hfind) as Hid. subst id.
  pose proof (findOne_Some _ _ _ Hfind) as [Ht _].
  pose proof (all_stored _ _ Hc t Ht) as Hst.
  pose proof (text_valid _ Hst) as Hval. pose proof (text_trimmed _ Hst) as Htrim.
  destruct (includes me (retweets t)) eqn:Hin; simpl.
  - rewrite Hval. unfold consistent. simpl.
    now apply (tweetsOk_retweet_remove (next_oid w) (tweets w) t me).
  - rewrite Htrim, Hval. simpl.
    assert (Hadd : forall n, S (next_oid w) <= n ->
              tweetsOk n
                (updateOne (tweetIs (t_id t))
                   (fun _ => preSave (set_retweets (retweets t ++ [me]) t))
                   (tweets w ++ [shellFor (next_oid w) me t]))).
    { intros n Hn. apply (tweetsOk_bump (S (next_oid w))); [|exact Hn].
      rewrite updateOne_push by (exists t; now apply findOne_Some).
      now apply tweetsOk_retweet_add. }
    unfold shellFor in Hadd. rewrite Htrim in Hadd.
    destruct (negb (author t =? me)%nat); simpl; rewrite ?Hok; simpl;
      rewrite Hval; unfold consistent; simpl; apply Hadd; lia.
Qed.

Lemma In_updateOne_fwd {D} (q : D -> bool) (f : D -> D) c t :
  In t c -> In t (updateOne q f c) \/ In (f t) (updateOne q f c).
Proof.
  induction c as [|d c IH]; simpl; [tauto|].
  intros [<-|Hin]; destruct (q d) eqn:Hq; simpl; auto.
  destruct (IH Hin); auto.
Qed.

(** The cascade of [deleteTweet] on the collection: the pull from the
    parent's replies, the pull from the original's retweets, the removal. *)
Lemma tweetsOk_cascade n c t :
  tweetsOk n c -> In t c ->
  let c1 := match parentTweet t with
            | Some p =>
                if isReply t
                then updateOne (tweetIs p) (fun d => set_replies (without (t_id t) (replies d)) d) c
                else c
            | None => c
            end in
  let c2 := match originalTweet t with
            | Some o =>
                if isRetweet t
                then updateOne (tweetIs o)
                       (fun d => set_retweets (without (author t) (retweets d)) d) c1
                else c1
            | None => c1
            end in
  tweetsOk n (deleteOne (tweetIs (t_id t)) c2).
Proof.
  intros Hok Ht c1 c2.
  assert (H1 : tweetsOk n c1 /\
               exists t1, In t1 c1 /\ t_id t1 = t_id t /\ isRetweet t1 = isRetweet t
                          /\ originalTweet t1 = originalTweet t /\ author t1 = author t).
  { unfold c1. destruct (parentTweet t) as [p|]; [destruct (isReply t)|].
    - split.
      + apply tweetsOk_updateOne; [assumption | apply sameShape_pull_replies |].
        intros d. apply stored_pull_replies.
      + destruct (In_updateOne_fwd (tweetIs p)
                    (fun d => set_replies (without (t_id t) (replies d)) d) c t Ht) as [H|H];
          eexists; (split; [exact H | repeat split]).
    - split; [assumption | exists t; auto].
    - split; [assumption | exists t; auto]. }
  destruct H1 as [Hok1 [t1 [Ht1 [Hid [Hrt [Hor Hau]]]]]].
  unfold c2. rewrite <- Hid, <- Hau.
  destruct (originalTweet t) as [o|] eqn:Ho; [destruct (isRetweet t) eqn:Hr|].
  - apply tweetsOk_delete_shell; congruence.
  - apply tweetsOk_delete_plain; [assumption | assumption |].
    intros a p. unfold isShellOf. now rewrite Hrt.
  - apply tweetsOk_delete_plain; [assumption | assumption |].
    intros a p. unfold isShellOf. rewrite Hor. now rewrite andb_false_r.
Qed.

Lemma deleteTweet_sound env me id : respects sound (deleteTweet env me id).
Proof.
  intros w Hc. unfold deleteTweet. exec.
  destruct (findOne (tweetIs id) (tweets w)) as [t|] eqn:Hfind; [|exact Hc].
  pose proof (findOne_tweetIs _ _ _ Hfind) as Hid. subst id.
  pose proof (findOne_Some _ _ _ Hfind) as [Ht _].
  destruct (Nat.eqb_spec (author t) me) as [Hme|_]; simpl; [|exact Hc]. subst me.
  pose proof (tweetsOk_cascade _ _ t Hc Ht) as Hcas. cbv zeta in Hcas.
  destruct (imageUrl t) as [url|];
    [destruct (negb (url =? "")); [destruct (destroy_ok env _); [|exact Hc]|]|];
    (destruct (parentTweet t) as [p|]; [destruct (isReply t)|]);
    (destruct (originalTweet t) as [o|]; [destruct (isRetweet t)|]);
    exact Hcas.
Qed.

Lemma serve_consistent env r w :
  (forall n, notification_ok env n = true) ->
  consistent w -> consistent (snd (serve env r w)).
Proof.
  intros Hok. unfold serve. apply (respects_handler sound).
  destruct r.
  - apply createTweet_sound.
  - apply likeTweet_sound.
  - now apply retweetTweet_sound.
  - apply replyToTweet_sound.
  - apply deleteTweet_sound.
  - apply followUser_sound.
  - apply unfollowUser_sound.
Qed.

(** Every world the handlers reach is consistent. *)
Lemma reachable_consistent w : reachable w -> consistent w.
Proof.
  induction 1 as [us ns tr cl n | env r w Hok _ IH].
  - constructor; simpl; try tauto. constructor.
  - now apply serve_consistent.
Qed.

Lemma consistent_uniqueIds w : consistent w -> uniqueIds w.
Proof. intros H. exact (ids_unique _ _ H). Qed.

(** In a consistent world an account that is not among the retweets of a post
    has no shell for it. *)
Lemma consistent_no_shell w a t :
  consistent w -> In t (tweets w) -> includes a (retweets t) = false ->
  forall d, In d (tweets w) -> isShellOf a (t_id t) d = false.
Proof.
  intros Hc Ht Hout. apply shells_zero. rewrite (shells_match _ _ Hc a t Ht). now rewrite Hout.
Qed.

(** The sample deployment is consistent. *)
Lemma start_consistent : consistent Sample.start.
Proof.
  assert (Hs : forall t, In t (tweets Sample.start) -> stored t).
  { intros t [<-|[<-|[]]]; (constructor; [reflexivity | reflexivity | reflexivity
                                           | constructor | constructor]). }
  constructor; simpl.
  - intros t [<-|[<-|[]]]; simpl; lia.
  - repeat constructor; simpl; intuition discriminate.
  - exact Hs.
  - intros d o [<-|[<-|[]]]; discriminate.
  - intros a t [<-|[<-|[]]]; reflexivity.
Defined.

(** *** What holds whatever fails

    A rejected [Notification.create] can leave a retweet shell without its
    retweeter, so [consistent] is not kept when services fail; ids and the
    shape of the stored posts are. *)

Lemma keptIn_bump n n' c : keptIn n c -> n <= n' -> keptIn n' c.
Proof. intros H Hle t Ht. destruct (H t Ht). split; [lia | assumption]. Qed.

Lemma keptIn_append n c d :
  keptIn n c -> t_id d = n -> stored d -> keptIn (S n) (c ++ [d]).
Proof.
  intros H Hid Hs t Ht. apply in_app_or in Ht. destruct Ht as [Ht|[<-|[]]].
  - destruct (H t Ht). split; [lia | assumption].
  - split; [lia | assumption].
Qed.

Lemma keptIn_updateOne n c q f :
  keptIn n c -> (forall d, In d c -> t_id (f d) < n /\ stored (f d)) ->
  keptIn n (updateOne q f c).
Proof.
  intros H Hf t Ht. apply In_updateOne in Ht. destruct Ht as [Ht|[y [Hy [_ ->]]]]; auto.
Qed.

Lemma keptIn_deleteOne n c q : keptIn n c -> keptIn n (deleteOne q c).
Proof. intros H t Ht. apply H. now apply In_deleteOne in Ht. Qed.

Lemma steady_refl w : steady w w.
Proof. intros H. exact H. Qed.

Lemma steady_trans a b c : steady a b -> steady b c -> steady a c.
Proof. unfold steady. auto. Qed.

Lemma quiet_steady w w' : quiet w w' -> steady w w'.
Proof. intros [Ht Hn] Hc. unfold settled. rewrite Ht. now apply (keptIn_bump (next_oid w)). Qed.

(** A model method that leaves the tweets alone. *)
Ltac calm :=
  let w := fresh "w" in
  intro w; apply quiet_steady; unfold quiet;
  cbv [User_findById User_save User_find_usernameIn Tweet_findById
       Notification_create Notification_deleteMany Trending_findOneAndUpdate
       cloudinary_upload cloudinary_destroy Tweet_findById_populated];
  repeat match goal with
         | |- context [match ?x with _ => _ end] => destruct x
         end;
  simpl; split; solve [reflexivity | lia].

Ltac steady_walk tac := walk_with tac steady_refl steady_trans; try calm.

Lemma followUser_steady env me id : respects steady (followUser env me id).
Proof. unfold followUser. steady_walk fail. Qed.

Lemma unfollowUser_steady me id : respects steady (unfollowUser me id).
Proof. unfold unfollowUser. steady_walk fail. Qed.

Lemma stored_new i text0 a img p rt rp o :
  validateText (Js.trim text0) = [] ->
  stored (preSave (mkTweet i (Js.trim text0) a img [] [] [] p rt rp o [] [])).
Proof.
  intros Hv. constructor; simpl; try assumption; try constructor.
  apply trim_idempotent.
Qed.

(** [Tweet.create] of a post nobody has liked or retweeted yet. *)
Lemma Tweet_create_steady text0 a img p rt rp o :
  respects steady (Tweet_create (mkTweet 0 text0 a img [] [] [] p rt rp o [] [])).
Proof.
  intros w Hc. unfold Tweet_create. simpl.
  destruct (validateText (Js.trim text0)) eqn:Hv; [|exact Hc].
  unfold settled. simpl. apply keptIn_append; [exact Hc | reflexivity |].
  now apply stored_new.
Qed.

Lemma createTweet_steady env me text0 file : respects steady (createTweet env me text0 file).
Proof. unfold createTweet. steady_walk ltac:(apply Tweet_create_steady). Qed.

(** [tweet.save()] of a loaded post, after a change that keeps it [stored]. *)
Lemma keptIn_save n c t (d : Tweet) :
  keptIn n c -> In t c -> t_id d = t_id t -> stored d ->
  keptIn n (updateOne (tweetIs (t_id t)) (fun _ => d) c).
Proof.
  intros H Ht Hid Hs. apply keptIn_updateOne; [assumption|].
  intros x _. rewrite Hid. split; [apply (H t Ht) | assumption].
Qed.

Lemma stored_save_retweets l d : NoDup l -> stored d -> stored (preSave (set_retweets l d)).
Proof. intros Hl [H1 H2 H3 H4 H5]. constructor; try assumption; reflexivity. Qed.

Lemma stored_pull_retweets a d : stored d -> stored (set_retweets (without a (retweets d)) d).
Proof.
  intros [H1 H2 H3 H4 H5]. constructor; try assumption.
  - change (preSave (set_retweets (without a (retweets d)) d))
      with (set_retweets (without a (retweets d)) (preSave d)).
    now rewrite H3.
  - now apply NoDup_without.
Qed.

Lemma likeTweet_steady env me id : respects steady (likeTweet env me id).
Proof.
  intros w Hc. unfold likeTweet. exec.
  destruct (findOne (tweetIs id) (tweets w)) as [t|] eqn:Hfind; [|exact Hc].
  pose proof (findOne_tweetIs _ _ _ Hfind) as Hid. subst id.
  pose proof (findOne_Some _ _ _ Hfind) as [Ht _].
  destruct (Hc t Ht) as [_ Hst].
  pose proof (text_valid _ Hst) as Hval.
  assert (Hsave : forall l n, NoDup l -> next_oid w <= n ->
            keptIn n (updateOne (tweetIs (t_id t)) (fun _ => preSave (set_likes l t)) (tweets w))).
  { intros l n Hl Hn. apply (keptIn_bump (next_oid w)); [|exact Hn].
    apply keptIn_save; [assumption | assumption | reflexivity | now apply stored_save_likes]. }
  destruct (includes me (likes t)) eqn:Hin; simpl.
  - rewrite Hval. unfold settled. simpl. apply Hsave; [|lia].
    apply NoDup_without, (likes_nodup _ Hst).
  - assert (Hl : NoDup (likes t ++ [me])).
    { apply NoDup_push; [apply (likes_nodup _ Hst) | now apply includes_false]. }
    destruct (negb (author t =? me)%nat); simpl.
    + destruct (notification_ok env _); simpl; [|exact Hc].
      rewrite Hval. unfold settled. simpl. apply Hsave; [assumption | lia].
    + rewrite Hval. unfold settled. simpl. apply Hsave; [assumption | lia].
Qed.

Lemma replyToTweet_steady env me id text0 : respects steady (replyToTweet env me id text0).
Proof.
  intros w Hc. unfold replyToTweet.
  destruct (negb (Js.truthy text0)); [exact Hc|]. exec.
  destruct (findOne (tweetIs id) (tweets w)) as [t|] eqn:Hfind; [|exact Hc].
  pose proof (findOne_tweetIs _ _ _ Hfind) as Hid. subst id.
  pose proof (findOne_Some _ _ _ Hfind) as [Ht _].
  destruct (Hc t Ht) as [_ Hst].
  pose proof (text_valid _ Hst) as Hval. simpl.
  destruct (validateText (Js.trim (Js.orEmpty text0))) eqn:Hv; simpl; [|exact Hc].
  rewrite Hval. simpl.
  set (r := preSave (mkTweet (next_oid w) (Js.trim (Js.orEmpty text0)) me None [] [] []
                       (Some (t_id t)) false true None [] [])).
  assert (Hok1 : keptIn (S (next_oid w)) (tweets w ++ [r])).
  { apply keptIn_append; [exact Hc | reflexivity | now apply stored_new]. }
  assert (Hok2 : forall n, S (next_oid w) <= n ->
            keptIn n (updateOne (tweetIs (t_id t))
                        (fun _ => preSave (set_replies (replies t ++ [next_oid w]) t))
                        (tweets w ++ [r]))).
  { intros n Hn. apply (keptIn_bump (S (next_oid w))); [|exact Hn].
    apply keptIn_save; [assumption | apply in_or_app; now left | reflexivity |].
    now apply stored_save_replies. }
  destruct (negb (author t =? me)%nat); simpl.
  - destruct (notification_ok env _); simpl.
    + match goal with
      | |- context [findOne (tweetIs (next_oid w)) ?c] =>
          destruct (findOne (tweetIs (next_oid w)) c) as [[]|]
      end; unfold settled; simpl; apply Hok2; lia.
    + unfold settled. simpl. apply Hok2; lia.
  - match goal with
    | |- context [findOne (tweetIs (next_oid w)) ?c] =>
        destruct (findOne (tweetIs (next_oid w)) c) as [[]|]
    end; unfold settled; simpl; apply Hok2; lia.
Qed.

Lemma retweetTweet_steady env me id : respects steady (retweetTweet env me id).
Proof.
  intros w Hc. unfold retweetTweet. exec.
  destruct (findOne (tweetIs id) (tweets w)) as [t|] eqn:Hfind; [|exact Hc].
  pose proof (findOne_tweetIs _ _ _ Hfind) as Hid. subst id.
  pose proof (findOne_Some _ _ _ Hfind) as [Ht _].
  destruct (Hc t Ht) as [_ Hst].
  pose proof (text_valid _ Hst) as Hval. pose proof (text_trimmed _ Hst) as Htrim.
  destruct (includes me (retweets t)) eqn:Hin; simpl.
  - rewrite Hval. unfold settled. simpl.
    apply keptIn_updateOne; [now apply keptIn_deleteOne|].
    intros x _. split; [apply (Hc t Ht)|].
    apply stored_save_retweets; [apply NoDup_without, (retweets_nodup _ Hst) | assumption].
  - rewrite Htrim, Hval. simpl.
    assert (Hshell : keptIn (S (next_oid w)) (tweets w ++ [shellFor (next_oid w) me t])).
    { apply keptIn_append; [exact Hc | reflexivity | now apply stored_shell]. }
    unfold shellFor in Hshell. rewrite Htrim in Hshell.
    assert (Hadd : forall n, S (next_oid w) <= n ->
              keptIn n
                (updateOne (tweetIs (t_id t))
                   (fun _ => preSave (set_retweets (retweets t ++ [me]) t))
                   (tweets w ++
                    [preSave (mkTweet (next_oid w) (text t) me None [] [] [] None true false
                                (Some (t_id t)) [] [])]))).
    { intros n Hn. apply (keptIn_bump (S (next_oid w))); [|exact Hn].
      apply keptIn_save; [assumption | apply in_or_app; now left | reflexivity |].
      apply stored_save_retweets; [|assumption].
      apply NoDup_push; [apply (retweets_nodup _ Hst) | now apply includes_false]. }
    destruct (negb (author t =? me)%nat); simpl.
    + destruct (notification_ok env _); simpl.
      * rewrite Hval. unfold settled. simpl. apply Hadd. lia.
      * exact Hshell.
    + rewrite Hval. unfold settled. simpl. apply Hadd. lia.
Qed.

Lemma deleteTweet_steady env me id : respects steady (deleteTweet env me id).
Proof.
  intros w Hc. unfold deleteTweet. exec.
  destruct (findOne (tweetIs id) (tweets w)) as [t|] eqn:Hfind; [|exact Hc].
  destruct (negb (author t =? me)%nat); [exact Hc|].
  assert (Hrep : forall p c, keptIn (next_oid w) c ->
            keptIn (next_oid w)
              (updateOne (tweetIs p) (fun d => set_replies (without (t_id t) (replies d)) d) c)).
  { intros p c H. apply keptIn_updateOne; [assumption|].
    intros d Hd. destruct (H d Hd). split; [assumption | now apply stored_pull_replies]. }
  assert (Hrt : forall o c, keptIn (next_oid w) c ->
            keptIn (next_oid w)
              (updateOne (tweetIs o) (fun d => set_retweets (without me (retweets d)) d) c)).
  { intros o c H. apply keptIn_updateOne; [assumption|].
    intros d Hd. destruct (H d Hd). split; [assumption | now apply stored_pull_retweets]. }
  destruct (imageUrl t) as [url|];
    [destruct (negb (url =? "")); [destruct (destroy_ok env _); [|exact Hc]|]|];
    (destruct (parentTweet t) as [p|]; [destruct (isReply t)|]);
    (destruct (originalTweet t) as [o|]; [destruct (isRetweet t)|]);
    unfold settled; simpl; apply keptIn_deleteOne; auto.
Qed.

(** Whatever the services do, a request leaves a settled world settled. *)
Lemma serve_settled env r w : settled w -> settled (snd (serve env r w)).
Proof.
  unfold serve. apply (respects_handler steady).
  destruct r.
  - apply createTweet_steady.
  - apply likeTweet_steady.
  - apply retweetTweet_steady.
  - apply replyToTweet_steady.
  - apply deleteTweet_steady.
  - apply followUser_steady.
  - apply unfollowUser_steady.
Qed.

Lemma served_settled w : served w -> settled w.
Proof.
  induction 1 as [us ns tr cl n | env r w _ IH].
  - intros t [].
  - now apply serve_settled.
Qed.

Lemma consistent_settled w : consistent w -> settled w.
Proof.
  intros Hc t Ht. split; [apply (ids_drawn _ _ Hc t Ht) | apply (all_stored _ _ Hc t Ht)].
Qed.

Lemma start_settled : settled Sample.start.
Proof.
  intros t [<-|[<-|[]]]; (split; [simpl; lia|]);
    (constructor; [reflexivity | reflexivity | reflexivity | constructor | constructor]).
Defined.

(** ** Post deletion *)

Lemma deleteTweet_keeps_trending env me id :
  respects (keeps trending) (deleteTweet env me id).
Proof.
  unfold deleteTweet.
  walk (keeps_refl trending) (keeps_trans trending); untouched.
Qed.

(** C9. [deleteTweet] never writes the Trending collection: whatever the
    request and whether or not it succeeds, every TrendingTopic keeps its
    count and its contributing posts, also when the deleted post carried the
    tag. *)
Theorem deleteTweet_leaves_trending env me id w :
  trending (snd (handler (deleteTweet env me id) w)) = trending w.
Proof.
  apply (respects_handler (keeps trending)), deleteTweet_keeps_trending.
Qed.

Lemma deleteTweet_forbidden env me id w t :
  findOne (tweetIs id) (tweets w) = Some t -> author t <> me ->
  handler (deleteTweet env me id) w
  = (Sent 403 (Message "Not authorized to delete this tweet"), w).
Proof.
  intros Hfind Hne. unfold deleteTweet. exec. rewrite Hfind.
  destruct (Nat.eqb_spec (author t) me); [contradiction | reflexivity].
Qed.


Lemma pull_replies_seen p i c :
  let c1 := updateOne (tweetIs p) (fun d => set_replies (without i (replies d)) d) c in
  map t_id c1 = map t_id c /\
  (forall x, findOne (tweetIs p) c1 = Some x ->
     exists y, findOne (tweetIs p) c = Some y /\ replies x = without i (replies y)) /\
  (forall y, findOne (tweetIs p) c = Some y ->
     exists x, findOne (tweetIs p) c1 = Some x /\ replies x = without i (replies y)).
Proof.
  cbv zeta. split; [|split].
  - now apply ids_updateOne.
  - intros x Hx. apply findOne_updateOne_inv in Hx; [|reflexivity].
    destruct Hx as [y [Hy ->]]. now exists y.
  - intros y Hy. exists (set_replies (without i (replies y)) y). split; [|reflexivity].
    apply (findOne_updateOne_hit _ (fun d => set_replies (without i (replies d)) d) _ _ Hy).
    apply findOne_Some in Hy. apply Hy.
Qed.

Lemma pull_retweets_unseen o me p c :
  let c1 := updateOne (tweetIs o) (fun d => set_retweets (without me (retweets d)) d) c in
  map t_id c1 = map t_id c /\
  (forall x, findOne (tweetIs p) c1 = Some x ->
     exists y, findOne (tweetIs p) c = Some y /\ replies x = replies y) /\
  (forall y, findOne (tweetIs p) c = Some y ->
     exists x, findOne (tweetIs p) c1 = Some x /\ replies x = replies y).
Proof.
  cbv zeta. split; [|split].
  - now apply ids_updateOne.
  - intros x Hx. apply findOne_updateOne_cases in Hx; [|reflexivity].
    destruct Hx as [y [Hy [->| ->]]]; now exists y.
  - intros y Hy.
    destruct (findOne_updateOne_fwd (tweetIs o) (tweetIs p)
                (fun d => set_retweets (without me (retweets d)) d) c y) as [x [Hx [->| ->]]];
      [reflexivity | assumption | now exists y | eexists; split; [eassumption | reflexivity]].
Qed.

Lemma deleteTweet_reply_success env me id w t p b w' :
  findOne (tweetIs id) (tweets w) = Some t ->
  isReply t = true -> parentTweet t = Some p ->
  handler (deleteTweet env me id) w = (Sent 200 b, w') ->
  notifications w' = deleteMany (refersTo id) (notifications w) /\
  exists c,
    tweets w' = deleteOne (tweetIs id) c /\
    map t_id c = map t_id (tweets w) /\
    (forall x, findOne (tweetIs p) c = Some x ->
       exists y, findOne (tweetIs p) (tweets w) = Some y /\
                 replies x = without id (replies y)) /\
    (forall y, findOne (tweetIs p) (tweets w) = Some y ->
       exists x, findOne (tweetIs p) c = Some x /\ replies x = without id (replies y)).
Proof.
  intros Hfind Hrep Hpar. pose proof (findOne_tweetIs _ _ _ Hfind) as Hid.
  unfold deleteTweet. exec. rewrite Hfind, Hrep, Hpar, Hid.
  destruct (Nat.eqb_spec (author t) me) as [Hauth|Hne]; simpl; [|discriminate].
  pose proof (pull_replies_seen p id (tweets w)) as [Hids [Hinv Hfwd]].
  assert (Hdone : forall c0 nn ww,
             tweets ww = deleteOne (tweetIs id) c0 -> notifications ww = nn ->
             nn = deleteMany (refersTo id) (notifications w) ->
             (c0 = updateOne (tweetIs p) (fun d => set_replies (without id (replies d)) d) (tweets w)
              \/ exists o, c0 = updateOne (tweetIs o)
                               (fun d => set_retweets (without me (retweets d)) d)
                               (updateOne (tweetIs p)
                                  (fun d => set_replies (without id (replies d)) d) (tweets w))) ->
             notifications ww = deleteMany (refersTo id) (notifications w) /\
             exists c,
               tweets ww = deleteOne (tweetIs id) c /\
               map t_id c = map t_id (tweets w) /\
               (forall x, findOne (tweetIs p) c = Some x ->
                  exists y, findOne (tweetIs p) (tweets w) = Some y /\
                            replies x = without id (replies y)) /\
               (forall y, findOne (tweetIs p) (tweets w) = Some y ->
                  exists x, findOne (tweetIs p) c = Some x /\ replies x = without id (replies y))).
  { intros c0 nn ww Ht Hn Hnn Hc. split; [congruence|]. exists c0. split; [assumption|].
    destruct Hc as [->|[o ->]]; [now repeat split|].
    destruct (pull_retweets_unseen o me p
                (updateOne (tweetIs p) (fun d => set_replies (without id (replies d)) d) (tweets w)))
      as [Hids2 [Hinv2 Hfwd2]].
    split; [congruence|]. split.
    - intros x Hx. destruct (Hinv2 x Hx) as [y [Hy Hr]].
      destruct (Hinv y Hy) as [z [Hz Hr']]. exists z. split; congruence.
    - intros y Hy. destruct (Hfwd y Hy) as [x [Hx Hr]].
      destruct (Hfwd2 x Hx) as [z [Hz Hr']]. exists z. split; congruence. }
  destruct (imageUrl t) as [url|];
    [destruct (negb (url =? "")); [destruct (destroy_ok env _); [|discriminate]|]|];
    (destruct (originalTweet t) as [o|]; [destruct (isRetweet t)|]);
    intros [= <- <-]; (eapply Hdone; [reflexivity | reflexivity | reflexivity | eauto]).
Qed.

Lemma deleteTweet_success_notifications env me id w t b w' :
  findOne (tweetIs id) (tweets w) = Some t ->
  handler (deleteTweet env me id) w = (Sent 200 b, w') ->
  notifications w' = deleteMany (refersTo id) (notifications w).
Proof.
  intros Hfind. pose proof (findOne_tweetIs _ _ _ Hfind) as Hid.
  unfold deleteTweet. exec. rewrite Hfind, Hid.
  destruct (negb (author t =? me)%nat); [discriminate|].
  destruct (imageUrl t) as [url|];
    [destruct (negb (url =? "")); [destruct (destroy_ok env _); [|discriminate]|]|];
    (destruct (parentTweet t) as [p|]; [destruct (isReply t)|]);
    (destruct (originalTweet t) as [o|]; [destruct (isRetweet t)|]);
    intros [= <- <-]; reflexivity.
Qed.

(** C6. [deleteTweet] on an existing post: when the requester is not the
    author it answers 403 and the world is what it was; when it answers 200,
    no notification that refers to the post is left, and if the post is a
    reply with a recorded parent, the post is gone, the parent no longer lists
    it among its replies, and the parent's replies are the old ones without
    it. *)
Theorem deleteTweet_cascade env me id w t :
  uniqueIds w ->
  findOne (tweetIs id) (tweets w) = Some t ->
  (author t <> me ->
   handler (deleteTweet env me id) w
   = (Sent 403 (Message "Not authorized to delete this tweet"), w))
  /\
  (forall b w',
     handler (deleteTweet env me id) w = (Sent 200 b, w') ->
     (forall n, In n (notifications w') -> n_tweet n <> Some id)
     /\
     (forall p, isReply t = true -> parentTweet t = Some p ->
        findOne (tweetIs id) (tweets w') = None
        /\ (forall x, findOne (tweetIs p) (tweets w') = Some x -> ~ In id (replies x))
        /\ (forall y, p <> id -> findOne (tweetIs p) (tweets w) = Some y ->
              exists x, findOne (tweetIs p) (tweets w') = Some x
                        /\ replies x = without id (replies y)))).
Proof.
  intros Huniq Hfind. split; [now apply deleteTweet_forbidden|].
  intros b w' Hrun. split.
  - intros n Hn Href.
    rewrite (deleteTweet_success_notifications _ _ _ _ _ _ _ Hfind Hrun) in Hn.
    apply In_deleteMany in Hn. destruct Hn as [_ Hn].
    unfold refersTo in Hn. rewrite Href, Nat.eqb_refl in Hn. discriminate.
  - intros p Hrep Hpar.
    destruct (deleteTweet_reply_success _ _ _ _ _ _ _ _ Hfind Hrep Hpar Hrun)
      as [_ [c [Hc [Hids [Hinv Hfwd]]]]].
    assert (Hgone : findOne (tweetIs id) (tweets w') = None).
    { rewrite Hc. apply findOne_deleteOne_unique. rewrite Hids. exact Huniq. }
    assert (Hmiss : p <> id -> findOne (tweetIs p) (tweets w') = findOne (tweetIs p) c).
    { intros Hne. rewrite Hc. apply findOne_deleteOne_miss.
      intros d Hd. apply tweetIs_id in Hd. unfold tweetIs. apply Nat.eqb_neq. congruence. }
    split; [assumption|]. split.
    + intros x Hx. destruct (Nat.eq_dec p id) as [->|Hne]; [congruence|].
      rewrite (Hmiss Hne) in Hx. destruct (Hinv x Hx) as [y [_ ->]].
      rewrite In_without. tauto.
    + intros y Hne Hy. rewrite (Hmiss Hne). now apply Hfwd.
Qed.

Lemma deleteTweet_cascade_witness :
  handler (deleteTweet Sample.reliable 1 12) Sample.thread
  = (Sent 403 (Message "Not authorized to delete this tweet"), Sample.thread)
  /\
  (forall n, In n (notifications (snd (handler (deleteTweet Sample.reliable 2 12) Sample.thread))) ->
             n_tweet n <> Some 12)
  /\
  exists x, findOne (tweetIs 10) (tweets (snd (handler (deleteTweet Sample.reliable 2 12) Sample.thread)))
            = Some x /\ replies x = [].
Proof.
  assert (Hu : uniqueIds Sample.thread).
  { unfold uniqueIds. simpl. repeat constructor; simpl; intuition discriminate. }
  assert (Hf : findOne (tweetIs 12) (tweets Sample.thread) = Some Sample.answer) by reflexivity.
  destruct (deleteTweet_cascade Sample.reliable 1 12 Sample.thread Sample.answer Hu Hf) as [H403 _].
  destruct (deleteTweet_cascade Sample.reliable 2 12 Sample.thread Sample.answer Hu Hf) as [_ H200].
  split; [apply H403; simpl; discriminate|].
  destruct (H200 (Message "Tweet deleted successfully")
              (snd (handler (deleteTweet Sample.reliable 2 12) Sample.thread)) eq_refl)
    as [Hn Hr].
  split; [exact Hn|].
  destruct (Hr 10 eq_refl eq_refl) as [_ [_ Hp]].
  apply (Hp (mkTweet 10 "Hello #world" 1 None [] [] [12] None false false None ["world"] []));
    [discriminate | reflexivity].
Defined.

(** ** Replies *)

(** C10. A reply whose text is absent or empty is answered 400 ("Reply text
    is required") before anything is read or written: no post is created and
    the parent's replies are what they were.  An image does not help: the
    handler never looks at a file. *)
Theorem reply_without_text_rejected env me id text0 w :
  Js.truthy text0 = false ->
  handler (replyToTweet env me id text0) w = (Sent 400 (Message "Reply text is required"), w).
Proof. intros H. unfold replyToTweet. rewrite H. reflexivity. Qed.

Lemma reply_without_text_rejected_witness :
  Js.truthy (Some "") = false /\
  handler (replyToTweet Sample.reliable 2 10 (Some "")) Sample.start
  = (Sent 400 (Message "Reply text is required"), Sample.start).
Proof.
  split; [reflexivity | apply reply_without_text_rejected; reflexivity].
Defined.

(** ** No self-notification *)

Lemma notifiesOthers_refl w : notifiesOthers w w.
Proof. exists []. split; [now rewrite app_nil_r | constructor]. Qed.

Lemma notifiesOthers_trans a b c :
  notifiesOthers a b -> notifiesOthers b c -> notifiesOthers a c.
Proof.
  intros [l1 [H1 F1]] [l2 [H2 F2]]. exists (l1 ++ l2). split.
  - now rewrite H2, H1, app_assoc.
  - apply Forall_app. now split.
Qed.

Lemma keeps_notifiesOthers {A} (m : M A) :
  respects (keeps notifications) m -> respects notifiesOthers m.
Proof.
  intros H w. exists []. split; [rewrite app_nil_r; apply H | constructor].
Qed.

Lemma guarded_Notification_create env a me ty tw :
  respects notifiesOthers
    (when (negb (a =? me)%nat) (Notification_create env a me ty tw)).
Proof.
  intros w. destruct (Nat.eqb_spec a me) as [->|Hne]; simpl.
  - apply notifiesOthers_refl.
  - unfold Notification_create. destruct (notification_ok env _); simpl.
    + eexists. split; [reflexivity|]. repeat constructor. simpl. congruence.
    + apply notifiesOthers_refl.
Qed.

Ltac notif_walk :=
  walk_with ltac:(apply guarded_Notification_create) notifiesOthers_refl notifiesOthers_trans;
  apply keeps_notifiesOthers; untouched.

Lemma likeTweet_notifiesOthers env me id : respects notifiesOthers (likeTweet env me id).
Proof. unfold likeTweet. notif_walk. Qed.

Lemma retweetTweet_notifiesOthers env me id : respects notifiesOthers (retweetTweet env me id).
Proof. unfold retweetTweet. notif_walk. Qed.

Lemma replyToTweet_notifiesOthers env me id text0 :
  respects notifiesOthers (replyToTweet env me id text0).
Proof. unfold replyToTweet. notif_walk. Qed.

Lemma own_post_quiet env me id text0 w t :
  findOne (tweetIs id) (tweets w) = Some t -> author t = me ->
  notifications (snd (handler (likeTweet env me id) w)) = notifications w
  /\ notifications (snd (handler (retweetTweet env me id) w)) = notifications w
  /\ notifications (snd (handler (replyToTweet env me id text0) w)) = notifications w.
Proof.
  intros Hfind Hme. split; [|split].
  - unfold likeTweet. exec. rewrite Hfind.
    destruct (includes me (likes t)); simpl; rewrite ?Hme, ?Nat.eqb_refl; simpl;
      destruct (validateText (text t)); reflexivity.
  - unfold retweetTweet. exec. rewrite Hfind.
    destruct (includes me (retweets t)); simpl; rewrite ?Hme, ?Nat.eqb_refl; simpl.
    + destruct (validateText (text t)); reflexivity.
    + destruct (validateText (Js.trim (text t))); simpl; [|reflexivity].
      destruct (validateText (text t)); reflexivity.
  - unfold replyToTweet. destruct (negb (Js.truthy text0)); [reflexivity|].
    exec. rewrite Hfind. simpl.
    destruct (validateText (Js.trim (Js.orEmpty text0))); simpl; [|reflexivity].
    destruct (validateText (text t)); simpl; [|reflexivity].
    rewrite Hme, Nat.eqb_refl. simpl.
    match goal with
    | |- context [findOne (tweetIs (next_oid w)) ?c] =>
        destruct (findOne (tweetIs (next_oid w)) c) as [[]|]
    end; reflexivity.
Qed.

(** C7. Like, retweet and reply only ever add notifications whose sender is
    not their recipient; and on a post whose author is the requester they add
    none at all. *)
Theorem no_self_notification env me id text0 w :
  (notifiesOthers w (snd (handler (likeTweet env me id) w))
   /\ notifiesOthers w (snd (handler (retweetTweet env me id) w))
   /\ notifiesOthers w (snd (handler (replyToTweet env me id text0) w)))
  /\
  (forall t, findOne (tweetIs id) (tweets w) = Some t -> author t = me ->
     notifications (snd (handler (likeTweet env me id) w)) = notifications w
     /\ notifications (snd (handler (retweetTweet env me id) w)) = notifications w
     /\ notifications (snd (handler (replyToTweet env me id text0) w)) = notifications w).
Proof.
  split.
  - repeat split; apply (respects_handler notifiesOthers).
    + apply likeTweet_notifiesOthers.
    + apply retweetTweet_notifiesOthers.
    + apply replyToTweet_notifiesOthers.
  - intros t. apply own_post_quiet.
Qed.

Lemma no_self_notification_witness :
  notifications (snd (handler (likeTweet Sample.reliable 1 10) Sample.start)) = []
  /\ notifications (snd (handler (retweetTweet Sample.reliable 1 10) Sample.start)) = []
  /\ notifications (snd (handler (replyToTweet Sample.reliable 1 10 (Some "me again")) Sample.start)) = [].
Proof.
  exact (proj2 (no_self_notification Sample.reliable 1 10 (Some "me again") Sample.start)
           Sample.hello eq_refl eq_refl).
Defined.

(** ** Follow graph *)

Lemma userIs_id i u : userIs i u = true <-> u_id u = i.
Proof. apply Nat.eqb_eq. Qed.

Lemma findOne_userIs i c u : findOne (userIs i) c = Some u -> u_id u = i.
Proof. intros H. apply findOne_Some in H. now apply userIs_id. Qed.

(** Saving account [b] is not seen when account [a] is looked up. *)
Lemma findOne_user_other a b (u : User) c :
  a <> b -> u_id u = b ->
  findOne (userIs a) (updateOne (userIs b) (fun _ => u) c) = findOne (userIs a) c.
Proof.
  intros Hne Hu. apply findOne_updateOne_miss. intros d Hd.
  apply userIs_id in Hd. unfold userIs. rewrite Hu, Hd.
  split; apply Nat.eqb_neq; congruence.
Qed.

Lemma findOne_user_saved b (u u0 : User) c :
  findOne (userIs b) c = Some u0 -> u_id u = b ->
  findOne (userIs b) (updateOne (userIs b) (fun _ => u) c) = Some u.
Proof.
  intros Hf Hu. apply (findOne_updateOne_hit _ (fun _ => u) _ _ Hf).
  now apply userIs_id.
Qed.

Lemma spells_other a b : a <> castId b -> spells a b = false.
Proof.
  intros H. unfold spells. destruct (Nat.eqb_spec a (castId b)); [contradiction|].
  apply andb_false_r.
Qed.

(** What a successful [followUser] wrote.  The requester and the target are
    the same account when the parameter reaches the requester under another
    spelling. *)
Lemma followUser_success env a b w body w' :
  handler (followUser env a b) w = (Sent 200 body, w') ->
  exists ua ub,
    spells a b = false /\
    findOne (userIs a) (users w) = Some ua /\
    findOne (userIs (castId b)) (users w) = Some ub /\
    includes a (followers ub) = false /\
    exists ua' ub',
      findOne (userIs a) (users w') = Some ua' /\
      findOne (userIs (castId b)) (users w') = Some ub' /\
      following ua' = following ua ++ [castId b] /\
      followers ub' = followers ub ++ [a] /\
      (a <> castId b ->
       ua' = set_following (following ua ++ [castId b]) ua
       /\ ub' = set_followers (followers ub ++ [a]) ub).
Proof.
  unfold followUser. exec.
  destruct (findOne (userIs (castId b)) (users w)) as [ub|] eqn:Hb; [|discriminate].
  pose proof (findOne_userIs _ _ _ Hb) as Hbid.
  destruct (spells a b) eqn:Hsp; [discriminate|].
  destruct (includes a (followers ub)) eqn:Hinc; [discriminate|]. simpl.
  rewrite Hbid.
  destruct (Nat.eq_dec a (castId b)) as [Heq|Hne].
  - rewrite <- Heq in *.
    rewrite (findOne_user_saved a (set_followers (followers ub ++ [a]) ub) ub (users w) Hb Hbid).
    simpl. destruct (notification_ok env _); [|discriminate].
    intros [= <- <-]. exists ub, ub. simpl. rewrite Hbid.
    repeat (split; [reflexivity || assumption|]).
    do 2 eexists.
    assert (Hfin : findOne (userIs a)
                     (updateOne (userIs a)
                        (fun _ => set_following (following ub ++ [a])
                                    (set_followers (followers ub ++ [a]) ub))
                        (updateOne (userIs a)
                           (fun _ => set_followers (followers ub ++ [a]) ub) (users w)))
                   = Some (set_following (following ub ++ [a])
                             (set_followers (followers ub ++ [a]) ub))).
    { apply (findOne_user_saved a _ (set_followers (followers ub ++ [a]) ub)); [|exact Hbid].
      now apply (findOne_user_saved a _ ub). }
    split; [exact Hfin|]. split; [exact Hfin|]. split; [reflexivity|]. split; [reflexivity|].
    intros H. now destruct H.
  - rewrite (findOne_user_other a (castId b) (set_followers _ ub) (users w) Hne Hbid).
    destruct (findOne (userIs a) (users w)) as [ua|] eqn:Ha; [|discriminate].
    pose proof (findOne_userIs _ _ _ Ha) as Haid. simpl.
    destruct (notification_ok env _); [|discriminate].
    intros [= <- <-]. exists ua, ub. simpl. rewrite Haid.
    repeat (split; [reflexivity || assumption|]).
    do 2 eexists. split; [|split; [|split; [|split]]].
    + apply (findOne_user_saved a _ ua); [|exact Haid].
      now rewrite (findOne_user_other a (castId b) (set_followers _ ub) (users w) Hne Hbid).
    + rewrite (findOne_user_other (castId b) a (set_following _ ua)); [|congruence|exact Haid].
      now apply (findOne_user_saved (castId b) _ ub).
    + reflexivity.
    + reflexivity.
    + intros _. split; reflexivity.
Qed.

Lemma unfollowUser_success a b w body w' :
  handler (unfollowUser a b) w = (Sent 200 body, w') ->
  exists ua ub,
    spells a b = false /\
    findOne (userIs a) (users w) = Some ua /\
    findOne (userIs (castId b)) (users w) = Some ub /\
    includes a (followers ub) = true /\
    exists ua' ub',
      findOne (userIs a) (users w') = Some ua' /\
      findOne (userIs (castId b)) (users w') = Some ub' /\
      following ua' = without (castId b) (following ua) /\
      followers ub' = without a (followers ub) /\
      (a <> castId b ->
       ua' = set_following (without (castId b) (following ua)) ua
       /\ ub' = set_followers (without a (followers ub)) ub).
Proof.
  unfold unfollowUser. exec.
  destruct (findOne (userIs (castId b)) (users w)) as [ub|] eqn:Hb; [|discriminate].
  pose proof (findOne_userIs _ _ _ Hb) as Hbid.
  destruct (spells a b) eqn:Hsp; [discriminate|].
  destruct (includes a (followers ub)) eqn:Hinc; [|discriminate]. simpl.
  rewrite Hbid.
  destruct (Nat.eq_dec a (castId b)) as [Heq|Hne].
  - rewrite <- Heq in *.
    rewrite (findOne_user_saved a (set_followers (without a (followers ub)) ub) ub (users w)
               Hb Hbid).
    simpl. intros [= <- <-]. exists ub, ub. simpl. rewrite Hbid.
    repeat (split; [reflexivity || assumption|]).
    do 2 eexists.
    assert (Hfin : findOne (userIs a)
                     (updateOne (userIs a)
                        (fun _ => set_following (without a (following ub))
                                    (set_followers (without a (followers ub)) ub))
                        (updateOne (userIs a)
                           (fun _ => set_followers (without a (followers ub)) ub) (users w)))
                   = Some (set_following (without a (following ub))
                             (set_followers (without a (followers ub)) ub))).
    { apply (findOne_user_saved a _ (set_followers (without a (followers ub)) ub));
        [|exact Hbid].
      now apply (findOne_user_saved a _ ub). }
    split; [exact Hfin|]. split; [exact Hfin|]. split; [reflexivity|]. split; [reflexivity|].
    intros H. now destruct H.
  - rewrite (findOne_user_other a (castId b) (set_followers _ ub) (users w) Hne Hbid).
    destruct (findOne (userIs a) (users w)) as [ua|] eqn:Ha; [|discriminate].
    pose proof (findOne_userIs _ _ _ Ha) as Haid. simpl.
    intros [= <- <-]. exists ua, ub. simpl. rewrite Haid.
    repeat (split; [reflexivity || assumption|]).
    do 2 eexists. split; [|split; [|split; [|split]]].
    + apply (findOne_user_saved a _ ua); [|exact Haid].
      now rewrite (findOne_user_other a (castId b) (set_followers _ ub) (users w) Hne Hbid).
    + rewrite (findOne_user_other (castId b) a (set_following _ ua)); [|congruence|exact Haid].
      now apply (findOne_user_saved (castId b) _ ub).
    + reflexivity.
    + reflexivity.
    + intros _. split; reflexivity.
Qed.

(** C4. When [followUser] answers 200 for requester [a] and the account [b]
    of the parameter, the stored account [a] has [b] in [following] and the
    stored account [b] has [a] in [followers]; when [unfollowUser] answers
    200, neither holds.  This needs no hypothesis on the accounts: it also
    holds when the parameter reaches the requester's own account under
    another spelling, the one case in which a 200 does not mean that the
    accounts differ. *)
Theorem follow_symmetry env a b w body w' :
  (handler (followUser env a b) w = (Sent 200 body, w') ->
   exists ua ub,
     findOne (userIs a) (users w') = Some ua
     /\ findOne (userIs (castId b)) (users w') = Some ub
     /\ In (castId b) (following ua) /\ In a (followers ub))
  /\
  (handler (unfollowUser a b) w = (Sent 200 body, w') ->
   exists ua ub,
     findOne (userIs a) (users w') = Some ua
     /\ findOne (userIs (castId b)) (users w') = Some ub
     /\ ~ In (castId b) (following ua) /\ ~ In a (followers ub)).
Proof.
  split; intros Hrun.
  - destruct (followUser_success _ _ _ _ _ _ Hrun)
      as [ua [ub [_ [_ [_ [_ [ua' [ub' [Ha [Hb [Hfg [Hfr _]]]]]]]]]]]].
    exists ua', ub'. split; [exact Ha|]. split; [exact Hb|].
    rewrite Hfg, Hfr. split; apply in_or_app; right; now left.
  - destruct (unfollowUser_success _ _ _ _ _ Hrun)
      as [ua [ub [_ [_ [_ [_ [ua' [ub' [Ha [Hb [Hfg [Hfr _]]]]]]]]]]]].
    exists ua', ub'. split; [exact Ha|]. split; [exact Hb|].
    rewrite Hfg, Hfr, !In_without. tauto.
Qed.

Lemma follow_symmetry_witness :
  (exists ua ub,
     findOne (userIs 1)
       (users (snd (handler (followUser Sample.reliable 1 (mkRouteId 2 true)) Sample.start)))
     = Some ua
     /\ findOne (userIs 2)
          (users (snd (handler (followUser Sample.reliable 1 (mkRouteId 2 true)) Sample.start)))
        = Some ub
     /\ In 2 (following ua) /\ In 1 (followers ub))
  /\
  (exists ua ub,
     findOne (userIs 1)
       (users (snd (handler (unfollowUser 1 (mkRouteId 2 true))
                      (snd (handler (followUser Sample.reliable 1 (mkRouteId 2 true))
                              Sample.start))))) = Some ua
     /\ findOne (userIs 2)
          (users (snd (handler (unfollowUser 1 (mkRouteId 2 true))
                         (snd (handler (followUser Sample.reliable 1 (mkRouteId 2 true))
                                 Sample.start))))) = Some ub
     /\ ~ In 2 (following ua) /\ ~ In 1 (followers ub)).
Proof.
  split.
  - apply (proj1 (follow_symmetry Sample.reliable 1 (mkRouteId 2 true) Sample.start
                    (Message "User followed successfully")
                    (snd (handler (followUser Sample.reliable 1 (mkRouteId 2 true))
                            Sample.start)))).
    reflexivity.
  - apply (proj2 (follow_symmetry Sample.reliable 1 (mkRouteId 2 true)
                    (snd (handler (followUser Sample.reliable 1 (mkRouteId 2 true))
                            Sample.start))
                    (Message "User unfollowed successfully")
                    (snd (handler (unfollowUser 1 (mkRouteId 2 true))
                            (snd (handler (followUser Sample.reliable 1 (mkRouteId 2 true))
                                    Sample.start)))))).
    reflexivity.
Defined.

(** ** Like toggle *)

Lemma toggle_twice_includes i l : includes i (toggle i (toggle i l)) = includes i l.
Proof.
  unfold toggle. destruct (includes i l) eqn:H.
  - rewrite includes_without. apply includes_push.
  - rewrite includes_push. apply includes_without.
Qed.

Lemma toggle_twice_length i l :
  NoDup l -> List.length (toggle i (toggle i l)) = List.length l.
Proof.
  intros Hnd. unfold toggle. destruct (includes i l) eqn:H.
  - rewrite includes_without, length_app, Nat.add_comm. simpl.
    apply without_length; [assumption | now apply includes_In].
  - rewrite includes_push, without_push. now rewrite without_absent.
Qed.

(** One run of [likeTweet] on a stored post, when notifications can be
    created. *)
Lemma likeTweet_run env me id w t :
  (forall n, notification_ok env n = true) ->
  findOne (tweetIs id) (tweets w) = Some t ->
  validateText (text t) = [] ->
  exists w1,
    handler (likeTweet env me id) w
    = (Sent 200
         (LikeResult (if includes me (likes t) then "Tweet unliked" else "Tweet liked")
            (List.length (toggle me (likes t))) (negb (includes me (likes t)))), w1)
    /\ findOne (tweetIs id) (tweets w1) = Some (preSave (set_likes (toggle me (likes t)) t)).
Proof.
  intros Hok Hfind Hval. pose proof (findOne_tweetIs _ _ _ Hfind) as Hid.
  assert (Hsaved : forall l,
            findOne (tweetIs id)
              (updateOne (tweetIs id) (fun _ => preSave (set_likes l t)) (tweets w))
            = Some (preSave (set_likes l t))).
  { intros l. apply (findOne_updateOne_hit _ (fun _ => preSave (set_likes l t)) _ _ Hfind).
    now apply tweetIs_id. }
  unfold likeTweet, toggle. exec. rewrite Hfind.
  destruct (includes me (likes t)); simpl.
  - rewrite Hval, Hid. eexists. split; [reflexivity|]. apply Hsaved.
  - destruct (negb (author t =? me)%nat); simpl; rewrite ?Hok; simpl;
      rewrite Hval, Hid; (eexists; split; [reflexivity|]); apply Hsaved.
Qed.

(** The likes of a post stay free of duplicates under [likeTweet]. *)
Lemma toggle_NoDup i l : NoDup l -> NoDup (toggle i l).
Proof.
  intros Hnd. unfold toggle. destruct (includes i l) eqn:H.
  - now apply NoDup_without.
  - apply NoDup_push; [assumption | now apply includes_false].
Qed.

(** Two [likeTweet] requests in a row, on a post that passes the schema and
    whose likes hold nobody twice. *)
Lemma like_twice_run env me id w t :
  (forall n, notification_ok env n = true) ->
  findOne (tweetIs id) (tweets w) = Some t ->
  validateText (text t) = [] ->
  NoDup (likes t) ->
  exists w1 w2 t2,
    handler (likeTweet env me id) w
    = (Sent 200
         (LikeResult (if includes me (likes t) then "Tweet unliked" else "Tweet liked")
            (List.length (toggle me (likes t))) (negb (includes me (likes t)))), w1)
    /\ handler (likeTweet env me id) w1
       = (Sent 200
            (LikeResult (if includes me (likes t) then "Tweet liked" else "Tweet unliked")
               (List.length (likes t)) (includes me (likes t))), w2)
    /\ findOne (tweetIs id) (tweets w2) = Some t2
    /\ includes me (likes t2) = includes me (likes t)
    /\ List.length (likes t2) = List.length (likes t).
Proof.
  intros Hok Hfind Hval Hnd.
  destruct (likeTweet_run env me id w t Hok Hfind Hval) as [w1 [Hrun1 Hfind1]].
  destruct (likeTweet_run env me id w1 _ Hok Hfind1 Hval) as [w2 [Hrun2 Hfind2]].
  simpl in Hrun2, Hfind2.
  rewrite toggle_twice_length in Hrun2 by assumption.
  assert (Hflip : includes me (toggle me (likes t)) = negb (includes me (likes t))).
  { unfold toggle. destruct (includes me (likes t)) eqn:H.
    - now rewrite includes_without.
    - now rewrite includes_push. }
  rewrite Hflip, negb_involutive in Hrun2.
  exists w1, w2. eexists. split; [exact Hrun1|]. split.
  - rewrite Hrun2. now destruct (includes me (likes t)).
  - split; [exact Hfind2|].
    simpl. split; [apply toggle_twice_includes | now apply toggle_twice_length].
Qed.

(** The two calls of C8 with notification creation rejecting in the first:
    bob's first like of alice's post is answered through the error
    middleware and writes nothing, his second is answered 200, and the post
    ends with bob among its likes and one like more than it started with. *)
Lemma like_twice_counterexample :
  handler (likeTweet Sample.notifications_down 2 10) Sample.start
  = (Next (ServiceError NotificationCreate), Sample.start)
  /\ fst (handler (likeTweet Sample.reliable 2 10) Sample.start)
     = Sent 200 (LikeResult "Tweet liked" 1 true)
  /\ findOne (tweetIs 10) (tweets Sample.start) = Some Sample.hello
  /\ includes 2 (likes Sample.hello) = false
  /\ List.length (likes Sample.hello) = 0
  /\ exists t2,
       findOne (tweetIs 10)
         (tweets (snd (handler (likeTweet Sample.reliable 2 10)
                         (snd (handler (likeTweet Sample.notifications_down 2 10)
                                 Sample.start)))))
       = Some t2
       /\ includes 2 (likes t2) = true
       /\ List.length (likes t2) = 1.
Proof.
  repeat (split; [reflexivity|]). eexists. repeat split; reflexivity.
Qed.

(** C8, as the code has it.  In a settled world (every world the handlers
    leave, whatever failed), with notification creation answering, two
    [likeTweet] requests in a row by the same account on an existing post both
    answer 200, and the post ends with the membership of that account in its
    likes and the like count it started with; the second answer reports that
    count and that membership. *)
Theorem like_twice_restores env me id w t :
  (forall n, notification_ok env n = true) ->
  settled w ->
  findOne (tweetIs id) (tweets w) = Some t ->
  exists w1 w2 t2,
    handler (likeTweet env me id) w
    = (Sent 200
         (LikeResult (if includes me (likes t) then "Tweet unliked" else "Tweet liked")
            (List.length (toggle me (likes t))) (negb (includes me (likes t)))), w1)
    /\ handler (likeTweet env me id) w1
       = (Sent 200
            (LikeResult (if includes me (likes t) then "Tweet liked" else "Tweet unliked")
               (List.length (likes t)) (includes me (likes t))), w2)
    /\ findOne (tweetIs id) (tweets w2) = Some t2
    /\ includes me (likes t2) = includes me (likes t)
    /\ List.length (likes t2) = List.length (likes t).
Proof.
  intros Hok Hc Hfind.
  pose proof (findOne_Some _ _ _ Hfind) as [Ht _].
  destruct (Hc t Ht) as [_ Hst].
  apply like_twice_run; [assumption | assumption | apply Hst | apply Hst].
Qed.

Lemma like_twice_restores_witness :
  exists w1 w2 t2,
    handler (likeTweet Sample.reliable 2 10) Sample.start
    = (Sent 200 (LikeResult "Tweet liked" 1 true), w1)
    /\ handler (likeTweet Sample.reliable 2 10) w1
       = (Sent 200 (LikeResult "Tweet unliked" 0 false), w2)
    /\ findOne (tweetIs 10) (tweets w2) = Some t2
    /\ includes 2 (likes t2) = false
    /\ List.length (likes t2) = 0.
Proof.
  apply (like_twice_restores Sample.reliable 2 10 Sample.start Sample.hello);
    [reflexivity | exact start_settled | reflexivity].
Defined.

(** ** Retweet toggle *)

(** The add transition of [retweetTweet]. *)
Lemma retweetTweet_add env me id w t :
  (forall n, notification_ok env n = true) ->
  findOne (tweetIs id) (tweets w) = Some t ->
  validateText (text t) = [] ->
  validateText (Js.trim (text t)) = [] ->
  includes me (retweets t) = false ->
  exists w1,
    handler (retweetTweet env me id) w
    = (Sent 200 (RetweetResult "Tweet retweeted" (S (List.length (retweets t))) true), w1)
    /\ tweets w1
       = updateOne (tweetIs id) (fun _ => preSave (set_retweets (retweets t ++ [me]) t)) (tweets w)
         ++ [shellFor (next_oid w) me t].
Proof.
  intros Hok Hfind Hval Hvalt Hout.
  pose proof (findOne_tweetIs _ _ _ Hfind) as Hid. subst id.
  assert (Hlen : List.length (retweets t ++ [me]) = S (List.length (retweets t))).
  { rewrite length_app, Nat.add_comm. reflexivity. }
  assert (Hpush : forall d,
             updateOne (tweetIs (t_id t)) (fun _ => d) (tweets w ++ [shellFor (next_oid w) me t])
             = updateOne (tweetIs (t_id t)) (fun _ => d) (tweets w)
               ++ [shellFor (next_oid w) me t]).
  { intros d. apply updateOne_push. exists t. now apply findOne_Some. }
  unfold retweetTweet. exec. rewrite Hfind, Hout. simpl. rewrite Hvalt. simpl.
  destruct (negb (author t =? me)%nat); simpl; rewrite ?Hok; simpl;
    rewrite Hval, Hlen; simpl; (eexists; split; [reflexivity|]); simpl; apply Hpush.
Qed.

(** The remove transition of [retweetTweet]. *)
Lemma retweetTweet_remove env me id w t :
  findOne (tweetIs id) (tweets w) = Some t ->
  validateText (text t) = [] ->
  includes me (retweets t) = true ->
  exists w2,
    handler (retweetTweet env me id) w
    = (Sent 200 (RetweetResult "Retweet undone" (List.length (without me (retweets t))) false), w2)
    /\ tweets w2
       = updateOne (tweetIs id) (fun _ => preSave (set_retweets (without me (retweets t)) t))
           (deleteOne (isShellOf me id) (tweets w)).
Proof.
  intros Hfind Hval Hin.
  pose proof (findOne_tweetIs _ _ _ Hfind) as Hid. subst id.
  unfold retweetTweet. exec. rewrite Hfind, Hin. simpl. rewrite Hval.
  eexists. split; reflexivity.
Qed.







(** ** Post creation *)

Lemma tagIs_tag g d : tagIs g d = true <-> tag d = g.
Proof. apply String.eqb_eq. Qed.

Lemma createTweet_foo_run env me w :
  trending_ok env "foo" = true ->
  exists body w',
    handler (createTweet env me (Some "#Foo bar #foo #FOO") None) w = (Sent 201 body, w')
    /\ tweets w' = tweets w ++ [fooPost (next_oid w) me]
    /\ trending w'
       = match findOne (tagIs "foo") (trending w) with
         | Some _ =>
             updateOne (tagIs "foo")
               (fun d => mkTrending (tr_id d) (tag d) (count d + 1) (category d)
                           (tr_tweets d ++ [next_oid w]))
               (trending w)
         | None => trending w ++ [mkTrending (S (next_oid w)) "foo" 1 "Trending" [next_oid w]]
         end.
Proof.
  intros Hok. unfold createTweet, handler.
  change (negb (Js.truthy (Some "#Foo bar #foo #FOO")) && true) with false. cbv iota.
  rewrite (bind_Go (ret None) _ w None w eq_refl).
  set (w1 := bump (with_tweets (tweets w ++ [fooPost (next_oid w) me]) w)).
  erewrite (bind_Go _ _ w (fooPost (next_oid w) me) w1); [|reflexivity].
  destruct (findOne (tweetIs (next_oid w)) (tweets w1)) as [x|] eqn:Hx.
  2:{ exfalso. unfold w1 in Hx. simpl in Hx. rewrite findOne_push in Hx.
      destruct (findOne _ (tweets w)); [discriminate|].
      unfold tweetIs, fooPost in Hx. simpl in Hx. now rewrite Nat.eqb_refl in Hx. }
  erewrite (bind_Go _ _ w1 (Some (x, option_map view (findOne (userIs (author x)) (users w1)))) w1).
  2:{ unfold Tweet_findById_populated. cbn [t_id fooPost]. now rewrite Hx. }
  change (Js.execAll "@" (Js.toString (Some "#Foo bar #foo #FOO"))) with (@nil string).
  cbv zeta.
  destruct (findOne (tagIs "foo") (trending w)) as [d|] eqn:Hd.
  - set (w2 := with_trending
                 (updateOne (tagIs "foo")
                    (fun d => mkTrending (tr_id d) (tag d) (count d + 1) (category d)
                                (tr_tweets d ++ [next_oid w]))
                    (trending w)) w1).
    erewrite (bind_Go _ _ w1 tt w2).
    2:{ simpl. unfold bind, Trending_findOneAndUpdate. rewrite Hok. simpl. now rewrite Hd. }
    simpl. do 2 eexists. split; [reflexivity|]. split; reflexivity.
  - set (w2 := bump (with_trending
                       (trending w ++ [mkTrending (S (next_oid w)) "foo" 1 "Trending" [next_oid w]])
                       w1)).
    erewrite (bind_Go _ _ w1 tt w2).
    2:{ simpl. unfold bind, Trending_findOneAndUpdate. rewrite Hok. simpl. now rewrite Hd. }
    simpl. do 2 eexists. split; [reflexivity|]. split; reflexivity.
Qed.

(** C3. With the trending upsert for "foo" answering, [createTweet] on the body
    "#Foo bar #foo #FOO" answers 201 and appends one post whose hashtags are
    exactly ["foo"]; the TrendingTopic "foo" ends with its count one higher and
    the post appended to its contributors, or, when there was none, is created
    with count 1 and the post as only contributor; no other tag is touched. *)
Theorem hashtag_dedup env me w :
  trending_ok env "foo" = true ->
  exists body w' post,
    handler (createTweet env me (Some "#Foo bar #foo #FOO") None) w = (Sent 201 body, w')
    /\ tweets w' = tweets w ++ [post]
    /\ t_id post = next_oid w
    /\ hashtags post = ["foo"]
    /\ match findOne (tagIs "foo") (trending w) with
       | Some d =>
           findOne (tagIs "foo") (trending w')
           = Some (mkTrending (tr_id d) "foo" (count d + 1) (category d)
                     (tr_tweets d ++ [t_id post]))
       | None =>
           exists i c,
             findOne (tagIs "foo") (trending w')
             = Some (mkTrending i "foo" 1 c [t_id post])
       end
    /\ (forall g, g <> "foo" ->
          findOne (tagIs g) (trending w') = findOne (tagIs g) (trending w)).
Proof.
  intros Hok. destruct (createTweet_foo_run env me w Hok) as [body [w' [Hrun [Ht Htr]]]].
  exists body, w', (fooPost (next_oid w) me).
  split; [exact Hrun|]. split; [exact Ht|]. split; [reflexivity|]. split; [reflexivity|].
  rewrite Htr. destruct (findOne (tagIs "foo") (trending w)) as [d|] eqn:Hd; split.
  - rewrite (findOne_updateOne_hit _ _ _ _ Hd).
    + apply findOne_Some in Hd. destruct Hd as [_ Hd]. apply tagIs_tag in Hd.
      now rewrite Hd.
    + apply findOne_Some in Hd. apply Hd.
  - intros g Hg. apply findOne_updateOne_miss. intros x Hx. apply tagIs_tag in Hx.
    unfold tagIs. cbn [tag]. rewrite Hx. split; apply String.eqb_neq; congruence.
  - exists (S (next_oid w)), "Trending". rewrite findOne_push, Hd. reflexivity.
  - intros g Hg. rewrite findOne_push. destruct (findOne (tagIs g) (trending w)); [reflexivity|].
    unfold tagIs. cbn [tag]. apply String.eqb_neq in Hg. rewrite String.eqb_sym in Hg.
    now rewrite Hg.
Qed.

Lemma hashtag_dedup_witness :
  exists body w' post,
    handler (createTweet Sample.reliable 1 (Some "#Foo bar #foo #FOO") None) Sample.start
    = (Sent 201 body, w')
    /\ tweets w' = tweets Sample.start ++ [post]
    /\ t_id post = 20
    /\ hashtags post = ["foo"]
    /\ (exists i c, findOne (tagIs "foo") (trending w')
                    = Some (mkTrending i "foo" 1 c [t_id post]))
    /\ (forall g, g <> "foo" ->
          findOne (tagIs g) (trending w') = findOne (tagIs g) (trending Sample.start)).
Proof.
  exact (hashtag_dedup Sample.reliable 1 Sample.start eq_refl).
Defined.

(** C2, as the code has it.  A request with an image and no text, or an
    empty text, passes the handler's own test, uploads the image and is then
    refused by the schema: [text] is required and [text || ''] is the empty
    string.  No post is stored and the error middleware answers 400. *)
Theorem image_only_post_rejected env me path w :
  let outcome :=
    match upload_result env path with
    | Some url =>
        (Next (ValidationError ["Tweet text is required"]),
         with_cloud (cloud w ++ [Uploaded url]) w)
    | None => (Next (ServiceError ImageUpload), w)
    end in
  handler (createTweet env me None (Some path)) w = outcome
  /\ handler (createTweet env me (Some "") (Some path)) w = outcome.
Proof.
  unfold createTweet. exec. simpl.
  destruct (upload_result env path); split; reflexivity.
Qed.

Example image_only_post_rejected_run :
  handler (createTweet Sample.reliable 1 None (Some "cat.png")) Sample.start
  = (Next (ValidationError ["Tweet text is required"]),
     with_cloud [Uploaded "cat.png"] Sample.start)
  /\ statusOf (Next (ValidationError ["Tweet text is required"])) = 400.
Proof. split; reflexivity. Qed.

(** ** Failures of secondary effects *)

Lemma likeTweet_notification_failure env me id w t :
  (forall n, notification_ok env n = false) ->
  findOne (tweetIs id) (tweets w) = Some t ->
  includes me (likes t) = false ->
  author t <> me ->
  handler (likeTweet env me id) w = (Next (ServiceError NotificationCreate), w).
Proof.
  intros Hdown Hfind Hout Hne. unfold likeTweet. exec. rewrite Hfind, Hout. simpl.
  destruct (Nat.eqb_spec (author t) me); [contradiction|]. simpl. now rewrite Hdown.
Qed.

Lemma retweetTweet_notification_failure env me id w t :
  (forall n, notification_ok env n = false) ->
  findOne (tweetIs id) (tweets w) = Some t ->
  validateText (Js.trim (text t)) = [] ->
  includes me (retweets t) = false ->
  author t <> me ->
  handler (retweetTweet env me id) w
  = (Next (ServiceError NotificationCreate),
     bump (with_tweets (tweets w ++ [shellFor (next_oid w) me t]) w)).
Proof.
  intros Hdown Hfind Hvalt Hout Hne. unfold retweetTweet. exec. rewrite Hfind, Hout. simpl.
  rewrite Hvalt. simpl.
  destruct (Nat.eqb_spec (author t) me); [contradiction|]. simpl. now rewrite Hdown.
Qed.

Lemma replyToTweet_notification_failure env me id text0 w parent :
  (forall n, notification_ok env n = false) ->
  validateText (Js.trim (Js.orEmpty text0)) = [] ->
  findOne (tweetIs id) (tweets w) = Some parent ->
  validateText (text parent) = [] ->
  author parent <> me ->
  handler (replyToTweet env me id text0) w
  = (Next (ServiceError NotificationCreate),
     bump (with_tweets
             (updateOne (tweetIs id)
                (fun _ => preSave (set_replies (replies parent ++ [next_oid w]) parent))
                (tweets w)
              ++ [replyFor (next_oid w) me id text0]) w)).
Proof.
  intros Hdown Hvalt Hfind Hval Hne.
  pose proof (findOne_tweetIs _ _ _ Hfind) as Hid. subst id.
  assert (Htruthy : Js.truthy text0 = true).
  { destruct text0 as [[|c s]|]; try reflexivity; discriminate Hvalt. }
  unfold replyToTweet. rewrite Htruthy. simpl negb. cbv iota. exec. rewrite Hfind. simpl.
  rewrite Hvalt. simpl. rewrite Hval. simpl.
  destruct (Nat.eqb_spec (author parent) me); [contradiction|]. simpl.
  rewrite Hdown. f_equal. unfold bump, with_tweets. simpl. f_equal.
  apply updateOne_push. exists parent. now apply findOne_Some.
Qed.

Lemma followUser_notification_failure env a (b : RouteId) w ua ub :
  (forall n, notification_ok env n = false) ->
  a <> castId b ->
  findOne (userIs a) (users w) = Some ua ->
  findOne (userIs (castId b)) (users w) = Some ub ->
  includes a (followers ub) = false ->
  exists w',
    handler (followUser env a b) w = (Next (ServiceError NotificationCreate), w')
    /\ findOne (userIs a) (users w') = Some (set_following (following ua ++ [castId b]) ua)
    /\ findOne (userIs (castId b)) (users w') = Some (set_followers (followers ub ++ [a]) ub).
Proof.
  intros Hdown Hne Ha Hb Hout.
  pose proof (findOne_userIs _ _ _ Ha) as Haid. pose proof (findOne_userIs _ _ _ Hb) as Hbid.
  unfold followUser. exec. rewrite Hb, (spells_other a b Hne), Hout. simpl.
  rewrite Hbid, (findOne_user_other a (castId b) (set_followers _ ub) (users w) Hne Hbid), Ha.
  simpl. rewrite Hdown, Haid. eexists. split; [reflexivity|]. simpl. split.
  - apply (findOne_user_saved a _ ua); [|exact Haid].
    now rewrite (findOne_user_other a (castId b) (set_followers _ ub) (users w) Hne Hbid).
  - rewrite (findOne_user_other (castId b) a (set_following _ ua)); [|congruence|exact Haid].
    now apply (findOne_user_saved (castId b) _ ub).
Qed.

Lemma deleteTweet_destroy_failure env me id w t url :
  (forall p, destroy_ok env p = false) ->
  findOne (tweetIs id) (tweets w) = Some t ->
  author t = me ->
  imageUrl t = Some url -> url <> "" ->
  handler (deleteTweet env me id) w = (Next (ServiceError ImageDestroy), w).
Proof.
  intros Hdown Hfind Hme Himg Hurl. unfold deleteTweet. exec. rewrite Hfind, Himg.
  rewrite Hme, Nat.eqb_refl. simpl.
  apply String.eqb_neq in Hurl. rewrite Hurl. simpl. now rewrite Hdown.
Qed.

(** [createTweet] up to the stored post, for a text that passes the schema. *)
Lemma createTweet_stored env me text0 file w (k : Tweet -> M Outcome) :
  uploads env file ->
  validateText (Js.trim (Js.orEmpty text0)) = [] ->
  exists w1,
    tweets w1 = tweets w ++ [postFor (next_oid w) me text0 (imageFor env file)]
    /\ users w1 = users w
    /\ (imageUrl0 <- match file with
                     | Some path => (url <- cloudinary_upload env path ;; ret (Some url))
                     | None => ret None
                     end ;;
        tweet <- Tweet_create
                   (mkTweet 0 (Js.orEmpty text0) me imageUrl0 [] [] [] None false false None [] []) ;;
        k tweet)%handler w
       = k (postFor (next_oid w) me text0 (imageFor env file)) w1.
Proof.
  intros Hup Hval. destruct file as [path|]; simpl.
  - destruct (upload_result env path) as [url|] eqn:Hurl; [|now destruct (Hup path eq_refl)].
    exists (bump (with_tweets (tweets w ++ [postFor (next_oid w) me text0 (Some url)])
                    (with_cloud (cloud w ++ [Uploaded url]) w))).
    split; [reflexivity|]. split; [reflexivity|].
    erewrite (bind_Go _ _ w (Some url) (with_cloud (cloud w ++ [Uploaded url]) w)).
    2:{ unfold bind, cloudinary_upload. now rewrite Hurl. }
    apply bind_Go. unfold Tweet_create. simpl. now rewrite Hval.
  - exists (bump (with_tweets (tweets w ++ [postFor (next_oid w) me text0 None]) w)).
    split; [reflexivity|]. split; [reflexivity|].
    rewrite (bind_Go (ret None) _ w None w eq_refl).
    apply bind_Go. unfold Tweet_create. simpl. now rewrite Hval.
Qed.

Lemma valid_text_truthy text0 :
  validateText (Js.trim (Js.orEmpty text0)) = [] -> Js.truthy text0 = true.
Proof. destruct text0 as [[|c s]|]; try reflexivity; discriminate. Qed.

Lemma createTweet_trending_failure env me text0 file w :
  (forall g, trending_ok env g = false) ->
  uploads env file ->
  validateText (Js.trim (Js.orEmpty text0)) = [] ->
  hashtags (postFor (next_oid w) me text0 (imageFor env file)) <> [] ->
  exists w',
    handler (createTweet env me text0 file) w = (Next (ServiceError TrendingUpsert), w')
    /\ tweets w' = tweets w ++ [postFor (next_oid w) me text0 (imageFor env file)].
Proof.
  intros Hdown Hup Hval Htags.
  unfold createTweet, handler. rewrite (valid_text_truthy _ Hval). cbn [negb andb].
  match goal with
  | |- context [bind _ (fun imageUrl0 => bind _ ?k)] =>
      destruct (createTweet_stored env me text0 file w k Hup Hval) as [w1 [Ht [_ Hrun]]]
  end.
  rewrite Hrun. clear Hrun.
  erewrite bind_Go; [|reflexivity].
  destruct (hashtags (postFor (next_oid w) me text0 (imageFor env file))) as [|g gs];
    [congruence|].
  erewrite bind_Stop; cycle 1.
  - simpl. unfold bind, Trending_findOneAndUpdate. now rewrite Hdown.
  - eexists. split; [reflexivity | exact Ht].
Qed.

Lemma forEach_upserts env i tags w1 :
  (forall g, trending_ok env g = true) ->
  exists w2,
    forEach tags (fun g => Trending_findOneAndUpdate env g i) w1 = (Go tt, w2)
    /\ tweets w2 = tweets w1 /\ users w2 = users w1.
Proof.
  intros Hok. revert w1. induction tags as [|g gs IH]; intros w1; simpl.
  - now exists w1.
  - unfold bind at 1. unfold Trending_findOneAndUpdate at 1. rewrite Hok.
    destruct (findOne (tagIs g) (trending w1));
      match goal with
      | |- context [forEach gs _ ?w] => destruct (IH w) as [w2 [Hrun [Ht Hu]]]
      end; exists w2; (split; [exact Hrun | split; assumption]).
Qed.

Lemma Permutation_insertBy {A} (first : A -> A -> bool) x l :
  Permutation (insertBy first x l) (x :: l).
Proof.
  induction l as [|y l IH]; simpl; [reflexivity|].
  destruct (first x y); [reflexivity|].
  rewrite IH. apply perm_swap.
Qed.

Lemma Permutation_sortBy {A} (first : A -> A -> bool) l : Permutation (sortBy first l) l.
Proof.
  induction l as [|x l IH]; simpl; [reflexivity|].
  rewrite Permutation_insertBy. now constructor.
Qed.

Lemma Permutation_filtered {A} (f : A -> bool) l l' :
  Permutation l l' -> Permutation (filter f l) (filter f l').
Proof.
  induction 1 as [|x l l' _ IH|x y l|l l' l'' _ IH1 _ IH2]; simpl.
  - reflexivity.
  - destruct (f x); [now constructor | assumption].
  - destruct (f x), (f y); try reflexivity. apply perm_swap.
  - now transitivity (filter f l').
Qed.

(** Whatever the order of the store, the loop of [createTweet] over the
    mentioned accounts meets the accounts of [mentioned]. *)
Lemma mentioned_in_order env me text0 w :
  Permutation
    (filter (fun u => negb (u_id u =? me)%nat)
       (sortBy (natural_order env)
          (filter (fun u => existsb (String.eqb (username u)) (Js.execAll "@" (Js.toString text0)))
             (users w))))
    (mentioned me text0 w).
Proof. unfold mentioned. apply Permutation_filtered, Permutation_sortBy. Qed.

Lemma forEach_mentions_down env me tw (us : list User) w :
  (forall n, notification_ok env n = false) ->
  filter (fun u => negb (u_id u =? me)%nat) us <> [] ->
  forEach us
    (fun user => when (negb (u_id user =? me)%nat)
                   (Notification_create env (u_id user) me mention tw)) w
  = (Stop (Next (ServiceError NotificationCreate)), w).
Proof.
  intros Hdown. induction us as [|u us IH]; simpl; [congruence|].
  destruct (negb (u_id u =? me)%nat); simpl; intros Hne.
  - apply bind_Stop. unfold Notification_create. now rewrite Hdown.
  - rewrite (bind_Go (ret tt) _ w tt w eq_refl). now apply IH.
Qed.

Lemma createTweet_mention_failure env me text0 file w :
  (forall n, notification_ok env n = false) ->
  (forall g, trending_ok env g = true) ->
  uploads env file ->
  validateText (Js.trim (Js.orEmpty text0)) = [] ->
  mentioned me text0 w <> [] ->
  exists w',
    handler (createTweet env me text0 file) w = (Next (ServiceError NotificationCreate), w')
    /\ tweets w' = tweets w ++ [postFor (next_oid w) me text0 (imageFor env file)].
Proof.
  intros Hdown Hok Hup Hval Hment.
  assert (Hnames : Js.execAll "@" (Js.toString text0) <> []).
  { intros Hnil. apply Hment. unfold mentioned. rewrite Hnil. simpl.
    induction (users w) as [|u us IH]; [reflexivity | exact IH]. }
  unfold createTweet, handler. rewrite (valid_text_truthy _ Hval). cbn [negb andb].
  match goal with
  | |- context [bind _ (fun imageUrl0 => bind _ ?k)] =>
      destruct (createTweet_stored env me text0 file w k Hup Hval) as [w1 [Ht [Hu Hrun]]]
  end.
  rewrite Hrun. clear Hrun.
  erewrite bind_Go; [|reflexivity].
  set (post := postFor (next_oid w) me text0 (imageFor env file)) in *.
  assert (Htags : exists w2,
             when (0 <? List.length (hashtags post))%nat
               (forEach (hashtags post) (fun g => Trending_findOneAndUpdate env g (t_id post))) w1
             = (Go tt, w2) /\ tweets w2 = tweets w1 /\ users w2 = users w1).
  { destruct (hashtags post) as [|g gs]; [now exists w1|].
    change (0 <? List.length (g :: gs))%nat with true. cbn [when].
    now apply forEach_upserts. }
  destruct Htags as [w2 [Hrun2 [Ht2 Hu2]]].
  rewrite (bind_Go _ _ w1 tt w2 Hrun2). cbv zeta.
  erewrite bind_Stop; cycle 1.
  - destruct (Js.execAll "@" (Js.toString text0)) as [|nm nms] eqn:Hn; [congruence|].
    change (0 <? List.length (nm :: nms))%nat with true. cbn [when].
    erewrite bind_Go; [|reflexivity].
    apply forEach_mentions_down; [assumption|].
    rewrite Hu2, Hu, <- Hn. intros Hnil. apply Hment.
    apply Permutation_nil. rewrite <- Hnil. apply mentioned_in_order.
  - eexists. split; [reflexivity | congruence].
Qed.

(** C1 fails on the code: with notification creation rejecting, bob's like of
    alice's post is answered through the error middleware (500) and the like
    is not stored. *)
Lemma notification_failure_counterexample :
  handler (likeTweet Sample.notifications_down 2 10) Sample.start
  = (Next (ServiceError NotificationCreate), Sample.start)
  /\ statusOf (Next (ServiceError NotificationCreate)) = 500
  /\ ~ (exists body w',
          handler (likeTweet Sample.notifications_down 2 10) Sample.start = (Sent 200 body, w')
          /\ exists t, findOne (tweetIs 10) (tweets w') = Some t /\ In 2 (likes t)).
Proof.
  split; [reflexivity|]. split; [reflexivity|].
  intros [body [w' [Hrun _]]]. vm_compute in Hrun. discriminate Hrun.
Qed.

(** C1, as the code has it.  No handler catches the failure of a secondary
    effect locally: the rejected [await] leaves the handler through its one
    [catch] and [next(error)], so the caller gets an error instead of the
    success answer.  What was saved before the failing step stays saved (the
    retweet shell, the reply and its link in the parent, both follow edges,
    the new post); [likeTweet] and [deleteTweet] fail with the world as it
    was, since the notification, respectively the image cleanup, comes before
    their write. *)
Theorem side_effect_failure_reaches_caller env w :
  ((forall n, notification_ok env n = false) ->
   (forall me id t,
      findOne (tweetIs id) (tweets w) = Some t -> author t <> me ->
      (includes me (likes t) = false ->
       handler (likeTweet env me id) w = (Next (ServiceError NotificationCreate), w))
      /\
      (includes me (retweets t) = false -> validateText (Js.trim (text t)) = [] ->
       handler (retweetTweet env me id) w
       = (Next (ServiceError NotificationCreate),
          bump (with_tweets (tweets w ++ [shellFor (next_oid w) me t]) w)))
      /\
      (forall text0,
         validateText (Js.trim (Js.orEmpty text0)) = [] -> validateText (text t) = [] ->
         handler (replyToTweet env me id text0) w
         = (Next (ServiceError NotificationCreate),
            bump (with_tweets
                    (updateOne (tweetIs id)
                       (fun _ => preSave (set_replies (replies t ++ [next_oid w]) t))
                       (tweets w)
                     ++ [replyFor (next_oid w) me id text0]) w))))
   /\
   (forall a (b : RouteId) ua ub,
      a <> castId b ->
      findOne (userIs a) (users w) = Some ua ->
      findOne (userIs (castId b)) (users w) = Some ub ->
      includes a (followers ub) = false ->
      exists w',
        handler (followUser env a b) w = (Next (ServiceError NotificationCreate), w')
        /\ findOne (userIs a) (users w') = Some (set_following (following ua ++ [castId b]) ua)
        /\ findOne (userIs (castId b)) (users w')
           = Some (set_followers (followers ub ++ [a]) ub))
   /\
   (forall me text0 file,
      (forall g, trending_ok env g = true) -> uploads env file ->
      validateText (Js.trim (Js.orEmpty text0)) = [] ->
      mentioned me text0 w <> [] ->
      exists w',
        handler (createTweet env me text0 file) w = (Next (ServiceError NotificationCreate), w')
        /\ tweets w' = tweets w ++ [postFor (next_oid w) me text0 (imageFor env file)]))
  /\
  ((forall g, trending_ok env g = false) ->
   forall me text0 file,
     uploads env file ->
     validateText (Js.trim (Js.orEmpty text0)) = [] ->
     hashtags (postFor (next_oid w) me text0 (imageFor env file)) <> [] ->
     exists w',
       handler (createTweet env me text0 file) w = (Next (ServiceError TrendingUpsert), w')
       /\ tweets w' = tweets w ++ [postFor (next_oid w) me text0 (imageFor env file)])
  /\
  ((forall p, destroy_ok env p = false) ->
   forall me id t url,
     findOne (tweetIs id) (tweets w) = Some t -> author t = me ->
     imageUrl t = Some url -> url <> "" ->
     handler (deleteTweet env me id) w = (Next (ServiceError ImageDestroy), w)).
Proof.
  split; [|split].
  - intros Hdown. split; [|split].
    + intros me id t Hfind Hne. split; [|split].
      * intros Hout. now apply (likeTweet_notification_failure env me id w t).
      * intros Hout Hvalt. now apply retweetTweet_notification_failure.
      * intros text0 Hvalt Hval. now apply replyToTweet_notification_failure.
    + intros a b ua ub. now apply followUser_notification_failure.
    + intros me text0 file. now apply createTweet_mention_failure.
  - intros Hdown me text0 file. now apply createTweet_trending_failure.
  - intros Hdown me id t url. now apply deleteTweet_destroy_failure.
Qed.

Lemma side_effect_failure_reaches_caller_witness :
  handler (likeTweet Sample.notifications_down 2 10) Sample.start
  = (Next (ServiceError NotificationCreate), Sample.start)
  /\ fst (handler (retweetTweet Sample.notifications_down 2 10) Sample.start)
     = Next (ServiceError NotificationCreate)
  /\ fst (handler (replyToTweet Sample.notifications_down 2 10 (Some "hi")) Sample.start)
     = Next (ServiceError NotificationCreate)
  /\ fst (handler (followUser Sample.notifications_down 1 (mkRouteId 2 true)) Sample.start)
     = Next (ServiceError NotificationCreate)
  /\ fst (handler (createTweet Sample.notifications_down 1 (Some "hi @bob #x") (Some "cat.png"))
            Sample.start)
     = Next (ServiceError NotificationCreate)
  /\ fst (handler (createTweet Sample.trending_down 1 (Some "Hello #world") None) Sample.start)
     = Next (ServiceError TrendingUpsert)
  /\ handler (deleteTweet Sample.destroy_down 1 11) Sample.start
     = (Next (ServiceError ImageDestroy), Sample.start).
Proof.
  destruct (side_effect_failure_reaches_caller Sample.notifications_down Sample.start)
    as [Hn _].
  destruct (side_effect_failure_reaches_caller Sample.trending_down Sample.start)
    as [_ [Ht _]].
  destruct (side_effect_failure_reaches_caller Sample.destroy_down Sample.start)
    as [_ [_ Hd]].
  destruct (Hn (fun _ => eq_refl)) as [Hpost [Hfollow Hmention]].
  destruct (Hpost 2 10 Sample.hello eq_refl) as [Hlike [Hretweet Hreply]];
    [simpl; discriminate|].
  split; [exact (Hlike eq_refl)|].
  split; [now rewrite (Hretweet eq_refl eq_refl)|].
  split; [now rewrite (Hreply (Some "hi") eq_refl eq_refl)|].
  split.
  { destruct (Hfollow 1 (mkRouteId 2 true) Sample.alice Sample.bob) as [w' [Hrun _]];
      [discriminate | reflexivity | reflexivity | reflexivity | now rewrite Hrun]. }
  split.
  { destruct (Hmention 1 (Some "hi @bob #x") (Some "cat.png")) as [w' [Hrun _]];
      [reflexivity | intros path _; discriminate | reflexivity
      | vm_compute; discriminate | now rewrite Hrun]. }
  split.
  { destruct (Ht (fun _ => eq_refl) 1 (Some "Hello #world") None) as [w' [Hrun _]];
      [intros path; discriminate | reflexivity | vm_compute; discriminate | now rewrite Hrun]. }
  apply (Hd (fun _ => eq_refl) 1 11 Sample.photo
           "https://res.cloudinary.com/demo/chirp-social/tweets/abc123.jpg");
    [reflexivity | reflexivity | reflexivity | discriminate].
Defined.

(** * Beyond the engagement handlers *)

(** ** Refusals *)

Lemma raises_ret {A} (a : A) : raises (ret a).
Proof. intros w o w' H. discriminate H. Qed.

Lemma raises_throw {A} e : raises (@throw A e).
Proof. intros w o w' [= <- _]. now exists e. Qed.

Lemma raises_bind {A B} (m : M A) (k : A -> M B) :
  raises m -> (forall a, raises (k a)) -> raises (bind m k).
Proof.
  intros Hm Hk w o w'. unfold bind. destruct (m w) as [[a|o1] w1] eqn:Hmw.
  - apply Hk.
  - intros [= <- <-]. now apply (Hm w o1 w1).
Qed.

Lemma raises_when b (m : M unit) : raises m -> raises (when b m).
Proof. intros Hm. destruct b; simpl; [assumption | apply raises_ret]. Qed.

Lemma raises_forEach {A} (xs : list A) (body : A -> M unit) :
  (forall x, raises (body x)) -> raises (forEach xs body).
Proof.
  intros Hb. induction xs as [|x xs IH]; simpl.
  - apply raises_ret.
  - apply raises_bind; [apply Hb | intros _; exact IH].
Qed.

(** A model method raises. *)
Ltac method_raises :=
  let w := fresh "w" in let o := fresh "o" in let w' := fresh "w'" in
  intros w o w';
  cbv [User_findById User_save User_find_usernameIn Tweet_findById Tweet_create Tweet_save
       Tweet_findByIdAndUpdate Tweet_deleteOne Tweet_remove Notification_create
       Notification_deleteMany Trending_findOneAndUpdate cloudinary_upload cloudinary_destroy
       Tweet_findById_populated];
  repeat match goal with
         | |- context [match ?x with _ => _ end] => destruct x
         end;
  intros [= <- _]; eexists; reflexivity.

Ltac raises_walk :=
  repeat first
    [ apply raises_ret
    | apply raises_throw
    | apply raises_bind
    | apply raises_when
    | apply raises_forEach
    | match goal with
      | |- forall _, _ => intro
      | |- raises (match ?x with _ => _ end) => destruct x
      | |- raises (let _ := _ in _) => cbv zeta
      end ];
  try method_raises.

Lemma answersOnly_bind {A} P (m : M A) (k : A -> M Outcome) :
  raises m -> (forall a, answersOnly P (k a)) -> answersOnly P (bind m k).
Proof.
  intros Hm Hk w s b. unfold handler, bind.
  destruct (m w) as [[a|o1] w1] eqn:Hmw.
  - apply (Hk a w1 s b).
  - simpl. intros ->. destruct (Hm w _ w1 Hmw) as [e He]. discriminate He.
Qed.

Lemma createTweet_answers env me text0 file w s b :
  fst (handler (createTweet env me text0 file) w) = Sent s b ->
  s = 201 \/ (s = 400 /\ snd (handler (createTweet env me text0 file) w) = w).
Proof.
  unfold createTweet.
  destruct (negb (Js.truthy text0) && match file with Some _ => false | None => true end).
  - intros [= <- _]. right. now split.
  - intros H. left. revert w s b H.
    change (answersOnly (fun s => s = 201)
              (imageUrl0 <- match file with
                            | Some path => (url <- cloudinary_upload env path ;; ret (Some url))
                            | None => ret None
                            end ;;
               tweet <- Tweet_create
                          (mkTweet 0 (Js.orEmpty text0) me imageUrl0 [] [] [] None false false None [] []) ;;
               populatedTweet <- Tweet_findById_populated (t_id tweet) ;;
               when (0 <? List.length (hashtags tweet))%nat
                 (forEach (hashtags tweet) (fun g => Trending_findOneAndUpdate env g (t_id tweet))) ;;
               let mentionedUsernames := Js.execAll "@" (Js.toString text0) in
               when (0 <? List.length mentionedUsernames)%nat
                 (mentionedUsers <- User_find_usernameIn env mentionedUsernames ;;
                  forEach mentionedUsers
                    (fun user =>
                       when (negb (u_id user =? me)%nat)
                         (Notification_create env (u_id user) me mention (Some (t_id tweet))))) ;;
               match populatedTweet with
               | None => throw (TypeError "Cannot read properties of null (reading '_id')")
               | Some (t, a) => ret (Sent 201 (TweetCreated (t_id t) (text t) a (imageUrl t)))
               end)).
    apply answersOnly_bind; [raises_walk|]. intros imageUrl0.
    apply answersOnly_bind; [raises_walk|]. intros tweet.
    apply answersOnly_bind; [raises_walk|]. intros populatedTweet.
    apply answersOnly_bind; [raises_walk|]. intros _. cbv zeta.
    apply answersOnly_bind; [raises_walk|]. intros _.
    intros w s b. destruct populatedTweet as [[t a]|]; simpl; [now intros [= <- _] | discriminate].
Qed.

(** Closes a leaf of a handler run: an answer that is not a success left the
    world alone. *)
Ltac refusal_leaf :=
  simpl; intros Hs H200 H201;
  first [ reflexivity | discriminate Hs | (injection Hs as Hs _; congruence) ].

Ltac split_run :=
  repeat (match goal with
          | |- context [match ?x with _ => _ end] =>
              lazymatch x with
              | context [match _ with _ => _ end] => fail
              | _ => destruct x
              end
          end; cbv beta iota).

Lemma followUser_refusal env me id w s b :
  fst (handler (followUser env me id) w) = Sent s b -> s <> 200 -> s <> 201 ->
  snd (handler (followUser env me id) w) = w.
Proof. unfold followUser. exec. split_run; refusal_leaf. Qed.

Lemma unfollowUser_refusal me id w s b :
  fst (handler (unfollowUser me id) w) = Sent s b -> s <> 200 -> s <> 201 ->
  snd (handler (unfollowUser me id) w) = w.
Proof. unfold unfollowUser. exec. split_run; refusal_leaf. Qed.

Lemma likeTweet_refusal env me id w s b :
  fst (handler (likeTweet env me id) w) = Sent s b -> s <> 200 -> s <> 201 ->
  snd (handler (likeTweet env me id) w) = w.
Proof. unfold likeTweet. exec. split_run; refusal_leaf. Qed.

Lemma retweetTweet_refusal env me id w s b :
  fst (handler (retweetTweet env me id) w) = Sent s b -> s <> 200 -> s <> 201 ->
  snd (handler (retweetTweet env me id) w) = w.
Proof. unfold retweetTweet. exec. split_run; refusal_leaf. Qed.

Lemma replyToTweet_refusal env me id text0 w s b :
  fst (handler (replyToTweet env me id text0) w) = Sent s b -> s <> 200 -> s <> 201 ->
  snd (handler (replyToTweet env me id text0) w) = w.
Proof. unfold replyToTweet. exec. split_run; refusal_leaf. Qed.

Lemma deleteTweet_refusal env me id w s b :
  fst (handler (deleteTweet env me id) w) = Sent s b -> s <> 200 -> s <> 201 ->
  snd (handler (deleteTweet env me id) w) = w.
Proof. unfold deleteTweet. exec. split_run; refusal_leaf. Qed.

(** X1. Whenever a handler of the engagement subsystem answers with a status
    other than 200 or 201 (its own 400, 403 or 404), it has written nothing:
    the world is the one it was given. *)
Theorem refusal_leaves_world env r w s b :
  fst (serve env r w) = Sent s b -> s <> 200 -> s <> 201 -> snd (serve env r w) = w.
Proof.
  destruct r; unfold serve.
  - intros Hs H200 H201. destruct (createTweet_answers _ _ _ _ _ _ _ Hs) as [->|[_ Hw]];
      [congruence | exact Hw].
  - apply likeTweet_refusal.
  - apply retweetTweet_refusal.
  - apply replyToTweet_refusal.
  - apply deleteTweet_refusal.
  - apply followUser_refusal.
  - apply unfollowUser_refusal.
Qed.

Lemma refusal_leaves_world_witness :
  snd (serve Sample.reliable (DeleteTweet 2 10) Sample.start) = Sample.start
  /\ snd (serve Sample.reliable (FollowUser 1 (mkRouteId 1 true)) Sample.start) = Sample.start
  /\ snd (serve Sample.reliable (LikeTweet 1 99) Sample.start) = Sample.start.
Proof.
  split; [|split].
  - apply (refusal_leaves_world Sample.reliable (DeleteTweet 2 10) Sample.start 403
             (Message "Not authorized to delete this tweet")); [reflexivity | lia | lia].
  - apply (refusal_leaves_world Sample.reliable (FollowUser 1 (mkRouteId 1 true)) Sample.start 400
             (Message "You cannot follow yourself")); [reflexivity | lia | lia].
  - apply (refusal_leaves_world Sample.reliable (LikeTweet 1 99) Sample.start 404
             (Message "Tweet not found")); [reflexivity | lia | lia].
Defined.

(** ** The follow graph *)

Lemma findOne_user_unique c u :
  NoDup (map u_id c) -> In u c -> findOne (userIs (u_id u)) c = Some u.
Proof.
  unfold findOne, userIs. induction c as [|d c IH]; simpl; [tauto|].
  intros Hnd. inversion Hnd as [|? ? Hni Hnd']; subst. intros [->|Hin].
  - now rewrite Nat.eqb_refl.
  - destruct (Nat.eqb_spec (u_id d) (u_id u)) as [Heq|_]; [|now apply IH].
    exfalso. apply Hni. rewrite Heq. now apply in_map.
Qed.

(** With unique ids, saving the account [i] is a pointwise rewrite of the
    collection. *)
Lemma user_save_as_map i (f : User -> User) c u :
  NoDup (map u_id c) -> findOne (userIs i) c = Some u ->
  updateOne (userIs i) (fun _ => f u) c
  = map (fun x => if (u_id x =? i)%nat then f x else x) c.
Proof.
  unfold findOne, userIs. induction c as [|d c IH]; simpl; [discriminate|].
  intros Hnd. inversion Hnd as [|? ? Hni Hnd']; subst.
  destruct (Nat.eqb_spec (u_id d) i) as [Heq|Hne].
  - intros [= ->]. f_equal. symmetry. rewrite <- (map_id c) at 2. apply map_ext_in.
    intros x Hx. destruct (Nat.eqb_spec (u_id x) i) as [Hxi|]; [|reflexivity].
    exfalso. apply Hni. rewrite Heq, <- Hxi. now apply in_map.
  - intros Hf. f_equal. now apply IH.
Qed.

Lemma ids_map_followed a b c : map u_id (map (followed a b) c) = map u_id c.
Proof.
  rewrite map_map. apply map_ext. intros x. unfold followed. cbv zeta.
  destruct (u_id x =? b)%nat; simpl; now destruct (u_id x =? a)%nat.
Qed.

Lemma ids_map_unfollowed a b c : map u_id (map (unfollowed a b) c) = map u_id c.
Proof.
  rewrite map_map. apply map_ext. intros x. unfold unfollowed. cbv zeta.
  destruct (u_id x =? b)%nat; simpl; now destruct (u_id x =? a)%nat.
Qed.

(** Two saves in a row, the second of the account [a] as it is after the
    first, as one pointwise rewrite. *)
Lemma saves_as_map a b (f g : User -> User) c ub ua1 :
  NoDup (map u_id c) ->
  (forall x, u_id (f x) = u_id x) ->
  findOne (userIs b) c = Some ub ->
  findOne (userIs a) (updateOne (userIs b) (fun _ => f ub) c) = Some ua1 ->
  updateOne (userIs a) (fun _ => g ua1) (updateOne (userIs b) (fun _ => f ub) c)
  = map (fun x => let x := if (u_id x =? b)%nat then f x else x in
                  if (u_id x =? a)%nat then g x else x) c.
Proof.
  intros Hnd Hf Hb Ha1.
  rewrite (user_save_as_map b f c ub Hnd Hb) in Ha1 |- *.
  set (c1 := map (fun x => if (u_id x =? b)%nat then f x else x) c) in *.
  assert (Hnd1 : NoDup (map u_id c1)).
  { unfold c1. rewrite map_map. erewrite map_ext; [exact Hnd|].
    intros x. simpl. destruct (u_id x =? b)%nat; [apply Hf | reflexivity]. }
  rewrite (user_save_as_map a g c1 ua1 Hnd1 Ha1).
  unfold c1. now rewrite map_map.
Qed.

(** The requester is still there after the save of the target. *)
Lemma requester_after_save a b (f : User -> User) c ua ub :
  (forall x, u_id (f x) = u_id x) ->
  findOne (userIs a) c = Some ua -> findOne (userIs b) c = Some ub ->
  exists ua1, findOne (userIs a) (updateOne (userIs b) (fun _ => f ub) c) = Some ua1.
Proof.
  intros Hf Ha Hb. pose proof (findOne_userIs _ _ _ Hb) as Hbid.
  destruct (Nat.eq_dec a b) as [->|Hne].
  - exists (f ub). apply (findOne_user_saved b _ ub); [assumption | now rewrite Hf].
  - exists ua. rewrite findOne_user_other; [assumption | assumption | now rewrite Hf].
Qed.

Lemma graphOk_followed a b c : graphOk c -> graphOk (map (followed a b) c).
Proof.
  intros [Hnd Hsym]. split; [now rewrite ids_map_followed|].
  intros x' y' Hx Hy. apply in_map_iff in Hx, Hy.
  destruct Hx as [x [<- Hx]]. destruct Hy as [y [<- Hy]].
  specialize (Hsym x y Hx Hy). unfold followed. cbv zeta.
  destruct (Nat.eqb_spec (u_id x) b) as [Hxb|Hxb]; simpl;
    destruct (Nat.eqb_spec (u_id x) a) as [Hxa|Hxa]; simpl;
    destruct (Nat.eqb_spec (u_id y) b) as [Hyb|Hyb]; simpl;
    destruct (Nat.eqb_spec (u_id y) a) as [Hya|Hya]; simpl;
    rewrite ?in_app_iff; simpl; try congruence; intuition congruence.
Qed.

Lemma graphOk_unfollowed a b c : graphOk c -> graphOk (map (unfollowed a b) c).
Proof.
  intros [Hnd Hsym]. split; [now rewrite ids_map_unfollowed|].
  intros x' y' Hx Hy. apply in_map_iff in Hx, Hy.
  destruct Hx as [x [<- Hx]]. destruct Hy as [y [<- Hy]].
  specialize (Hsym x y Hx Hy). unfold unfollowed. cbv zeta.
  destruct (Nat.eqb_spec (u_id x) b) as [Hxb|Hxb]; simpl;
    destruct (Nat.eqb_spec (u_id x) a) as [Hxa|Hxa]; simpl;
    destruct (Nat.eqb_spec (u_id y) b) as [Hyb|Hyb]; simpl;
    destruct (Nat.eqb_spec (u_id y) a) as [Hya|Hya]; simpl;
    rewrite ?In_without; try congruence; intuition congruence.
Qed.

(** [followUser] past its tests, with unique account ids. *)
Lemma followUser_run env a b w ua ub :
  NoDup (map u_id (users w)) -> spells a b = false ->
  findOne (userIs a) (users w) = Some ua ->
  findOne (userIs (castId b)) (users w) = Some ub ->
  includes a (followers ub) = false ->
  handler (followUser env a b) w
  = (let w' := with_users (map (followed a (castId b)) (users w)) w in
     let n := mkNotification (next_oid w) (castId b) a follow None false in
     if notification_ok env n
     then (Sent 200 (Message "User followed successfully"),
           bump (with_notifications (notifications w ++ [n]) w'))
     else (Next (ServiceError NotificationCreate), w')).
Proof.
  intros Hnd Hsp Ha Hb Hout.
  pose proof (findOne_userIs _ _ _ Hb) as Hbid.
  destruct (requester_after_save a (castId b) (fun x => set_followers (followers x ++ [a]) x)
              (users w) ua ub (fun _ => eq_refl) Ha Hb) as [ua1 Ha1].
  pose proof (findOne_userIs _ _ _ Ha1) as Haid1.
  unfold followUser. exec. rewrite Hb, Hsp, Hout. simpl.
  rewrite Hbid, Ha1. simpl. rewrite Haid1.
  rewrite (saves_as_map a (castId b) (fun x => set_followers (followers x ++ [a]) x)
             (fun x => set_following (following x ++ [castId b]) x) (users w) ub ua1
             Hnd (fun _ => eq_refl) Hb Ha1).
  now destruct (notification_ok env _).
Qed.

(** [unfollowUser] past its tests, with unique account ids. *)
Lemma unfollowUser_run a b w ua ub :
  NoDup (map u_id (users w)) -> spells a b = false ->
  findOne (userIs a) (users w) = Some ua ->
  findOne (userIs (castId b)) (users w) = Some ub ->
  includes a (followers ub) = true ->
  handler (unfollowUser a b) w
  = (Sent 200 (Message "User unfollowed successfully"),
     with_users (map (unfollowed a (castId b)) (users w)) w).
Proof.
  intros Hnd Hsp Ha Hb Hin.
  pose proof (findOne_userIs _ _ _ Hb) as Hbid.
  destruct (requester_after_save a (castId b) (fun x => set_followers (without a (followers x)) x)
              (users w) ua ub (fun _ => eq_refl) Ha Hb) as [ua1 Ha1].
  pose proof (findOne_userIs _ _ _ Ha1) as Haid1.
  unfold unfollowUser. exec. rewrite Hb, Hsp, Hin. simpl.
  rewrite Hbid, Ha1. simpl. rewrite Haid1.
  now rewrite (saves_as_map a (castId b) (fun x => set_followers (without a (followers x)) x)
                 (fun x => set_following (without (castId b) (following x)) x) (users w) ub ua1
                 Hnd (fun _ => eq_refl) Hb Ha1).
Qed.

(** The accounts after [followUser], on every path on which the requester is
    a stored account. *)
Lemma followUser_users env a b w ua :
  NoDup (map u_id (users w)) -> findOne (userIs a) (users w) = Some ua ->
  users (snd (handler (followUser env a b) w)) = users w
  \/ users (snd (handler (followUser env a b) w)) = map (followed a (castId b)) (users w).
Proof.
  intros Hnd Ha.
  destruct (findOne (userIs (castId b)) (users w)) as [ub|] eqn:Hb;
    [|left; unfold followUser; exec; now rewrite Hb].
  destruct (spells a b) eqn:Hsp; [left; unfold followUser; exec; now rewrite Hb, Hsp|].
  destruct (includes a (followers ub)) eqn:Hout;
    [left; unfold followUser; exec; now rewrite Hb, Hsp, Hout|].
  right. rewrite (followUser_run env a b w ua ub Hnd Hsp Ha Hb Hout). cbv zeta.
  now destruct (notification_ok env _).
Qed.

Lemma unfollowUser_users a b w ua :
  NoDup (map u_id (users w)) -> findOne (userIs a) (users w) = Some ua ->
  users (snd (handler (unfollowUser a b) w)) = users w
  \/ users (snd (handler (unfollowUser a b) w)) = map (unfollowed a (castId b)) (users w).
Proof.
  intros Hnd Ha.
  destruct (findOne (userIs (castId b)) (users w)) as [ub|] eqn:Hb;
    [|left; unfold unfollowUser; exec; now rewrite Hb].
  destruct (spells a b) eqn:Hsp; [left; unfold unfollowUser; exec; now rewrite Hb, Hsp|].
  destruct (includes a (followers ub)) eqn:Hin;
    [|left; unfold unfollowUser; exec; now rewrite Hb, Hsp, Hin].
  right. now rewrite (unfollowUser_run a b w ua ub Hnd Hsp Ha Hb Hin).
Qed.

Lemma createTweet_keeps_users env me text0 file :
  respects (keeps users) (createTweet env me text0 file).
Proof. unfold createTweet. walk (keeps_refl users) (keeps_trans users); untouched. Qed.

Lemma likeTweet_keeps_users env me id : respects (keeps users) (likeTweet env me id).
Proof. unfold likeTweet. walk (keeps_refl users) (keeps_trans users); untouched. Qed.

Lemma retweetTweet_keeps_users env me id : respects (keeps users) (retweetTweet env me id).
Proof. unfold retweetTweet. walk (keeps_refl users) (keeps_trans users); untouched. Qed.

Lemma replyToTweet_keeps_users env me id text0 :
  respects (keeps users) (replyToTweet env me id text0).
Proof. unfold replyToTweet. walk (keeps_refl users) (keeps_trans users); untouched. Qed.

Lemma deleteTweet_keeps_users env me id : respects (keeps users) (deleteTweet env me id).
Proof. unfold deleteTweet. walk (keeps_refl users) (keeps_trans users); untouched. Qed.

(** X2. Every request of a stored account keeps the follow graph in order:
    account ids stay unique and [following] and [followers] stay mirror images
    of each other.  Only [followUser] and [unfollowUser] write accounts, and
    each writes both sides, also when the parameter reaches the requester's
    own account. *)
Theorem serve_keeps_graph env r w u :
  graphOk (users w) ->
  findOne (userIs (requester r)) (users w) = Some u ->
  graphOk (users (snd (serve env r w))).
Proof.
  intros Hg Hu. unfold serve.
  assert (Hkeep : forall m, respects (keeps users) m -> graphOk (users (snd (handler m w)))).
  { intros m Hm. now rewrite (respects_handler (keeps users) m Hm w). }
  destruct r; simpl in Hu.
  - apply Hkeep, createTweet_keeps_users.
  - apply Hkeep, likeTweet_keeps_users.
  - apply Hkeep, retweetTweet_keeps_users.
  - apply Hkeep, replyToTweet_keeps_users.
  - apply Hkeep, deleteTweet_keeps_users.
  - destruct (followUser_users env me id w u (proj1 Hg) Hu) as [->| ->];
      [assumption | now apply graphOk_followed].
  - destruct (unfollowUser_users me id w u (proj1 Hg) Hu) as [->| ->];
      [assumption | now apply graphOk_unfollowed].
Qed.

Lemma sample_graphOk : graphOk (users Sample.start).
Proof.
  split.
  - simpl. repeat constructor; simpl; intuition discriminate.
  - intros x y [<-|[<-|[]]] [<-|[<-|[]]]; simpl; tauto.
Defined.

Lemma serve_keeps_graph_witness :
  graphOk (users (snd (serve Sample.reliable (FollowUser 1 (mkRouteId 2 true)) Sample.start)))
  /\ users (snd (serve Sample.reliable (FollowUser 1 (mkRouteId 2 true)) Sample.start))
     = [mkUser 1 "alice" [] [2]; mkUser 2 "bob" [1] []]
  /\ graphOk (users (snd (serve Sample.reliable (FollowUser 1 (mkRouteId 1 false)) Sample.start)))
  /\ users (snd (serve Sample.reliable (FollowUser 1 (mkRouteId 1 false)) Sample.start))
     = [mkUser 1 "alice" [1] [1]; mkUser 2 "bob" [] []].
Proof.
  split; [|split; [reflexivity|split; [|reflexivity]]].
  - apply (serve_keeps_graph Sample.reliable (FollowUser 1 (mkRouteId 2 true)) Sample.start
             Sample.alice); [exact sample_graphOk | reflexivity].
  - apply (serve_keeps_graph Sample.reliable (FollowUser 1 (mkRouteId 1 false)) Sample.start
             Sample.alice); [exact sample_graphOk | reflexivity].
Defined.

(** X3. [followUser] and [unfollowUser] are not toggles: once a follow was
    answered 200, the same request again is refused with 400 and writes
    nothing, whatever the services do; and the same holds for a second
    unfollow. *)
Theorem follow_again_refused env env' a b w body w1 :
  (handler (followUser env a b) w = (Sent 200 body, w1) ->
   handler (followUser env' a b) w1
   = (Sent 400 (Message "You are already following this user"), w1))
  /\
  (handler (unfollowUser a b) w = (Sent 200 body, w1) ->
   handler (unfollowUser a b) w1
   = (Sent 400 (Message "You are not following this user"), w1)).
Proof.
  split; intros Hrun.
  - destruct (followUser_success _ _ _ _ _ _ Hrun)
      as [ua [ub [Hsp [_ [_ [_ [ua' [ub' [_ [Hb [_ [Hfr _]]]]]]]]]]]].
    unfold followUser. exec. rewrite Hb, Hsp, Hfr. now rewrite includes_push.
  - destruct (unfollowUser_success _ _ _ _ _ Hrun)
      as [ua [ub [Hsp [_ [_ [_ [ua' [ub' [_ [Hb [_ [Hfr _]]]]]]]]]]]].
    unfold unfollowUser. exec. rewrite Hb, Hsp, Hfr. now rewrite includes_without.
Qed.

Lemma follow_again_refused_witness :
  handler (followUser Sample.notifications_down 1 (mkRouteId 2 true))
    (snd (handler (followUser Sample.reliable 1 (mkRouteId 2 true)) Sample.start))
  = (Sent 400 (Message "You are already following this user"),
     snd (handler (followUser Sample.reliable 1 (mkRouteId 2 true)) Sample.start))
  /\
  handler (unfollowUser 1 (mkRouteId 2 true))
    (snd (handler (unfollowUser 1 (mkRouteId 2 true))
            (snd (handler (followUser Sample.reliable 1 (mkRouteId 2 true)) Sample.start))))
  = (Sent 400 (Message "You are not following this user"),
     snd (handler (unfollowUser 1 (mkRouteId 2 true))
            (snd (handler (followUser Sample.reliable 1 (mkRouteId 2 true)) Sample.start)))).
Proof.
  split.
  - apply (proj1 (follow_again_refused Sample.reliable Sample.notifications_down 1
                    (mkRouteId 2 true) Sample.start
                    (Message "User followed successfully") _)).
    reflexivity.
  - apply (proj2 (follow_again_refused Sample.reliable Sample.reliable 1 (mkRouteId 2 true)
                    (snd (handler (followUser Sample.reliable 1 (mkRouteId 2 true))
                            Sample.start))
                    (Message "User unfollowed successfully") _)).
    reflexivity.
Defined.

(** An unfollow undoes a follow on an account that was not in the lists. *)
Lemma unfollowed_followed a b x :
  (u_id x = b -> includes a (followers x) = false) ->
  (u_id x = a -> includes b (following x) = false) ->
  unfollowed a b (followed a b x) = x.
Proof.
  destruct x as [i nm fr fg]. unfold unfollowed, followed. simpl. intros Hfr Hfg.
  destruct (Nat.eqb_spec i b) as [Hb|Hb]; simpl;
    destruct (Nat.eqb_spec i a) as [Ha|Ha]; simpl;
    rewrite ?(proj2 (Nat.eqb_eq i b) Hb), ?(proj2 (Nat.eqb_neq i b) Hb),
            ?(proj2 (Nat.eqb_eq i a) Ha), ?(proj2 (Nat.eqb_neq i a) Ha); simpl;
    rewrite ?(proj2 (Nat.eqb_eq i a) Ha), ?(proj2 (Nat.eqb_neq i a) Ha); simpl;
    rewrite ?without_push, ?(without_absent _ _ (Hfr Hb)), ?(without_absent _ _ (Hfg Ha));
    reflexivity.
Qed.

(** X4. In an ordered follow graph (unique account ids, [following] and
    [followers] mirror images of each other), a follow answered 200 and then
    an unfollow put every account back as it was; the unfollow is answered
    200 and the [follow] notification of the first request stays. *)
Theorem follow_unfollow_restores env a b w body w1 :
  graphOk (users w) ->
  handler (followUser env a b) w = (Sent 200 body, w1) ->
  exists w2,
    handler (unfollowUser a b) w1 = (Sent 200 (Message "User unfollowed successfully"), w2)
    /\ users w2 = users w
    /\ notifications w2 = notifications w1
    /\ exists n, notifications w1 = notifications w ++ [n]
                 /\ recipient n = castId b /\ sender n = a /\ n_type n = follow.
Proof.
  intros [Hnd Hsym] Hrun.
  destruct (followUser_success _ _ _ _ _ _ Hrun)
    as [ua [ub [Hsp [Ha [Hb [Hout [ua' [ub' [Ha1 [Hb1 [Hfg [Hfr _]]]]]]]]]]]].
  pose proof (findOne_userIs _ _ _ Ha) as Haid. pose proof (findOne_userIs _ _ _ Hb) as Hbid.
  pose proof (findOne_Some _ _ _ Ha) as [Hua _]. pose proof (findOne_Some _ _ _ Hb) as [Hub _].
  assert (Hnb : includes (castId b) (following ua) = false).
  { apply includes_false. rewrite <- Hbid, (Hsym ua ub Hua Hub), Haid. now apply includes_false. }
  rewrite (followUser_run env a b w ua ub Hnd Hsp Ha Hb Hout) in Hrun. cbv zeta in Hrun.
  destruct (notification_ok env _); [|discriminate]. injection Hrun as _ Hw1.
  assert (Hu1 : users w1 = map (followed a (castId b)) (users w)) by (now rewrite <- Hw1).
  assert (Hn1 : notifications w1
                = notifications w ++ [mkNotification (next_oid w) (castId b) a follow None false])
    by (now rewrite <- Hw1).
  assert (Hnd1 : NoDup (map u_id (users w1))) by (now rewrite Hu1, ids_map_followed).
  assert (Hin1 : includes a (followers ub') = true) by (rewrite Hfr; apply includes_push).
  rewrite (unfollowUser_run a b w1 ua' ub' Hnd1 Hsp Ha1 Hb1 Hin1).
  eexists. split; [reflexivity|]. simpl. rewrite Hu1. split; [|split; [reflexivity|]].
  - rewrite map_map. rewrite <- (map_id (users w)) at 2. apply map_ext_in.
    intros x Hx. pose proof (findOne_user_unique _ _ Hnd Hx) as Hf.
    apply unfollowed_followed; intros Hid; rewrite Hid in Hf.
    + rewrite Hb in Hf. injection Hf as ->. exact Hout.
    + rewrite Ha in Hf. injection Hf as ->. exact Hnb.
  - eexists. split; [exact Hn1|]. simpl. auto.
Qed.

Lemma follow_unfollow_restores_witness :
  exists w2,
    handler (unfollowUser 1 (mkRouteId 2 true))
      (snd (handler (followUser Sample.reliable 1 (mkRouteId 2 true)) Sample.start))
    = (Sent 200 (Message "User unfollowed successfully"), w2)
    /\ users w2 = users Sample.start
    /\ notifications w2
       = notifications (snd (handler (followUser Sample.reliable 1 (mkRouteId 2 true))
                               Sample.start))
    /\ exists n, notifications (snd (handler (followUser Sample.reliable 1 (mkRouteId 2 true))
                                       Sample.start))
                 = notifications Sample.start ++ [n]
                 /\ recipient n = 2 /\ sender n = 1 /\ n_type n = follow.
Proof.
  apply (follow_unfollow_restores Sample.reliable 1 (mkRouteId 2 true) Sample.start
           (Message "User followed successfully"));
    [exact sample_graphOk | reflexivity].
Defined.

(** ** Hashtags *)

Lemma lowerChar_tag c : Js.isWordChar c = true -> isTagChar (Js.lowerChar c) = true.
Proof.
  destruct c as [[] [] [] [] [] [] [] []]; vm_compute; intros H;
    first [reflexivity | discriminate H].
Qed.

Lemma wordPrefix_word s : allChars Js.isWordChar (Js.wordPrefix s) = true.
Proof.
  induction s as [|c r IH]; simpl; [reflexivity|].
  destruct (Js.isWordChar c) eqn:Hc; simpl; [now rewrite Hc | reflexivity].
Qed.

Lemma execAll_words sigil s x :
  In x (Js.execAll sigil s) -> x <> "" /\ allChars Js.isWordChar x = true.
Proof.
  induction s as [|c r IH]; simpl; [tauto|].
  destruct (c =? sigil)%char; [|exact IH].
  destruct (Js.wordPrefix r =? "") eqn:He; [exact IH|].
  intros [<-|Hin]; [|now apply IH]. split; [now apply String.eqb_neq | apply wordPrefix_word].
Qed.

Lemma toLowerCase_tag x :
  allChars Js.isWordChar x = true -> allChars isTagChar (Js.toLowerCase x) = true.
Proof.
  induction x as [|c r IH]; simpl; [reflexivity|].
  rewrite !andb_true_iff. intros [Hc Hr]. split; [now apply lowerChar_tag | now apply IH].
Qed.

Lemma toLowerCase_nonempty x : x <> "" -> Js.toLowerCase x <> "".
Proof. destruct x; simpl; [tauto | discriminate]. Qed.

Lemma In_setOf x l : In x (Js.setOf l) <-> In x l.
Proof.
  induction l as [|y l IH]; simpl; [tauto|].
  rewrite filter_In, IH, negb_true_iff, String.eqb_neq.
  destruct (string_dec y x) as [->|Hne]; [tauto|]. intuition congruence.
Qed.

Lemma NoDup_setOf l : NoDup (Js.setOf l).
Proof.
  induction l as [|y l IH]; simpl; constructor.
  - rewrite filter_In, negb_true_iff, String.eqb_neq. tauto.
  - now apply NoDup_filter.
Qed.

(** X5. Whatever the text of a post, the hashtags the save hook stores hold no
    tag twice, and every tag is a non-empty string of the characters
    [a-z0-9_]: upper case never reaches the store, so tags that differ in
    case only are one tag. *)
Theorem hashtags_wellformed t :
  NoDup (hashtags (preSave t))
  /\ forall g, In g (hashtags (preSave t)) -> g <> "" /\ allChars isTagChar g = true.
Proof.
  unfold preSave. simpl. split; [apply NoDup_setOf|].
  intros g Hg. apply (proj1 (In_setOf _ _)) in Hg. apply in_map_iff in Hg.
  destruct Hg as [x [<- Hx]]. apply execAll_words in Hx. destruct Hx as [Hne Hw].
  split; [now apply toLowerCase_nonempty | now apply toLowerCase_tag].
Qed.

(** Every hashtag of the text, lower-cased, is stored. *)
Lemma hashtags_complete t x :
  In x (Js.execAll "#" (text t)) -> In (Js.toLowerCase x) (hashtags (preSave t)).
Proof. intros Hx. unfold preSave. simpl. apply (proj2 (In_setOf _ _)). now apply in_map. Qed.

(** ** Trending topics only grow *)

Lemma trendGrows_refl w : trendGrows w w.
Proof.
  intros g d Hd. exists d. repeat split; [assumption | lia |].
  exists []. now rewrite app_nil_r.
Qed.

Lemma trendGrows_trans a b c : trendGrows a b -> trendGrows b c -> trendGrows a c.
Proof.
  intros Hab Hbc g d Hd. destruct (Hab g d Hd) as [d1 [H1 [Hi1 [Hc1 [l1 Hl1]]]]].
  destruct (Hbc g d1 H1) as [d2 [H2 [Hi2 [Hc2 [l2 Hl2]]]]].
  exists d2. repeat split; [assumption | congruence | lia |].
  exists (l1 ++ l2). now rewrite Hl2, Hl1, app_assoc.
Qed.

Lemma keeps_trendGrows {A} (m : M A) : respects (keeps trending) m -> respects trendGrows m.
Proof. intros H w. unfold trendGrows. rewrite (H w). apply trendGrows_refl. Qed.

Lemma upsert_trendGrows env g i : respects trendGrows (Trending_findOneAndUpdate env g i).
Proof.
  intros w. unfold Trending_findOneAndUpdate.
  destruct (trending_ok env g); [|apply trendGrows_refl].
  destruct (findOne (tagIs g) (trending w)) as [d0|] eqn:Hg; simpl.
  - intros g' d Hd. simpl. destruct (String.eqb_spec g' g) as [->|Hne].
    + rewrite Hd in Hg. injection Hg as <-.
      rewrite (findOne_updateOne_hit _ _ _ _ Hd).
      * eexists. split; [reflexivity|]. simpl. repeat split; [lia|]. now exists [i].
      * apply findOne_Some in Hd. apply Hd.
    + rewrite findOne_updateOne_miss.
      * exists d. repeat split; [assumption | lia |]. exists []. now rewrite app_nil_r.
      * intros x Hx. apply String.eqb_eq in Hx. unfold tagIs. simpl. rewrite Hx.
        split; apply String.eqb_neq; congruence.
  - intros g' d Hd. simpl. rewrite findOne_push, Hd.
    exists d. repeat split; [lia|]. exists []. now rewrite app_nil_r.
Qed.

Ltac trend_walk :=
  walk_with ltac:(apply upsert_trendGrows) trendGrows_refl trendGrows_trans;
  apply keeps_trendGrows; untouched.

(** X6. No request ever lowers a trending count or drops a topic: after any
    request every topic that existed is still there under the same [_id], its
    count at least what it was and its contributing posts extended at the
    end.  Only [createTweet] writes the collection at all: likes, retweets,
    replies (hashtags or not), deletions and follows leave it as it was. *)
Theorem trending_only_grows env r w :
  trendGrows w (snd (serve env r w))
  /\ match r with
     | CreateTweet _ _ _ => True
     | _ => trending (snd (serve env r w)) = trending w
     end.
Proof.
  split.
  - unfold serve. apply (respects_handler trendGrows).
    destruct r.
    + unfold createTweet. trend_walk.
    + unfold likeTweet. trend_walk.
    + unfold retweetTweet. trend_walk.
    + unfold replyToTweet. trend_walk.
    + unfold deleteTweet. trend_walk.
    + unfold followUser. trend_walk.
    + unfold unfollowUser. trend_walk.
  - destruct r; [exact I | ..]; unfold serve; apply (respects_handler (keeps trending)).
    + unfold likeTweet. walk (keeps_refl trending) (keeps_trans trending); untouched.
    + unfold retweetTweet. walk (keeps_refl trending) (keeps_trans trending); untouched.
    + unfold replyToTweet. walk (keeps_refl trending) (keeps_trans trending); untouched.
    + unfold deleteTweet. walk (keeps_refl trending) (keeps_trans trending); untouched.
    + unfold followUser. walk (keeps_refl trending) (keeps_trans trending); untouched.
    + unfold unfollowUser. walk (keeps_refl trending) (keeps_trans trending); untouched.
Qed.

(** ** Notifications are retracted by deletion only *)

Lemma notificationsGrow_refl w : notificationsGrow w w.
Proof. exists []. now rewrite app_nil_r. Qed.

Lemma notificationsGrow_trans a b c :
  notificationsGrow a b -> notificationsGrow b c -> notificationsGrow a c.
Proof. intros [l1 H1] [l2 H2]. exists (l1 ++ l2). now rewrite H2, H1, app_assoc. Qed.

Lemma keeps_notificationsGrow {A} (m : M A) :
  respects (keeps notifications) m -> respects notificationsGrow m.
Proof. intros H w. exists []. rewrite app_nil_r. apply H. Qed.

Lemma create_notificationsGrow env a b ty tw :
  respects notificationsGrow (Notification_create env a b ty tw).
Proof.
  intros w. unfold Notification_create. destruct (notification_ok env _); simpl.
  - eexists. reflexivity.
  - apply notificationsGrow_refl.
Qed.

Ltac grow_walk :=
  walk_with ltac:(apply create_notificationsGrow) notificationsGrow_refl notificationsGrow_trans;
  apply keeps_notificationsGrow; untouched.

Lemma deleteTweet_notifications env me id w :
  notifications (snd (handler (deleteTweet env me id) w)) = notifications w
  \/ notifications (snd (handler (deleteTweet env me id) w))
     = deleteMany (refersTo id) (notifications w).
Proof.
  unfold deleteTweet. exec.
  destruct (findOne (tweetIs id) (tweets w)) as [t|] eqn:Hfind; [|now left].
  pose proof (findOne_tweetIs _ _ _ Hfind) as Hid. subst id.
  split_run; simpl; first [left; reflexivity | right; reflexivity].
Qed.

(** X7. Only [deleteTweet] removes notifications, and then exactly those that
    refer to the deleted post; every other request appends to the collection
    or leaves it.  An unlike, an un-retweet or an unfollow retracts
    nothing. *)
Theorem notifications_retracted_by_delete_only env r w :
  match r with
  | DeleteTweet me id =>
      notifications (snd (serve env r w)) = notifications w
      \/ notifications (snd (serve env r w)) = deleteMany (refersTo id) (notifications w)
  | _ => exists l, notifications (snd (serve env r w)) = notifications w ++ l
  end.
Proof.
  destruct r; unfold serve; try apply deleteTweet_notifications;
    apply (respects_handler notificationsGrow).
  - unfold createTweet. grow_walk.
  - unfold likeTweet. grow_walk.
  - unfold retweetTweet. grow_walk.
  - unfold replyToTweet. grow_walk.
  - unfold followUser. grow_walk.
  - unfold unfollowUser. grow_walk.
Qed.

(** ** Post creation, all services answering *)

Lemma fresh_oid w : consistent w -> findOne (tweetIs (next_oid w)) (tweets w) = None.
Proof.
  intros Hc. destruct (findOne _ _) as [t|] eqn:Hf; [|reflexivity].
  apply findOne_Some in Hf. destruct Hf as [Hin Hid]. apply tweetIs_id in Hid.
  pose proof (ids_drawn _ _ Hc t Hin). lia.
Qed.

Lemma settled_fresh w : settled w -> findOne (tweetIs (next_oid w)) (tweets w) = None.
Proof.
  intros Hc. destruct (findOne _ _) as [t|] eqn:Hf; [|reflexivity].
  apply findOne_Some in Hf. destruct Hf as [Hin Hid]. apply tweetIs_id in Hid.
  destruct (Hc t Hin) as [Hlt _]. lia.
Qed.

Lemma createTweet_insert env me text0 file w (k : Tweet -> M Outcome) :
  uploads env file ->
  validateText (Js.trim (Js.orEmpty text0)) = [] ->
  exists w1,
    tweets w1 = tweets w ++ [postFor (next_oid w) me text0 (imageFor env file)]
    /\ users w1 = users w /\ notifications w1 = notifications w
    /\ trending w1 = trending w
    /\ (imageUrl0 <- match file with
                     | Some path => (url <- cloudinary_upload env path ;; ret (Some url))
                     | None => ret None
                     end ;;
        tweet <- Tweet_create
                   (mkTweet 0 (Js.orEmpty text0) me imageUrl0 [] [] [] None false false None [] []) ;;
        k tweet)%handler w
       = k (postFor (next_oid w) me text0 (imageFor env file)) w1.
Proof.
  intros Hup Hval. destruct file as [path|]; simpl.
  - destruct (upload_result env path) as [url|] eqn:Hurl; [|now destruct (Hup path eq_refl)].
    exists (bump (with_tweets (tweets w ++ [postFor (next_oid w) me text0 (Some url)])
                    (with_cloud (cloud w ++ [Uploaded url]) w))).
    repeat (split; [reflexivity|]).
    erewrite (bind_Go _ _ w (Some url) (with_cloud (cloud w ++ [Uploaded url]) w)).
    2:{ unfold bind, cloudinary_upload. now rewrite Hurl. }
    apply bind_Go. unfold Tweet_create. simpl. now rewrite Hval.
  - exists (bump (with_tweets (tweets w ++ [postFor (next_oid w) me text0 None]) w)).
    repeat (split; [reflexivity|]).
    rewrite (bind_Go (ret None) _ w None w eq_refl).
    apply bind_Go. unfold Tweet_create. simpl. now rewrite Hval.
Qed.

Lemma upsert_lookup env g i w g' :
  trending_ok env g = true ->
  exists w',
    Trending_findOneAndUpdate env g i w = (Go tt, w')
    /\ tweets w' = tweets w /\ users w' = users w /\ notifications w' = notifications w
    /\ findOne (tagIs g') (trending w')
       = if g' =? g
         then Some match findOne (tagIs g) (trending w) with
                   | Some d =>
                       mkTrending (tr_id d) (tag d) (count d + 1) (category d) (tr_tweets d ++ [i])
                   | None => mkTrending (next_oid w) g 1 "Trending" [i]
                   end
         else findOne (tagIs g') (trending w).
Proof.
  intros Hok. unfold Trending_findOneAndUpdate. rewrite Hok.
  destruct (findOne (tagIs g) (trending w)) as [d|] eqn:Hg;
    eexists; (split; [reflexivity|]); simpl; repeat (split; [reflexivity|]).
  - destruct (String.eqb_spec g' g) as [->|Hne].
    + apply (findOne_updateOne_hit _
               (fun d => mkTrending (tr_id d) (tag d) (count d + 1) (category d)
                           (tr_tweets d ++ [i])) _ _ Hg).
      apply findOne_Some in Hg. apply Hg.
    + apply findOne_updateOne_miss. intros x Hx. apply String.eqb_eq in Hx.
      unfold tagIs. simpl. rewrite Hx. split; apply String.eqb_neq; congruence.
  - rewrite findOne_push. destruct (String.eqb_spec g' g) as [->|Hne].
    + rewrite Hg. unfold tagIs. simpl. now rewrite String.eqb_refl.
    + destruct (findOne (tagIs g') (trending w)); [reflexivity|].
      unfold tagIs. simpl. destruct (String.eqb_spec g g'); [congruence | reflexivity].
Qed.

Lemma forEach_upserts_frame env i tags w1 :
  (forall g, trending_ok env g = true) ->
  NoDup tags ->
  exists w2,
    forEach tags (fun g => Trending_findOneAndUpdate env g i) w1 = (Go tt, w2)
    /\ tweets w2 = tweets w1 /\ users w2 = users w1 /\ notifications w2 = notifications w1
    /\ upserted i tags (trending w1) (trending w2).
Proof.
  intros Hok Hnd. revert w1. induction Hnd as [|g gs Hg Hnd IH]; intros w1; simpl.
  - exists w1. repeat (split; [reflexivity|]). intros g. split; [intros [] | reflexivity].
  - destruct (upsert_lookup env g i w1 g (Hok g)) as [wa [Hrun [Ht [Hu [Hn Hself]]]]].
    rewrite String.eqb_refl in Hself.
    destruct (IH wa) as [w2 [Hrun2 [Ht2 [Hu2 [Hn2 Hup]]]]].
    exists w2. rewrite (bind_Go _ _ w1 tt wa Hrun).
    split; [exact Hrun2|]. split; [congruence|]. split; [congruence|]. split; [congruence|].
    intros g'. split.
    + intros [<-|Hin].
      * destruct (Hup g) as [_ Hsame]. rewrite (Hsame Hg), Hself.
        eexists. split; [reflexivity|].
        destruct (findOne (tagIs g) (trending w1)); simpl;
          (split; [reflexivity|]); [apply in_or_app; right|]; now left.
      * destruct (Hup g') as [Hin' _]. destruct (Hin' Hin) as [d' [Hd' [Hc Hi]]].
        exists d'. split; [exact Hd'|]. split; [|exact Hi]. rewrite Hc.
        destruct (upsert_lookup env g i w1 g' (Hok g)) as [wb [Hrunb [_ [_ [_ Hother]]]]].
        rewrite Hrun in Hrunb. injection Hrunb as <-.
        destruct (String.eqb_spec g' g) as [->|Hne]; [contradiction|]. now rewrite Hother.
    + intros Hout. destruct (Hup g') as [_ Hsame]. rewrite Hsame by (intros Hin; apply Hout; now right).
      destruct (upsert_lookup env g i w1 g' (Hok g)) as [wb [Hrunb [_ [_ [_ Hother]]]]].
      rewrite Hrun in Hrunb. injection Hrunb as <-.
      destruct (String.eqb_spec g' g) as [->|Hne]; [exfalso; apply Hout; now left | exact Hother].
Qed.

Lemma forEach_mentions env me tw (us : list User) w :
  (forall n, notification_ok env n = true) ->
  exists w' l,
    forEach us
      (fun user => when (negb (u_id user =? me)%nat)
                     (Notification_create env (u_id user) me mention tw)) w
    = (Go tt, w')
    /\ tweets w' = tweets w /\ users w' = users w /\ trending w' = trending w
    /\ notifications w' = notifications w ++ l
    /\ map about l
       = map (fun u => (u_id u, me, mention, tw, false))
           (filter (fun u => negb (u_id u =? me)%nat) us).
Proof.
  intros Hok. revert w. induction us as [|u us IH]; intros w; simpl.
  - exists w, []. rewrite app_nil_r. now repeat split.
  - destruct (negb (u_id u =? me)%nat); simpl.
    + unfold bind at 1. unfold Notification_create at 1. rewrite Hok.
      match goal with
      | |- context [forEach us _ ?w0] =>
          destruct (IH w0) as [w' [l [Hrun [Ht [Hu [Htr [Hn Hl]]]]]]]
      end.
      exists w', (mkNotification (next_oid w) (u_id u) me mention tw false :: l).
      split; [exact Hrun|]. split; [exact Ht|]. split; [exact Hu|]. split; [exact Htr|]. split.
      * rewrite Hn. simpl. now rewrite <- app_assoc.
      * simpl. now rewrite Hl.
    + rewrite (bind_Go (ret tt) _ w tt w eq_refl). apply IH.
Qed.

Lemma mentioned_nobody me text0 w :
  Js.execAll "@" (Js.toString text0) = [] -> mentioned me text0 w = [].
Proof.
  intros Hnil. unfold mentioned. rewrite Hnil. simpl.
  induction (users w) as [|u us IH]; [reflexivity | exact IH].
Qed.

Lemma createTweet_run env me text0 file w :
  (forall n, notification_ok env n = true) ->
  (forall g, trending_ok env g = true) ->
  uploads env file ->
  validateText (Js.trim (Js.orEmpty text0)) = [] ->
  findOne (tweetIs (next_oid w)) (tweets w) = None ->
  exists w' l,
    handler (createTweet env me text0 file) w
    = (Sent 201 (TweetCreated (next_oid w) (Js.trim (Js.orEmpty text0))
                   (option_map view (findOne (userIs me) (users w))) (imageFor env file)), w')
    /\ tweets w' = tweets w ++ [postFor (next_oid w) me text0 (imageFor env file)]
    /\ users w' = users w
    /\ notifications w' = notifications w ++ l
    /\ Permutation (map about l)
         (map (fun u => (u_id u, me, mention, Some (next_oid w), false)) (mentioned me text0 w))
    /\ upserted (next_oid w) (hashtags (postFor (next_oid w) me text0 (imageFor env file)))
         (trending w) (trending w').
Proof.
  intros Hnok Hok Hup Hval Hfresh.
  unfold createTweet, handler. rewrite (valid_text_truthy _ Hval). cbn [negb andb].
  match goal with
  | |- context [bind _ (fun imageUrl0 => bind _ ?k)] =>
      destruct (createTweet_insert env me text0 file w k Hup Hval)
        as [w1 [Ht [Hu [Hn [Htr Hrun]]]]]
  end.
  rewrite Hrun. clear Hrun.
  erewrite bind_Go; [|reflexivity].
  set (post := postFor (next_oid w) me text0 (imageFor env file)) in *.
  assert (Hpop : findOne (tweetIs (t_id post)) (tweets w1) = Some post).
  { rewrite Ht, findOne_push. change (t_id post) with (next_oid w). rewrite Hfresh.
    unfold tweetIs. change (t_id post) with (next_oid w). now rewrite Nat.eqb_refl. }
  rewrite Hpop.
  assert (Htags : exists w2,
             when (0 <? List.length (hashtags post))%nat
               (forEach (hashtags post) (fun g => Trending_findOneAndUpdate env g (t_id post))) w1
             = (Go tt, w2) /\ tweets w2 = tweets w1 /\ users w2 = users w1
               /\ notifications w2 = notifications w1
               /\ upserted (t_id post) (hashtags post) (trending w1) (trending w2)).
  { assert (Hnd : NoDup (hashtags post)) by apply NoDup_setOf.
    destruct (hashtags post) as [|g gs].
    - exists w1. repeat (split; [reflexivity|]). intros g. split; [intros [] | reflexivity].
    - change (0 <? List.length (g :: gs))%nat with true. cbn [when].
      now apply forEach_upserts_frame. }
  destruct Htags as [w2 [Hrun2 [Ht2 [Hu2 [Hn2 Hup2]]]]].
  rewrite (bind_Go _ _ w1 tt w2 Hrun2). cbv zeta.
  assert (Hment : exists w3 l,
             when (0 <? List.length (Js.execAll "@" (Js.toString text0)))%nat
               (mentionedUsers <- User_find_usernameIn env (Js.execAll "@" (Js.toString text0)) ;;
                forEach mentionedUsers
                  (fun user =>
                     when (negb (u_id user =? me)%nat)
                       (Notification_create env (u_id user) me mention (Some (t_id post))))) w2
             = (Go tt, w3) /\ tweets w3 = tweets w2 /\ users w3 = users w2
               /\ trending w3 = trending w2
               /\ notifications w3 = notifications w2 ++ l
               /\ Permutation (map about l)
                    (map (fun u => (u_id u, me, mention, Some (t_id post), false))
                       (mentioned me text0 w))).
  { destruct (Js.execAll "@" (Js.toString text0)) as [|nm nms] eqn:Hnames.
    - exists w2, []. rewrite (mentioned_nobody _ _ _ Hnames), app_nil_r. now repeat split.
    - change (0 <? List.length (nm :: nms))%nat with true. cbn [when].
      erewrite bind_Go; [|reflexivity].
      destruct (forEach_mentions env me (Some (t_id post))
                  (sortBy (natural_order env)
                     (filter (fun u => existsb (String.eqb (username u)) (nm :: nms)) (users w2)))
                  w2 Hnok) as [w3 [l [Hrun3 [Ht3 [Hu3 [Htr3 [Hn3 Hl]]]]]]].
      exists w3, l. repeat (split; [assumption|]).
      rewrite Hl. apply Permutation_map. rewrite Hu2, Hu, <- Hnames.
      apply mentioned_in_order. }
  destruct Hment as [w3 [l [Hrun3 [Ht3 [Hu3 [Htr3 [Hn3 Hl]]]]]]].
  rewrite (bind_Go _ _ w2 tt w3 Hrun3).
  change (t_id post) with (next_oid w) in Hl, Hup2.
  exists w3, l. split; [simpl; now rewrite Hu|].
  split; [congruence|]. split; [congruence|]. split; [congruence|]. split; [exact Hl|].
  rewrite Htr3, <- Htr. exact Hup2.
Qed.

Lemma createTweet_invalid env me text0 file w :
  uploads env file ->
  validateText (Js.trim (Js.orEmpty text0)) <> [] ->
  statusOf (fst (handler (createTweet env me text0 file) w)) = 400
  /\ tweets (snd (handler (createTweet env me text0 file) w)) = tweets w
  /\ notifications (snd (handler (createTweet env me text0 file) w)) = notifications w
  /\ trending (snd (handler (createTweet env me text0 file) w)) = trending w.
Proof.
  intros Hup Hval. unfold createTweet.
  destruct (negb (Js.truthy text0) && match file with Some _ => false | None => true end);
    [now repeat split|].
  exec. destruct file as [path|].
  - destruct (upload_result env path) as [url|] eqn:Hurl; [|now destruct (Hup path eq_refl)].
    simpl. destruct (validateText (Js.trim (Js.orEmpty text0))); [congruence|]. now repeat split.
  - simpl. destruct (validateText (Js.trim (Js.orEmpty text0))); [congruence|]. now repeat split.
Qed.

(** The sample image store takes every file. *)
Lemma reliable_uploads file : uploads Sample.reliable file.
Proof. intros path _. discriminate. Defined.

(** X8. With the services answering, [createTweet] answers 201 exactly when
    the trimmed text passes the schema (not empty, at most 280 characters):
    the response then echoes the new [_id], the trimmed text, the author's
    view and the image URL, and the post is appended to the collection;
    otherwise the status is 400 and posts, notifications and trending topics
    are what they were. *)
Theorem createTweet_outcome env me text0 file w :
  (forall n, notification_ok env n = true) ->
  (forall g, trending_ok env g = true) ->
  uploads env file ->
  consistent w ->
  (validateText (Js.trim (Js.orEmpty text0)) = [] ->
     exists w',
       handler (createTweet env me text0 file) w
       = (Sent 201 (TweetCreated (next_oid w) (Js.trim (Js.orEmpty text0))
                      (option_map view (findOne (userIs me) (users w))) (imageFor env file)), w')
       /\ tweets w' = tweets w ++ [postFor (next_oid w) me text0 (imageFor env file)])
  /\ (validateText (Js.trim (Js.orEmpty text0)) <> [] ->
        statusOf (fst (handler (createTweet env me text0 file) w)) = 400
        /\ tweets (snd (handler (createTweet env me text0 file) w)) = tweets w
        /\ notifications (snd (handler (createTweet env me text0 file) w)) = notifications w
        /\ trending (snd (handler (createTweet env me text0 file) w)) = trending w).
Proof.
  intros Hnok Hok Hup Hc. split.
  - intros Hval.
    destruct (createTweet_run env me text0 file w Hnok Hok Hup Hval (fresh_oid w Hc))
      as [w' [l [Hrun [Ht _]]]].
    now exists w'.
  - now apply createTweet_invalid.
Qed.

Lemma createTweet_outcome_witness :
  (exists w',
     handler (createTweet Sample.reliable 2 (Some "  hi @alice #Tea  ") (Some "cup.png")) Sample.start
     = (Sent 201 (TweetCreated 20 "hi @alice #Tea" (Some (2, "bob")) (Some "cup.png")), w')
     /\ tweets w'
        = tweets Sample.start
          ++ [mkTweet 20 "hi @alice #Tea" 2 (Some "cup.png") [] [] [] None false false None
                ["tea"] []])
  /\ statusOf (fst (handler (createTweet Sample.reliable 2 (Some "   ") None) Sample.start)) = 400.
Proof.
  split.
  - apply (createTweet_outcome Sample.reliable 2 (Some "  hi @alice #Tea  ") (Some "cup.png")
             Sample.start (fun _ => eq_refl) (fun _ => eq_refl)
             (reliable_uploads _) start_consistent).
    reflexivity.
  - apply (createTweet_outcome Sample.reliable 2 (Some "   ") None
             Sample.start (fun _ => eq_refl) (fun _ => eq_refl)
             (reliable_uploads _) start_consistent).
    discriminate.
Defined.

(** X9. With the services answering, a new post whose text passes the
    schema notifies of a mention exactly the accounts whose username follows
    an [@] in the text, the author apart: one unread notification of type
    [mention] each, from the author, pointing at the new post, in whatever
    order the store hands out the accounts.  A name mentioned twice, an
    unknown name or the author's own name add nothing. *)
Theorem createTweet_mentions env me text0 file w :
  (forall n, notification_ok env n = true) ->
  (forall g, trending_ok env g = true) ->
  uploads env file ->
  settled w ->
  validateText (Js.trim (Js.orEmpty text0)) = [] ->
  exists l,
    notifications (snd (handler (createTweet env me text0 file) w)) = notifications w ++ l
    /\ Permutation (map about l)
         (map (fun u => (u_id u, me, mention, Some (next_oid w), false)) (mentioned me text0 w)).
Proof.
  intros Hnok Hok Hup Hc Hval.
  destruct (createTweet_run env me text0 file w Hnok Hok Hup Hval (settled_fresh w Hc))
    as [w' [l [Hrun [_ [_ [Hn [Hl _]]]]]]].
  exists l. rewrite Hrun. now split.
Qed.

Lemma createTweet_mentions_witness :
  exists l,
    notifications
      (snd (handler (createTweet Sample.reliable 2 (Some "@alice @alice @bob @carol") None)
              Sample.start))
    = notifications Sample.start ++ l
    /\ Permutation (map about l) [(1, 2, mention, Some 20, false)].
Proof.
  exact (createTweet_mentions Sample.reliable 2 (Some "@alice @alice @bob @carol") None
           Sample.start (fun _ => eq_refl) (fun _ => eq_refl)
           (reliable_uploads _) start_settled eq_refl).
Defined.



(** ** A reply or a retweet, then the deletion of what it created *)




Lemma replyToTweet_run env me id text0 w t :
  (forall n, notification_ok env n = true) ->
  validateText (Js.trim (Js.orEmpty text0)) = [] ->
  findOne (tweetIs id) (tweets w) = Some t ->
  validateText (text t) = [] ->
  findOne (tweetIs (next_oid w)) (tweets w) = None ->
  exists w1,
    handler (replyToTweet env me id text0) w
    = (Sent 201 (ReplyCreated (next_oid w) (Js.trim (Js.orEmpty text0))
                   (option_map view (findOne (userIs me) (users w))) id), w1)
    /\ tweets w1
       = updateOne (tweetIs id)
           (fun _ => preSave (set_replies (replies t ++ [next_oid w]) t)) (tweets w)
         ++ [replyFor (next_oid w) me id text0]
    /\ notifications w1
       = notifications w
         ++ (if (author t =? me)%nat then []
             else [mkNotification (S (next_oid w)) (author t) me reply (Some id) false]).
Proof.
  intros Hok Hvalt Hfind Hval Hfresh.
  pose proof (findOne_tweetIs _ _ _ Hfind) as Hid.
  assert (Hne : id <> next_oid w) by (intros ->; congruence).
  subst id.
  assert (Hpush : updateOne (tweetIs (t_id t))
                    (fun _ => preSave (set_replies (replies t ++ [next_oid w]) t))
                    (tweets w ++ [replyFor (next_oid w) me (t_id t) text0])
                  = updateOne (tweetIs (t_id t))
                      (fun _ => preSave (set_replies (replies t ++ [next_oid w]) t)) (tweets w)
                    ++ [replyFor (next_oid w) me (t_id t) text0]).
  { apply updateOne_push. exists t. now apply findOne_Some. }
  assert (Hpop : findOne (tweetIs (next_oid w))
                   (updateOne (tweetIs (t_id t))
                      (fun _ => preSave (set_replies (replies t ++ [next_oid w]) t)) (tweets w)
                    ++ [replyFor (next_oid w) me (t_id t) text0])
                 = Some (replyFor (next_oid w) me (t_id t) text0)).
  { rewrite findOne_push, findOne_updateOne_miss, Hfresh.
    - unfold tweetIs. simpl. now rewrite Nat.eqb_refl.
    - intros d Hd. apply tweetIs_id in Hd. unfold tweetIs. simpl.
      split; apply Nat.eqb_neq; congruence. }
  unfold replyToTweet. rewrite (valid_text_truthy _ Hvalt). simpl negb. cbv iota. exec.
  rewrite Hfind. simpl. rewrite Hvalt. simpl. rewrite Hval. simpl.
  match goal with
  | |- context [tweets w ++ [?d]] => change d with (replyFor (next_oid w) me (t_id t) text0)
  end.
  rewrite Hpush, Hpop.
  destruct (author t =? me)%nat; simpl; rewrite ?Hok; eexists; (split; [reflexivity|]);
    simpl; rewrite ?app_nil_r; split; reflexivity.
Qed.





(** ** Reading notifications *)

Lemma countDocuments_app {D} (p : D -> bool) c1 c2 :
  countDocuments p (c1 ++ c2) = countDocuments p c1 + countDocuments p c2.
Proof. unfold countDocuments. now rewrite filter_app, length_app. Qed.

Lemma countDocuments_none {D} (p : D -> bool) c :
  (forall d, In d c -> p d = false) -> countDocuments p c = 0.
Proof.
  unfold countDocuments. induction c as [|x c IH]; simpl; intros H; [reflexivity|].
  rewrite (H x (or_introl eq_refl)). apply IH. intros d Hd. apply H. now right.
Qed.

Lemma countDocuments_updateMany {D} (p q : D -> bool) (f : D -> D) c :
  (forall d, q d = true -> p d = p (f d)) ->
  countDocuments p (updateMany q f c) = countDocuments p c.
Proof.
  unfold countDocuments, updateMany. intros H. induction c as [|x c IH]; simpl; [reflexivity|].
  destruct (q x) eqn:Hq; [rewrite <- (H x Hq)|]; destruct (p x); simpl; now rewrite IH.
Qed.

(** Saving [d] over the first match [n] of [q] moves the count of [p] by what
    [n] and [d] contribute. *)
Lemma countDocuments_save {D} (p q : D -> bool) (n d : D) c :
  findOne q c = Some n ->
  countDocuments p (updateOne q (fun _ => d) c) + (if p n then 1 else 0)
  = countDocuments p c + (if p d then 1 else 0).
Proof.
  unfold countDocuments, findOne. induction c as [|x c IH]; simpl; [discriminate|].
  destruct (q x) eqn:Hq.
  - intros [= ->]. simpl. destruct (p n), (p d); simpl; lia.
  - intros Hn. simpl. specialize (IH Hn). destruct (p x); simpl; lia.
Qed.

Lemma unreadOf_read me n : unreadOf me (set_read true n) = false.
Proof. unfold unreadOf. simpl. apply andb_false_r. Qed.

(** X12. [markAllAsRead] answers 200 and leaves the requester without unread
    notifications; the unread counts of all other accounts are what they
    were, and no notification changes in anything but its [read] flag. *)
Theorem markAllAsRead_clears me w :
  fst (handler (markAllAsRead me) w) = Sent 200 (Message "All notifications marked as read")
  /\ getUnreadCount me (snd (handler (markAllAsRead me) w)) = 0
  /\ (forall a, a <> me ->
        getUnreadCount a (snd (handler (markAllAsRead me) w)) = getUnreadCount a w)
  /\ map (set_read true) (notifications (snd (handler (markAllAsRead me) w)))
     = map (set_read true) (notifications w)
  /\ tweets (snd (handler (markAllAsRead me) w)) = tweets w
  /\ users (snd (handler (markAllAsRead me) w)) = users w.
Proof.
  split; [reflexivity|]. unfold getUnreadCount. simpl. split; [|split; [|split]].
  - apply countDocuments_none. intros d Hd. unfold updateMany in Hd.
    apply in_map_iff in Hd. destruct Hd as [x [<- _]].
    destruct (unreadOf me x) eqn:Hx; [apply unreadOf_read | exact Hx].
  - intros a Ha. apply countDocuments_updateMany. intros d Hd.
    unfold unreadOf in *. simpl. apply andb_true_iff in Hd. destruct Hd as [Hd _].
    apply Nat.eqb_eq in Hd. destruct (Nat.eqb_spec (recipient d) a); [congruence | reflexivity].
  - unfold updateMany. rewrite map_map. apply map_ext. intros n.
    destruct (unreadOf me n); reflexivity.
  - split; reflexivity.
Qed.

(** X13. [markAsRead]: 404 for an unknown notification and 403 for a
    notification of somebody else, the world untouched in both cases;
    otherwise 200, and the requester's unread count goes down by one if the
    notification was unread and stays if it was read already.  Nobody else's
    count moves. *)
Theorem markAsRead_outcome me id w :
  match findOne (notificationIs id) (notifications w) with
  | None => handler (markAsRead me id) w = (Sent 404 (Message "Notification not found"), w)
  | Some n =>
      if (recipient n =? me)%nat
      then fst (handler (markAsRead me id) w) = Sent 200 (Message "Notification marked as read")
           /\ getUnreadCount me (snd (handler (markAsRead me id) w)) + (if read n then 0 else 1)
              = getUnreadCount me w
           /\ (forall a, a <> me ->
                 getUnreadCount a (snd (handler (markAsRead me id) w)) = getUnreadCount a w)
      else handler (markAsRead me id) w
           = (Sent 403 (Message "Not authorized to mark this notification as read"), w)
  end.
Proof.
  unfold markAsRead, handler, bind, Notification_findById.
  destruct (findOne (notificationIs id) (notifications w)) as [n|] eqn:Hfind; [|reflexivity].
  destruct (Nat.eqb_spec (recipient n) me) as [Hrec|Hne]; [|reflexivity].
  assert (Hid : n_id n = id).
  { apply findOne_Some in Hfind. now apply Nat.eqb_eq. }
  cbn [negb]. split; [reflexivity|]. unfold getUnreadCount. simpl. rewrite Hid. split.
  - pose proof (countDocuments_save (unreadOf me) _ n (set_read true n) _ Hfind) as H.
    assert (Hu : unreadOf me n = negb (read n)).
    { unfold unreadOf. now rewrite Hrec, Nat.eqb_refl. }
    rewrite unreadOf_read, Hu in H. destruct (read n); cbn [negb] in H; lia.
  - intros a Ha.
    pose proof (countDocuments_save (unreadOf a) _ n (set_read true n) _ Hfind) as H.
    assert (Hu : unreadOf a n = false).
    { unfold unreadOf. destruct (Nat.eqb_spec (recipient n) a); [congruence | reflexivity]. }
    rewrite unreadOf_read, Hu in H. lia.
Qed.

Lemma likeTweet_notifies env me id w t :
  (forall n, notification_ok env n = true) ->
  findOne (tweetIs id) (tweets w) = Some t ->
  validateText (text t) = [] ->
  includes me (likes t) = false ->
  author t <> me ->
  notifications (snd (handler (likeTweet env me id) w))
  = notifications w ++ [mkNotification (next_oid w) (author t) me like (Some id) false].
Proof.
  intros Hok Hfind Hval Hout Hne. pose proof (findOne_tweetIs _ _ _ Hfind) as Hid.
  unfold likeTweet. exec. rewrite Hfind, Hout. simpl.
  destruct (Nat.eqb_spec (author t) me); [contradiction|]. simpl.
  rewrite Hok. simpl. rewrite Hval, Hid. reflexivity.
Qed.

(** X14. A like of somebody else's post raises the author's unread count, as
    [getUnreadCount] reports it, by exactly one, and nobody else's;
    [markAllAsRead] by the author then brings it to zero. *)
Theorem like_raises_unread env me id w t :
  (forall n, notification_ok env n = true) ->
  findOne (tweetIs id) (tweets w) = Some t ->
  validateText (text t) = [] ->
  includes me (likes t) = false ->
  author t <> me ->
  getUnreadCount (author t) (snd (handler (likeTweet env me id) w))
  = S (getUnreadCount (author t) w)
  /\ (forall a, a <> author t ->
        getUnreadCount a (snd (handler (likeTweet env me id) w)) = getUnreadCount a w)
  /\ getUnreadCount (author t)
       (snd (handler (markAllAsRead (author t)) (snd (handler (likeTweet env me id) w)))) = 0.
Proof.
  intros Hok Hfind Hval Hout Hne.
  pose proof (likeTweet_notifies env me id w t Hok Hfind Hval Hout Hne) as Hn.
  unfold getUnreadCount at 1 3. rewrite Hn, !countDocuments_app.
  unfold countDocuments at 2. unfold unreadOf at 2. simpl. rewrite Nat.eqb_refl. simpl.
  split; [unfold getUnreadCount; lia|]. split.
  - intros a Ha. rewrite !countDocuments_app. unfold countDocuments at 2.
    unfold unreadOf at 2. simpl.
    destruct (Nat.eqb_spec (author t) a); [congruence|]. simpl. unfold getUnreadCount. lia.
  - unfold getUnreadCount. simpl. apply countDocuments_none. intros d Hd.
    unfold updateMany in Hd. apply in_map_iff in Hd. destruct Hd as [x [<- _]].
    destruct (unreadOf (author t) x) eqn:Hx; [apply unreadOf_read | exact Hx].
Qed.

Lemma like_raises_unread_witness :
  getUnreadCount 1 (snd (handler (likeTweet Sample.reliable 2 10) Sample.start)) = 1
  /\ (forall a, a <> 1 ->
        getUnreadCount a (snd (handler (likeTweet Sample.reliable 2 10) Sample.start))
        = getUnreadCount a Sample.start)
  /\ getUnreadCount 1
       (snd (handler (markAllAsRead 1)
               (snd (handler (likeTweet Sample.reliable 2 10) Sample.start)))) = 0.
Proof.
  apply (like_raises_unread Sample.reliable 2 10 Sample.start Sample.hello
           (fun _ => eq_refl) eq_refl eq_refl eq_refl).
  discriminate.
Defined.

(** ** Routing *)

Ltac route_cases H :=
  cbn in H;
  repeat match type of H with
         | context [if (?a =? "") then _ else _] =>
             destruct (String.eqb_spec a ""); [subst a; cbn in H|]
         | context [if ?b then _ else _] => destruct b eqn:?
         end;
  try discriminate H.

Lemma dispatch_routed router name m path r ps :
  In (name, router) mounts ->
  dispatch router m path = Some (r, ps) -> ~ unrouted (controller r).
Proof.
  intros Hin H [Hc|[Hc|Hc]];
    repeat (destruct Hin as [[= <- <-]|Hin]); try contradiction;
    destruct m; destruct path as [|a [|b [|c rest]]]; route_cases H;
    injection H as <- <-; discriminate Hc.
Qed.

Lemma throughMounts_from ms m area path hit :
  throughMounts ms m area path = Some hit ->
  exists name router, In (name, router) ms /\ dispatch router m path = Some hit.
Proof.
  induction ms as [|[name router] ms IH]; simpl; [discriminate|].
  destruct (Js.toLowerCase area =? Js.toLowerCase name).
  - destruct (dispatch router m path) as [h|] eqn:Hd.
    + intros [= <-]. exists name, router. auto.
    + intros H. destruct (IH H) as [n [r [Hin Hr]]]. exists n, r. auto.
  - intros H. destruct (IH H) as [n [r [Hin Hr]]]. exists n, r. auto.
Qed.

Ltac reach m p := exists m, p; eexists; eexists; split; reflexivity.

(** X15. [getSuggestedUsers], [searchUsers] and [searchTweets] are the
    controllers no request reaches, and every other controller is reached by
    some request: [GET /api/users/suggestions] and [GET /api/users/search]
    are taken by the earlier route [/:username] and answered by
    [getUserProfile] with that word as the username, and
    [GET /api/tweets/search] by [/:id] and [getTweetById] with ["search"] as
    the id. *)
Theorem shadowed_routes :
  (forall c,
     (exists m path r ps, app m path = Some (r, ps) /\ controller r = c)
     <-> c <> to_getSuggestedUsers /\ c <> to_searchUsers /\ c <> to_searchTweets)
  /\ (forall seg,
        Js.toLowerCase seg = "suggestions" \/ Js.toLowerCase seg = "search" ->
        app GET ["api"; "users"; seg]
        = Some (mkRoute GET [Param "username"] false to_getUserProfile, [("username", seg)]))
  /\ (forall seg,
        Js.toLowerCase seg = "search" ->
        app GET ["api"; "tweets"; seg]
        = Some (mkRoute GET [Param "id"] false to_getTweetById, [("id", seg)])).
Proof.
  split; [|split].
  - intros c. split.
    + intros [m [path [r [ps [Happ Hc]]]]].
      assert (Hr : ~ unrouted (controller r)).
      { unfold app in Happ. destruct path as [|api [|area rest]]; try discriminate.
        destruct (Js.toLowerCase api =? "api"); [|discriminate].
        destruct (throughMounts_from _ _ _ _ _ Happ) as [name [router [Hin Hd]]].
        exact (dispatch_routed router name m rest r ps Hin Hd). }
      rewrite Hc in Hr. unfold unrouted in Hr. tauto.
    + intros [H1 [H2 H3]]. destruct c; try congruence.
      * reach POST ["api"; "auth"; "register"].
      * reach POST ["api"; "auth"; "login"].
      * reach GET ["api"; "auth"; "me"].
      * reach POST ["api"; "auth"; "refresh-token"].
      * reach POST ["api"; "auth"; "logout"].
      * reach GET ["api"; "users"; "alice"].
      * reach GET ["api"; "users"; "alice"; "tweets"].
      * reach POST ["api"; "users"; "2"; "follow"].
      * reach POST ["api"; "users"; "2"; "unfollow"].
      * reach PUT ["api"; "users"; "profile"].
      * reach POST ["api"; "tweets"].
      * reach GET ["api"; "tweets"; "timeline"].
      * reach GET ["api"; "tweets"; "trending"].
      * reach GET ["api"; "tweets"; "10"].
      * reach POST ["api"; "tweets"; "10"; "like"].
      * reach POST ["api"; "tweets"; "10"; "retweet"].
      * reach POST ["api"; "tweets"; "10"; "reply"].
      * reach GET ["api"; "tweets"; "10"; "replies"].
      * reach DELETE ["api"; "tweets"; "10"].
      * reach GET ["api"; "notifications"].
      * reach PUT ["api"; "notifications"; "14"; "read"].
      * reach PUT ["api"; "notifications"; "read-all"].
      * reach GET ["api"; "notifications"; "unread-count"].
      * reach GET ["api"; "trending"].
  - intros seg Hseg. cbn.
    destruct (String.eqb_spec seg ""); [subst seg; destruct Hseg; discriminate | reflexivity].
  - intros seg Hseg. cbn. rewrite Hseg. cbn.
    destruct (String.eqb_spec seg ""); [subst seg; discriminate | reflexivity].
Qed.

(** ** Sorting and paging *)

Lemma In_insertBy {A} (first : A -> A -> bool) x l z :
  In z (insertBy first x l) <-> z = x \/ In z l.
Proof.
  induction l as [|y r IH]; simpl; [intuition|].
  destruct (first x y); simpl; [intuition | rewrite IH; intuition].
Qed.

Lemma In_sortBy {A} (first : A -> A -> bool) l z : In z (sortBy first l) <-> In z l.
Proof.
  induction l as [|y r IH]; simpl; [tauto|].
  rewrite In_insertBy, IH. intuition.
Qed.

Lemma length_insertBy {A} (first : A -> A -> bool) x l :
  List.length (insertBy first x l) = S (List.length l).
Proof.
  induction l as [|y r IH]; simpl; [reflexivity|].
  destruct (first x y); simpl; [reflexivity | now rewrite IH].
Qed.

Lemma length_sortBy {A} (first : A -> A -> bool) l :
  List.length (sortBy first l) = List.length l.
Proof.
  induction l as [|y r IH]; simpl; [reflexivity|]. now rewrite length_insertBy, IH.
Qed.


Lemma In_firstn {A} n (l : list A) z : In z (firstn n l) -> In z l.
Proof. intros H. rewrite <- (firstn_skipn n l). apply in_or_app. now left. Qed.

Lemma In_skipn {A} n (l : list A) z : In z (skipn n l) -> In z l.
Proof. intros H. rewrite <- (firstn_skipn n l). apply in_or_app. now right. Qed.

Lemma In_limitTo {A} limit (l : list A) z : In z (limitTo limit l) -> In z l.
Proof.
  unfold limitTo. destruct (limit =? 0)%nat; [tauto|]. apply In_firstn.
Qed.

Lemma length_limitTo {A} limit (l : list A) :
  limit <> 0 -> List.length (limitTo limit l) <= limit.
Proof.
  intros Hl. unfold limitTo. destruct (Nat.eqb_spec limit 0); [contradiction|].
  apply firstn_le_length.
Qed.


Lemma In_paginate {A} page limit (l out : list A) z :
  paginate page limit l = Some out -> In z out -> In z l.
Proof.
  unfold paginate. destruct ((page =? 0)%nat && negb (limit =? 0)%nat); [discriminate|].
  intros [= <-] Hz. apply In_limitTo in Hz.
  apply (In_skipn _ _ _ Hz).
Qed.

Lemma length_paginate {A} page limit (l out : list A) :
  paginate page limit l = Some out -> limit <> 0 -> List.length out <= limit.
Proof.
  unfold paginate. destruct ((page =? 0)%nat && negb (limit =? 0)%nat); [discriminate|].
  intros [= <-]. apply length_limitTo.
Qed.

Lemma paginate_all {A} (l : list A) : paginate 1 0 l = Some l.
Proof. reflexivity. Qed.

(** ** Reading a post back *)

(** Deleting the first match of [q] is not seen by a query whose own first
    match [q] rejects. *)
Lemma findOne_deleteOne_kept {D} (p q : D -> bool) c t :
  findOne p c = Some t -> q t = false -> findOne p (deleteOne q c) = Some t.
Proof.
  unfold findOne. induction c as [|x r IH]; simpl; [discriminate|].
  destruct (p x) eqn:Hp.
  - intros [= ->] Hq. rewrite Hq. simpl. now rewrite Hp.
  - intros Ht Hq. destruct (q x); [exact Ht|]. simpl. rewrite Hp. now apply IH.
Qed.

(** ** Public listings *)

Lemma dispatch_In router m path r ps : dispatch router m path = Some (r, ps) -> In r router.
Proof.
  induction router as [|x router IH]; simpl; [discriminate|].
  destruct (sameMethod (method x) m); [destruct (matchPath (pattern x) path)|].
  - intros [= <- _]. now left.
  - intros H. right. now apply IH.
  - intros H. right. now apply IH.
Qed.

Lemma app_route m path r ps :
  app m path = Some (r, ps) -> exists nm router, In (nm, router) mounts /\ In r router.
Proof.
  unfold app. destruct path as [|api [|area rest]]; try discriminate.
  destruct (Js.toLowerCase api =? "api"); [|discriminate].
  intros H. destruct (throughMounts_from _ _ _ _ _ H) as [nm [router [Hin Hd]]].
  exists nm, router. split; [assumption | now apply (dispatch_In _ _ _ _ _ Hd)].
Qed.

Lemma public_route m path r ps bearer :
  app m path = Some (r, ps) ->
  controller r = to_getTweetById \/ controller r = to_getUserTweets
  \/ controller r = to_getTweetReplies ->
  requestUser r bearer = None.
Proof.
  intros Happ Hc. destruct (app_route _ _ _ _ Happ) as [nm [router [Hin Hr]]].
  unfold requestUser.
  repeat (destruct Hin as [[= <- <-]|Hin]); try contradiction;
    repeat (destruct Hr as [<-|Hr]); try contradiction; try reflexivity;
    simpl in Hc; intuition discriminate.
Qed.

(** X17. The routes of [getTweetById], [getUserTweets] and [getTweetReplies]
    carry no [authenticateToken], so [req.user] is never set when they run:
    whoever asks, with a valid token or without, every post they list has
    [isLiked] and [isRetweeted] false, the requester's own likes and retweets
    included. *)
Theorem public_reads_anonymous createdAt m path r ps bearer w :
  app m path = Some (r, ps) ->
  (controller r = to_getTweetById ->
     forall id v, getTweetById (requestUser r bearer) id w = Json v ->
       m_isLiked (fst (fst v)) = false /\ m_isRetweeted (fst (fst v)) = false)
  /\ (controller r = to_getUserTweets ->
        forall username0 page limit vs v,
          getUserTweets createdAt (requestUser r bearer) username0 page limit w = Json vs ->
          In v vs -> m_isLiked (fst (fst v)) = false /\ m_isRetweeted (fst (fst v)) = false)
  /\ (controller r = to_getTweetReplies ->
        forall id page limit vs v,
          getTweetReplies createdAt (requestUser r bearer) id page limit w = Json vs ->
          In v vs -> m_isLiked (fst v) = false /\ m_isRetweeted (fst v) = false).
Proof.
  intros Happ. split; [|split]; intros Hc.
  - rewrite (public_route m path r ps bearer Happ) by tauto.
    intros id v. unfold getTweetById. destruct (findOne _ _); [|discriminate].
    intros [= <-]. split; reflexivity.
  - rewrite (public_route m path r ps bearer Happ) by tauto.
    intros username0 page limit vs v. unfold getUserTweets.
    destruct (findOne _ _); [|discriminate]. destruct (paginate _ _ _); [|discriminate].
    intros [= <-] Hv. apply in_map_iff in Hv. destruct Hv as [x [<- _]]. split; reflexivity.
  - rewrite (public_route m path r ps bearer Happ) by tauto.
    intros id page limit vs v. unfold getTweetReplies.
    destruct (findOne _ _); [|discriminate]. destruct (paginate _ _ _); [|discriminate].
    intros [= <-] Hv. apply in_map_iff in Hv. destruct Hv as [x [<- _]]. split; reflexivity.
Qed.

Lemma public_reads_anonymous_witness :
  exists v,
    getTweetById None 10 (snd (handler (likeTweet Sample.reliable 2 10) Sample.start)) = Json v
    /\ m_likes (fst (fst v)) = 1
    /\ m_isLiked (fst (fst v)) = false /\ m_isRetweeted (fst (fst v)) = false.
Proof.
  eexists. split; [reflexivity|]. split; [reflexivity|].
  exact (proj1 (public_reads_anonymous (fun i => i) GET ["api"; "tweets"; "10"]
                  (mkRoute GET [Param "id"] false to_getTweetById) [("id", "10")] (Some 2)
                  (snd (handler (likeTweet Sample.reliable 2 10) Sample.start)) eq_refl)
           eq_refl 10 _ eq_refl).
Defined.

(** X16. What [likeTweet] and [retweetTweet] answer, and what
    [GET /api/tweets/:id] shows afterwards.  With notifications answering,
    for a stored post that is not a retweet of itself, both answer 200 with
    a flag that is the opposite of the requester's membership before the
    request.  The count of the response is the count the route of
    [getTweetById] then shows; the flag is not shown: that route carries no
    [authenticateToken], so [isLiked] and [isRetweeted] read false whoever
    asks, also right after a response with [isLiked: true]. *)
Theorem engagement_then_read env me id w t m path r ps bearer :
  (forall n, notification_ok env n = true) ->
  settled w ->
  findOne (tweetIs id) (tweets w) = Some t ->
  originalTweet t <> Some id ->
  app m path = Some (r, ps) ->
  controller r = to_getTweetById ->
  (exists msg n b w' v,
     handler (likeTweet env me id) w = (Sent 200 (LikeResult msg n b), w')
     /\ b = negb (includes me (likes t))
     /\ getTweetById (requestUser r bearer) id w' = Json v
     /\ m_likes (fst (fst v)) = n /\ m_isLiked (fst (fst v)) = false)
  /\ (exists msg n b w' v,
        handler (retweetTweet env me id) w = (Sent 200 (RetweetResult msg n b), w')
        /\ b = negb (includes me (retweets t))
        /\ getTweetById (requestUser r bearer) id w' = Json v
        /\ m_retweets (fst (fst v)) = n /\ m_isRetweeted (fst (fst v)) = false).
Proof.
  intros Hok Hc Hfind Hself Happ Hctl.
  rewrite (public_route m path r ps bearer Happ (or_introl Hctl)).
  pose proof (findOne_Some _ _ _ Hfind) as [Hin Hp].
  destruct (Hc t Hin) as [_ Hs].
  pose proof (findOne_tweetIs _ _ _ Hfind) as Hid.
  split.
  - destruct (likeTweet_run env me id w t Hok Hfind (text_valid _ Hs)) as [w1 [Hrun Hf1]].
    do 4 eexists. eexists. split; [exact Hrun|]. split; [reflexivity|].
    unfold getTweetById. rewrite Hf1. now repeat split.
  - destruct (includes me (retweets t)) eqn:Hinc.
    + destruct (retweetTweet_remove env me id w t Hfind (text_valid _ Hs) Hinc)
        as [w2 [Hrun Ht2]].
      do 4 eexists. eexists. split; [exact Hrun|]. split; [reflexivity|].
      unfold getTweetById. rewrite Ht2.
      rewrite (findOne_updateOne_hit _ (fun _ => preSave (set_retweets (without me (retweets t)) t))
                 _ t).
      * now repeat split.
      * apply findOne_deleteOne_kept; [exact Hfind|].
        destruct (isShellOf me id t) eqn:Hsh; [|reflexivity].
        apply isShellOf_spec in Hsh. now destruct Hself.
      * now apply tweetIs_id.
    + assert (Hvalt : validateText (Js.trim (text t)) = []).
      { rewrite (text_trimmed _ Hs). apply (text_valid _ Hs). }
      destruct (retweetTweet_add env me id w t Hok Hfind (text_valid _ Hs) Hvalt Hinc)
        as [w1 [Hrun Ht1]].
      do 4 eexists. eexists. split; [exact Hrun|]. split; [reflexivity|].
      unfold getTweetById.
      rewrite Ht1, findOne_push.
      rewrite (findOne_updateOne_hit _ (fun _ => preSave (set_retweets (retweets t ++ [me]) t))
                 _ t Hfind); [|now apply tweetIs_id].
      split; [reflexivity|]. simpl. split; [|reflexivity].
      rewrite length_app, Nat.add_comm. reflexivity.
Qed.

Lemma engagement_then_read_witness :
  (exists msg n b w' v,
     handler (likeTweet Sample.reliable 2 10) Sample.start = (Sent 200 (LikeResult msg n b), w')
     /\ b = true
     /\ getTweetById
          (requestUser (mkRoute GET [Param "id"] false to_getTweetById) (Some 2)) 10 w' = Json v
     /\ m_likes (fst (fst v)) = n /\ m_isLiked (fst (fst v)) = false)
  /\ (exists msg n b w' v,
        handler (retweetTweet Sample.reliable 2 10) Sample.start
        = (Sent 200 (RetweetResult msg n b), w')
        /\ b = true
        /\ getTweetById
             (requestUser (mkRoute GET [Param "id"] false to_getTweetById) (Some 2)) 10 w'
           = Json v
        /\ m_retweets (fst (fst v)) = n /\ m_isRetweeted (fst (fst v)) = false).
Proof.
  apply (engagement_then_read Sample.reliable 2 10 Sample.start Sample.hello
           GET ["api"; "tweets"; "10"] (mkRoute GET [Param "id"] false to_getTweetById)
           [("id", "10")] (Some 2) (fun _ => eq_refl) start_settled eq_refl).
  - discriminate.
  - reflexivity.
  - reflexivity.
Defined.

(** ** The home timeline *)

(** The filter of [getTimeline], for the accounts [following]. *)
Lemma timeline_filter following t :
  includes (author t) following || existsb (fun r => includes r following) (retweets t) = true
  <-> In (author t) following \/ exists r, In r (retweets t) /\ In r following.
Proof.
  rewrite orb_true_iff, includes_In, existsb_exists. split.
  - intros [H|[r [Hr Hi]]]; [now left | right; exists r; split; [assumption|]].
    now apply includes_In.
  - intros [H|[r [Hr Hi]]]; [now left | right; exists r; split; [assumption|]].
    now apply includes_In.
Qed.

(** X18. Every entry of the home timeline is a stored post written by the
    requester or by an account the requester follows, or retweeted by one of
    them; it carries the requester's own [isLiked] and [isRetweeted], and a
    page holds at most [limit] entries.  Replies are not filtered out. *)
Theorem timeline_entries createdAt me page limit w vs :
  getTimeline createdAt me page limit w = Json vs ->
  (limit <> 0 -> List.length vs <= limit)
  /\ exists u,
       findOne (userIs me) (users w) = Some u
       /\ forall v, In v vs ->
            exists t,
              In t (tweets w) /\ v = tweetWithMeta (Some me) w t
              /\ m_isLiked (fst (fst v)) = includes me (likes t)
              /\ m_isRetweeted (fst (fst v)) = includes me (retweets t)
              /\ (author t = me \/ In (author t) (following u)
                  \/ exists r, In r (retweets t) /\ (r = me \/ In r (following u))).
Proof.
  unfold getTimeline. destruct (findOne (userIs me) (users w)) as [u|]; [|discriminate].
  cbv zeta. destruct (paginate page limit _) as [ts|] eqn:Hp; [|discriminate].
  intros [= <-]. split.
  - intros Hl. rewrite length_map. now apply (length_paginate _ _ _ _ Hp).
  - exists u. split; [reflexivity|]. intros v Hv. apply in_map_iff in Hv.
    destruct Hv as [t [<- Ht]]. exists t.
    apply (In_paginate _ _ _ _ _ Hp) in Ht. unfold newestFirst in Ht.
    apply In_sortBy in Ht. apply filter_In in Ht. destruct Ht as [Hin Hf].
    split; [assumption|]. split; [reflexivity|]. split; [reflexivity|]. split; [reflexivity|].
    apply timeline_filter in Hf. destruct Hf as [Ha|[r [Hr Hi]]].
    + apply in_app_or in Ha. destruct Ha as [Ha|[Ha|[]]]; auto.
    + right. right. exists r. split; [assumption|].
      apply in_app_or in Hi. destruct Hi as [Hi|[Hi|[]]]; auto.
Qed.

Lemma timeline_entries_witness :
  (2 <> 0 -> List.length [tweetWithMeta (Some 1) Sample.start Sample.photo;
                           tweetWithMeta (Some 1) Sample.start Sample.hello] <= 2)
  /\ exists u,
       findOne (userIs 1) (users Sample.start) = Some u
       /\ forall v, In v [tweetWithMeta (Some 1) Sample.start Sample.photo;
                          tweetWithMeta (Some 1) Sample.start Sample.hello] ->
            exists t,
              In t (tweets Sample.start) /\ v = tweetWithMeta (Some 1) Sample.start t
              /\ m_isLiked (fst (fst v)) = includes 1 (likes t)
              /\ m_isRetweeted (fst (fst v)) = includes 1 (retweets t)
              /\ (author t = 1 \/ In (author t) (following u)
                  \/ exists r, In r (retweets t) /\ (r = 1 \/ In r (following u))).
Proof.
  exact (timeline_entries (fun i => i) 1 1 2 Sample.start _ eq_refl).
Defined.



Lemma followUser_keeps_tweets env a b : respects (keeps tweets) (followUser env a b).
Proof. unfold followUser. walk (keeps_refl tweets) (keeps_trans tweets); untouched. Qed.

Lemma unfollowUser_keeps_tweets a b : respects (keeps tweets) (unfollowUser a b).
Proof. unfold unfollowUser. walk (keeps_refl tweets) (keeps_trans tweets); untouched. Qed.

Lemma timeline_unpaged createdAt me w u :
  findOne (userIs me) (users w) = Some u ->
  exists vs,
    getTimeline createdAt me 1 0 w = Json vs
    /\ Permutation vs
         (map (tweetWithMeta (Some me) w) (filter (onTimeline (following u ++ [me])) (tweets w))).
Proof.
  intros Hu. unfold getTimeline. rewrite Hu. cbv zeta. rewrite paginate_all.
  eexists. split; [reflexivity|]. apply Permutation_map. unfold newestFirst.
  apply Permutation_sortBy.
Qed.

(** X20. Following and unfollowing decide the home timeline. After a
    successful [followUser] the unpaged timeline of the requester lists, in
    some order, exactly the posts written or retweeted by the requester, by
    an account followed before or by the account just followed; so every
    post of that account is on it. After a successful [unfollowUser] it
    lists exactly the posts written or retweeted by the requester or by a
    followed account other than the one unfollowed; when that one is another
    account than the requester, a post of it is on a page of the timeline
    only if the requester, or an account the requester followed other than
    the unfollowed one, retweeted it. (The requester's own id in another
    spelling passes the self test of [unfollowUser]; own posts then stay
    listed, as the second listing says.) *)
Theorem follow_decides_timeline createdAt env a b w body w1 :
  (handler (followUser env a b) w = (Sent 200 body, w1) ->
   exists ua vs,
     findOne (userIs a) (users w) = Some ua
     /\ getTimeline createdAt a 1 0 w1 = Json vs
     /\ Permutation vs
          (map (tweetWithMeta (Some a) w1)
             (filter (onTimeline ((following ua ++ [castId b]) ++ [a])) (tweets w)))
     /\ forall t, In t (tweets w) -> author t = castId b -> In (tweetWithMeta (Some a) w1 t) vs)
  /\ (handler (unfollowUser a b) w = (Sent 200 body, w1) ->
      exists ua vs,
        findOne (userIs a) (users w) = Some ua
        /\ getTimeline createdAt a 1 0 w1 = Json vs
        /\ Permutation vs
             (map (tweetWithMeta (Some a) w1)
                (filter (onTimeline (without (castId b) (following ua) ++ [a])) (tweets w)))
        /\ (a <> castId b ->
            forall page limit vs' v,
              getTimeline createdAt a page limit w1 = Json vs' -> In v vs' ->
              exists t,
                In t (tweets w) /\ v = tweetWithMeta (Some a) w1 t
                /\ (author t = castId b ->
                    exists r, In r (retweets t) /\ r <> castId b
                              /\ (r = a \/ In r (following ua))))).
Proof.
  split.
  - intros Hrun.
    pose proof (respects_handler (keeps tweets) _ (followUser_keeps_tweets env a b) w) as Hk.
    rewrite Hrun in Hk. unfold keeps in Hk. simpl in Hk.
    destruct (followUser_success env a b w body w1 Hrun)
      as [ua [ub [Hsp [Ha [Hb [Hout [ua' [ub' [Ha1 [Hb1 [Hfg [Hfr _]]]]]]]]]]]].
    destruct (timeline_unpaged createdAt a w1 ua' Ha1) as [vs [Hvs Hperm]].
    rewrite Hfg, Hk in Hperm.
    exists ua, vs. repeat (split; [assumption|]).
    intros t Hin Hauth. apply (Permutation_in _ (Permutation_sym Hperm)).
    apply in_map. apply filter_In. split; [assumption|].
    apply timeline_filter. left. rewrite Hauth.
    apply in_or_app. left. apply in_or_app. right. now left.
  - intros Hrun.
    pose proof (respects_handler (keeps tweets) _ (unfollowUser_keeps_tweets a b) w) as Hk.
    rewrite Hrun in Hk. unfold keeps in Hk. simpl in Hk.
    destruct (unfollowUser_success a b w body w1 Hrun)
      as [ua [ub [Hsp [Ha [Hb [Hout [ua' [ub' [Ha1 [Hb1 [Hfg [Hfr _]]]]]]]]]]]].
    destruct (timeline_unpaged createdAt a w1 ua' Ha1) as [vs [Hvs Hperm]].
    rewrite Hfg, Hk in Hperm.
    exists ua, vs. repeat (split; [assumption|]).
    intros Hne page limit vs' v. unfold getTimeline. rewrite Ha1. cbv zeta.
    destruct (paginate page limit _) as [ts|] eqn:Hp; [|discriminate].
    intros [= <-] Hv. apply in_map_iff in Hv. destruct Hv as [t [<- Ht]]. exists t.
    apply (In_paginate _ _ _ _ _ Hp) in Ht. unfold newestFirst in Ht.
    apply In_sortBy in Ht. apply filter_In in Ht. destruct Ht as [Hin Hf].
    rewrite Hk in Hin. split; [assumption|]. split; [reflexivity|].
    intros Hauth. apply timeline_filter in Hf. rewrite Hfg in Hf.
    assert (Hl : forall r, In r (without (castId b) (following ua) ++ [a]) ->
                 r <> castId b /\ (r = a \/ In r (following ua))).
    { intros r Hr. apply in_app_or in Hr. destruct Hr as [Hr|[<-|[]]].
      - apply In_without in Hr. destruct Hr as [H1 H2]. split; [assumption | now right].
      - split; [assumption | now left]. }
    destruct Hf as [Hf|[r [Hr Hi]]].
    + rewrite Hauth in Hf. destruct (Hl _ Hf) as [H _]. now destruct H.
    + exists r. split; [assumption | now apply Hl].
Qed.

Lemma follow_decides_timeline_witness :
  (exists ua vs,
     findOne (userIs 1) (users Sample.thread) = Some ua
     /\ getTimeline (fun i => i) 1 1 0
          (snd (handler (followUser Sample.reliable 1 (mkRouteId 2 true)) Sample.thread))
        = Json vs
     /\ Permutation vs
          (map (tweetWithMeta (Some 1)
                  (snd (handler (followUser Sample.reliable 1 (mkRouteId 2 true)) Sample.thread)))
             (filter (onTimeline ((following ua ++ [2]) ++ [1])) (tweets Sample.thread)))
     /\ forall t, In t (tweets Sample.thread) -> author t = 2 ->
          In (tweetWithMeta (Some 1)
                (snd (handler (followUser Sample.reliable 1 (mkRouteId 2 true)) Sample.thread)) t)
             vs)
  /\ (exists ua vs,
        findOne (userIs 2)
          (users (snd (handler (followUser Sample.reliable 2 (mkRouteId 1 true)) Sample.thread)))
        = Some ua
        /\ getTimeline (fun i => i) 2 1 0
             (snd (handler (unfollowUser 2 (mkRouteId 1 true))
                     (snd (handler (followUser Sample.reliable 2 (mkRouteId 1 true))
                             Sample.thread))))
           = Json vs
        /\ Permutation vs
             (map (tweetWithMeta (Some 2)
                     (snd (handler (unfollowUser 2 (mkRouteId 1 true))
                             (snd (handler (followUser Sample.reliable 2 (mkRouteId 1 true))
                                     Sample.thread)))))
                (filter (onTimeline (without 1 (following ua) ++ [2]))
                   (tweets (snd (handler (followUser Sample.reliable 2 (mkRouteId 1 true))
                                   Sample.thread)))))
        /\ (2 <> 1 ->
            forall page limit vs' v,
              getTimeline (fun i => i) 2 page limit
                (snd (handler (unfollowUser 2 (mkRouteId 1 true))
                        (snd (handler (followUser Sample.reliable 2 (mkRouteId 1 true))
                                Sample.thread)))) = Json vs' ->
              In v vs' ->
              exists t,
                In t (tweets (snd (handler (followUser Sample.reliable 2 (mkRouteId 1 true))
                                     Sample.thread)))
                /\ v = tweetWithMeta (Some 2)
                         (snd (handler (unfollowUser 2 (mkRouteId 1 true))
                                 (snd (handler (followUser Sample.reliable 2 (mkRouteId 1 true))
                                         Sample.thread)))) t
                /\ (author t = 1 ->
                    exists r, In r (retweets t) /\ r <> 1 /\ (r = 2 \/ In r (following ua))))).
Proof.
  split.
  - apply (proj1 (follow_decides_timeline (fun i => i) Sample.reliable 1 (mkRouteId 2 true)
                    Sample.thread (Message "User followed successfully")
                    (snd (handler (followUser Sample.reliable 1 (mkRouteId 2 true))
                            Sample.thread)))).
    reflexivity.
  - apply (proj2 (follow_decides_timeline (fun i => i) Sample.reliable 2 (mkRouteId 1 true)
                    (snd (handler (followUser Sample.reliable 2 (mkRouteId 1 true))
                            Sample.thread))
                    (Message "User unfollowed successfully")
                    (snd (handler (unfollowUser 2 (mkRouteId 1 true))
                            (snd (handler (followUser Sample.reliable 2 (mkRouteId 1 true))
                                    Sample.thread)))))).
    reflexivity.
Defined.

(** ** Suggestions *)

(** X22. [getSuggestedUsers] never suggests the requester or an account the
    requester follows, and answers with at most [limit] accounts; so an
    account just followed is not suggested again. *)
Theorem suggestions_exclude_followed env me b limit w :
  (forall vs,
     getSuggestedUsers env me limit w = Json vs ->
     (limit <> 0 -> List.length vs <= limit)
     /\ exists cu,
          findOne (userIs me) (users w) = Some cu
          /\ forall v, In v vs ->
               exists u, In u (users w) /\ v = view u
                         /\ u_id u <> me /\ ~ In (u_id u) (following cu))
  /\ (forall body w1,
        handler (followUser env me b) w = (Sent 200 body, w1) ->
        exists vs, getSuggestedUsers env me limit w1 = Json vs
                   /\ forall v, In v vs -> fst v <> castId b /\ fst v <> me).
Proof.
  assert (Hgen : forall w0 cu u,
             In u (limitTo limit
                     (sortBy (natural_order env)
                        (filter (fun u => negb (includes (u_id u) (me :: following cu)))
                           (users w0)))) ->
             In u (users w0) /\ u_id u <> me /\ ~ In (u_id u) (following cu)).
  { intros w0 cu u Hu. apply In_limitTo, In_sortBy in Hu. apply filter_In in Hu.
    destruct Hu as [Hin Hf]. apply negb_true_iff, includes_false in Hf.
    split; [assumption|]. split; intros H; apply Hf; [now left | now right]. }
  split.
  - intros vs. unfold getSuggestedUsers.
    destruct (findOne (userIs me) (users w)) as [cu|]; [|discriminate].
    intros [= <-]. split.
    + intros Hl. rewrite length_map. now apply length_limitTo.
    + exists cu. split; [reflexivity|]. intros v Hv. apply in_map_iff in Hv.
      destruct Hv as [u [<- Hu]]. exists u. destruct (Hgen w cu u Hu) as [H1 [H2 H3]]. auto.
  - intros body w1 Hrun.
    destruct (followUser_success env me b w body w1 Hrun)
      as [ua [ub [Hsp [Ha [Hb [Hout [ua' [ub' [Ha1 [Hb1 [Hfg [Hfr _]]]]]]]]]]]].
    unfold getSuggestedUsers. rewrite Ha1. eexists. split; [reflexivity|].
    intros v Hv. apply in_map_iff in Hv. destruct Hv as [u [<- Hu]].
    destruct (Hgen w1 _ u Hu) as [H1 [H2 H3]]. simpl in *. split; [|assumption].
    intros Hb'. apply H3. rewrite Hfg, Hb'. apply in_or_app. right. now left.
Qed.

Lemma suggestions_exclude_followed_witness :
  ((3 <> 0 -> List.length [(2, "bob")] <= 3)
   /\ exists cu,
        findOne (userIs 1) (users Sample.start) = Some cu
        /\ forall v, In v [(2, "bob")] ->
             exists u, In u (users Sample.start) /\ v = view u
                       /\ u_id u <> 1 /\ ~ In (u_id u) (following cu))
  /\ exists vs,
       getSuggestedUsers Sample.reliable 1 3
         (snd (handler (followUser Sample.reliable 1 (mkRouteId 2 true)) Sample.start))
       = Json vs
       /\ forall v, In v vs -> fst v <> 2 /\ fst v <> 1.
Proof.
  split.
  - exact (proj1 (suggestions_exclude_followed Sample.reliable 1 (mkRouteId 2 true) 3
                    Sample.start)
             [(2, "bob")] eq_refl).
  - exact (proj2 (suggestions_exclude_followed Sample.reliable 1 (mkRouteId 2 true) 3
                    Sample.start)
             (Message "User followed successfully")
             (snd (handler (followUser Sample.reliable 1 (mkRouteId 2 true)) Sample.start))
             eq_refl).
Defined.

(** ** Trending topics *)

Lemma insertBy_sorted {A} (first : A -> A -> bool) x l :
  (forall a b, first a b = false -> first b a = true) ->
  (forall a b c, first a b = true -> first b c = true -> first a c = true) ->
  StronglySorted (fun a b => first a b = true) l ->
  StronglySorted (fun a b => first a b = true) (insertBy first x l).
Proof.
  intros Htot Htr. induction 1 as [|y r Hs IH Hall]; simpl.
  - constructor; constructor.
  - destruct (first x y) eqn:Hxy.
    + constructor; [now constructor|]. constructor; [assumption|].
      eapply Forall_impl; [|exact Hall]. intros z Hz. now apply (Htr x y z).
    + constructor; [assumption|]. apply Forall_forall. intros z Hz.
      apply In_insertBy in Hz. destruct Hz as [->|Hz]; [now apply Htot|].
      rewrite Forall_forall in Hall. now apply Hall.
Qed.

Lemma sortBy_sorted {A} (first : A -> A -> bool) l :
  (forall a b, first a b = false -> first b a = true) ->
  (forall a b c, first a b = true -> first b c = true -> first a c = true) ->
  StronglySorted (fun a b => first a b = true) (sortBy first l).
Proof.
  intros Htot Htr. induction l as [|x l IH]; simpl; [constructor|].
  now apply insertBy_sorted.
Qed.

Lemma firstn_sorted {A} (R : A -> A -> Prop) n l :
  StronglySorted R l -> StronglySorted R (firstn n l).
Proof.
  intros Hs. revert n. induction Hs as [|y r Hs IH Hall]; intros [|n]; simpl; try constructor.
  - apply IH.
  - apply Forall_forall. intros z Hz. apply In_firstn in Hz.
    rewrite Forall_forall in Hall. now apply Hall.
Qed.






Lemma sorted_impl {A} (R S : A -> A -> Prop) l :
  (forall a b, R a b -> S a b) -> StronglySorted R l -> StronglySorted S l.
Proof.
  intros H. induction 1 as [|y r Hs IH Hall]; constructor; [assumption|].
  eapply Forall_impl; [|exact Hall]. intros z. apply H.
Qed.

Lemma sorted_map {A B} (f : A -> B) (R : B -> B -> Prop) l :
  StronglySorted (fun a b => R (f a) (f b)) l -> StronglySorted R (map f l).
Proof.
  induction 1 as [|y r Hs IH Hall]; simpl; constructor; [assumption|].
  apply Forall_forall. intros z Hz. apply in_map_iff in Hz. destruct Hz as [x [<- Hx]].
  rewrite Forall_forall in Hall. now apply Hall.
Qed.


(** ** Pages *)

Lemma firstn_add {A} n m (l : list A) :
  firstn (n + m) l = firstn n l ++ firstn m (skipn n l).
Proof.
  revert l. induction n as [|n IH]; intros l; simpl; [reflexivity|].
  destruct l as [|x l]; simpl; [now rewrite firstn_nil | now rewrite IH].
Qed.

(** X24. The pages of a listing tile it: for a positive [limit], pages
    1, 2, ..., k one after the other are the first [k * limit] documents of
    the sorted result, none twice and none left out; page 0 is rejected by
    the store. *)
Theorem pages_tile {A} (l : list A) limit k :
  limit <> 0 ->
  paginate 0 limit l = None
  /\ List.concat (map (fun p => match paginate (S p) limit l with
                           | Some out => out
                           | None => []
                           end) (seq 0 k))
     = firstn (k * limit) l.
Proof.
  intros Hl. split.
  - unfold paginate. destruct (Nat.eqb_spec limit 0); [contradiction | reflexivity].
  - induction k as [|k IH]; [reflexivity|].
    rewrite seq_S, map_app, concat_app, IH. simpl. rewrite app_nil_r.
    unfold paginate, limitTo. simpl. rewrite Nat.sub_0_r.
    destruct (Nat.eqb_spec limit 0); [contradiction|]. simpl.
    rewrite (Nat.add_comm limit (k * limit)). symmetry. apply firstn_add.
Qed.

Lemma pages_tile_witness :
  paginate 0 2 [1; 2; 3; 4; 5] = None
  /\ List.concat (map (fun p => match paginate (S p) 2 [1; 2; 3; 4; 5] with
                           | Some out => out
                           | None => []
                           end) (seq 0 2))
     = firstn (2 * 2) [1; 2; 3; 4; 5].
Proof. apply (pages_tile [1; 2; 3; 4; 5] 2 2). discriminate. Defined.

(** ** Listing notifications *)





(** ** Replies and retweets in the listings *)

(** X26. After [replyToTweet] the reply is listed under its parent by
    [getTweetReplies], the parent shows one reply more, and the reply is on
    nobody's profile listing: [getUserTweets] leaves replies out. *)
Theorem reply_listed_under_parent createdAt env me id text0 w t viewer :
  (forall n, notification_ok env n = true) ->
  consistent w ->
  findOne (tweetIs id) (tweets w) = Some t ->
  validateText (Js.trim (Js.orEmpty text0)) = [] ->
  (exists vs,
     getTweetReplies createdAt viewer id 1 0 (snd (handler (replyToTweet env me id text0) w))
     = Json vs
     /\ exists v, In v vs /\ m_id (fst v) = next_oid w
                  /\ m_text (fst v) = Js.trim (Js.orEmpty text0) /\ snd v = Some id)
  /\ (exists v,
        getTweetById viewer id (snd (handler (replyToTweet env me id text0) w)) = Json v
        /\ m_replies (fst (fst v)) = S (List.length (replies t)))
  /\ (forall username0 page limit vs v,
        getUserTweets createdAt viewer username0 page limit
          (snd (handler (replyToTweet env me id text0) w)) = Json vs ->
        In v vs -> m_id (fst (fst v)) <> next_oid w).
Proof.
  intros Hok Hc Hfind Hvalt.
  pose proof (findOne_Some _ _ _ Hfind) as [Hin Hp].
  pose proof (all_stored _ _ Hc t Hin) as Hs.
  pose proof (ids_drawn _ _ Hc t Hin) as Hlt.
  pose proof (findOne_tweetIs _ _ _ Hfind) as Hid.
  destruct (replyToTweet_run env me id text0 w t Hok Hvalt Hfind (text_valid _ Hs)
              (fresh_oid w Hc)) as [w1 [Hrun1 [Ht1 Hn1]]].
  rewrite Hrun1. cbn [snd].
  set (n := next_oid w) in *. set (r := replyFor n me id text0) in *.
  set (t1 := preSave (set_replies (replies t ++ [n]) t)) in *.
  assert (Hfind1 : findOne (tweetIs id) (tweets w1) = Some t1).
  { rewrite Ht1, findOne_push.
    rewrite (findOne_updateOne_hit _ (fun _ => t1) _ _ Hfind); [reflexivity|].
    now apply tweetIs_id. }
  split; [|split].
  - unfold getTweetReplies. rewrite Hfind1, paginate_all. eexists. split; [reflexivity|].
    exists (meta viewer w1 r, parentTweet r). split; [|now repeat split].
    apply (in_map (fun reply => (meta viewer w1 reply, parentTweet reply))).
    unfold newestFirst. apply In_sortBy. apply filter_In. split.
    + rewrite Ht1. apply in_or_app. right. now left.
    + change (parentTweet r) with (Some id). change (isReply r) with true.
      change (t_id t1) with (t_id t). rewrite Hid, Nat.eqb_refl. reflexivity.
  - unfold getTweetById. rewrite Hfind1. eexists. split; [reflexivity|].
    simpl. rewrite length_app, Nat.add_comm. reflexivity.
  - intros username0 page limit vs v. unfold getUserTweets.
    destruct (findOne _ (users w1)) as [u|]; [|discriminate].
    destruct (paginate page limit _) as [ts|] eqn:Hpg; [|discriminate].
    intros [= <-] Hv. apply in_map_iff in Hv. destruct Hv as [x [<- Hx]].
    apply (In_paginate _ _ _ _ _ Hpg) in Hx. unfold newestFirst in Hx.
    apply In_sortBy in Hx. apply filter_In in Hx. destruct Hx as [Hx Hf].
    apply andb_true_iff in Hf. destruct Hf as [_ Hnr]. apply negb_true_iff in Hnr.
    simpl. rewrite Ht1 in Hx. apply in_app_or in Hx. destruct Hx as [Hx|[<-|[]]].
    + apply In_updateOne in Hx. destruct Hx as [Hx|[y [Hy [_ ->]]]].
      * pose proof (ids_drawn _ _ Hc x Hx). unfold n. lia.
      * change (t_id t1) with (t_id t). unfold n. lia.
    + discriminate Hnr.
Qed.

Lemma reply_listed_under_parent_witness :
  (exists vs,
     getTweetReplies (fun i => i) None 10 1 0
       (snd (handler (replyToTweet Sample.reliable 2 10 (Some " hi ")) Sample.start))
     = Json vs
     /\ exists v, In v vs /\ m_id (fst v) = 20 /\ m_text (fst v) = "hi" /\ snd v = Some 10)
  /\ (exists v,
        getTweetById None 10
          (snd (handler (replyToTweet Sample.reliable 2 10 (Some " hi ")) Sample.start)) = Json v
        /\ m_replies (fst (fst v)) = 1)
  /\ (forall username0 page limit vs v,
        getUserTweets (fun i => i) None username0 page limit
          (snd (handler (replyToTweet Sample.reliable 2 10 (Some " hi ")) Sample.start)) = Json vs ->
        In v vs -> m_id (fst (fst v)) <> 20).
Proof.
  exact (reply_listed_under_parent (fun i => i) Sample.reliable 2 10 (Some " hi ") Sample.start
           Sample.hello None (fun _ => eq_refl) start_consistent eq_refl eq_refl).
Defined.



(** ** The store the handlers build *)

(** X28. Whatever requests were served since the store held no post, with
    notification creation answering: no two posts share an [_id], every
    stored text is trimmed, not empty and at most 280 characters long, the
    stored hashtags are those of the text, nobody is twice among the likes or
    the retweets of a post, and an account is among the retweets of a post
    exactly when the collection holds its one retweet shell for it. *)
Theorem reachable_store_invariant w :
  reachable w ->
  NoDup (map t_id (tweets w))
  /\ forall t, In t (tweets w) ->
       Js.trim (text t) = text t
       /\ text t <> ""
       /\ String.length (text t) <= 280
       /\ hashtags t = Js.setOf (map Js.toLowerCase (Js.execAll "#" (text t)))
       /\ NoDup (likes t) /\ NoDup (retweets t)
       /\ forall a, shells a (t_id t) (tweets w) = if includes a (retweets t) then 1 else 0.
Proof.
  intros Hr. pose proof (reachable_consistent w Hr) as Hc. split; [apply (ids_unique _ _ Hc)|].
  intros t Ht. destruct (all_stored _ _ Hc t Ht) as [Hv Htr Hh Hl Hrt].
  split; [exact Htr|]. unfold validateText in Hv.
  destruct (String.eqb_spec (text t) ""); [discriminate|].
  destruct (Nat.ltb_spec 280 (String.length (text t))); [discriminate|].
  split; [assumption|]. split; [lia|]. split.
  - rewrite <- Hh at 1. reflexivity.
  - split; [assumption|]. split; [assumption|]. intros a. now apply (shells_match _ _ Hc).
Qed.

Lemma reachable_store_invariant_witness :
  NoDup (map t_id (tweets (snd (serve Sample.reliable (CreateTweet 1 (Some "hi #Tea") None)
                                  (mkWorld [Sample.alice] [] [] [] [] 0)))))
  /\ forall t,
       In t (tweets (snd (serve Sample.reliable (CreateTweet 1 (Some "hi #Tea") None)
                            (mkWorld [Sample.alice] [] [] [] [] 0)))) ->
       Js.trim (text t) = text t
       /\ text t <> ""
       /\ String.length (text t) <= 280
       /\ hashtags t = Js.setOf (map Js.toLowerCase (Js.execAll "#" (text t)))
       /\ NoDup (likes t) /\ NoDup (retweets t)
       /\ forall a,
            shells a (t_id t)
              (tweets (snd (serve Sample.reliable (CreateTweet 1 (Some "hi #Tea") None)
                              (mkWorld [Sample.alice] [] [] [] [] 0))))
            = if includes a (retweets t) then 1 else 0.
Proof.
  apply reachable_store_invariant.
  apply (reachable_step Sample.reliable (CreateTweet 1 (Some "hi #Tea") None)
           (mkWorld [Sample.alice] [] [] [] [] 0) (fun _ => eq_refl)).
  apply reachable_start.
Defined.

(** ** Trending tweets *)

Lemma skipn_sorted {A} (R : A -> A -> Prop) n l :
  StronglySorted R l -> StronglySorted R (skipn n l).
Proof.
  intros Hs. revert n. induction Hs as [|y r Hs IH Hall]; intros [|n]; simpl;
    try constructor; auto.
Qed.

(** X29. For a positive page and a positive limit [getTrendingTweets]
    answers with the [page]-th block of [limit] posts of the whole
    collection ranked by engagement (likes plus retweets plus replies),
    highest first, posts that tie newest first.  So the scores never rise
    along a page, a page holds at most [limit] entries, every entry is a
    stored post with its counts, and the first page lists every stored post
    when [limit] is at least their number. *)
Theorem trending_tweets_by_engagement createdAt page limit w :
  page <> 0 -> limit <> 0 ->
  exists ranked vs,
    getTrendingTweets createdAt page limit w = Json vs
    /\ Permutation ranked (tweets w)
    /\ StronglySorted
         (fun a b => engagementScore b < engagementScore a
                     \/ (engagementScore b = engagementScore a
                         /\ createdAt (t_id b) <= createdAt (t_id a))) ranked
    /\ vs = map (meta None w) (firstn limit (skipn ((page - 1) * limit) ranked))
    /\ StronglySorted (fun a b => b <= a)
         (map (fun v => m_likes v + m_retweets v + m_replies v) vs)
    /\ List.length vs <= limit
    /\ (forall v, In v vs ->
          exists t, In t (tweets w) /\ v = meta None w t
                    /\ m_likes v + m_retweets v + m_replies v = engagementScore t)
    /\ (page = 1 -> List.length (tweets w) <= limit ->
        Permutation vs (map (meta None w) (tweets w))).
Proof.
  intros Hpage Hlimit. unfold getTrendingTweets, aggregatePage.
  destruct (Nat.eqb_spec page 0) as [|_]; [contradiction|].
  destruct (Nat.eqb_spec limit 0) as [|_]; [contradiction|]. cbn [orb].
  set (first := fun x y : Tweet =>
                  (engagementScore y <? engagementScore x)%nat
                  || (engagementScore y =? engagementScore x)%nat
                     && (createdAt (t_id y) <=? createdAt (t_id x))%nat).
  assert (Hsorted : StronglySorted
                      (fun a b => engagementScore b < engagementScore a
                                  \/ (engagementScore b = engagementScore a
                                      /\ createdAt (t_id b) <= createdAt (t_id a)))
                      (sortBy first (tweets w))).
  { apply (sorted_impl (fun a b => first a b = true)).
    - intros a b H. unfold first in H. apply orb_true_iff in H. destruct H as [H|H].
      + left. now apply Nat.ltb_lt.
      + right. apply andb_true_iff in H. destruct H as [H1 H2].
        split; [now apply Nat.eqb_eq | now apply Nat.leb_le].
    - apply sortBy_sorted; unfold first.
      + intros a b H. apply orb_false_iff in H. destruct H as [H1 H2].
        apply Nat.ltb_ge in H1. apply orb_true_iff.
        destruct (Nat.eqb_spec (engagementScore b) (engagementScore a)) as [He|Hne].
        * right. simpl in H2. apply Nat.leb_gt in H2.
          rewrite <- He, Nat.eqb_refl. simpl. apply Nat.leb_le. lia.
        * left. apply Nat.ltb_lt. lia.
      + intros a b c H1 H2. apply orb_true_iff in H1, H2. apply orb_true_iff.
        rewrite andb_true_iff in *. rewrite !Nat.ltb_lt, !Nat.eqb_eq, !Nat.leb_le in *.
        lia. }
  exists (sortBy first (tweets w)). eexists. split; [reflexivity|].
  split; [apply Permutation_sortBy|]. split; [exact Hsorted|]. split; [reflexivity|].
  split; [|split; [|split]].
  - rewrite map_map. apply (sorted_map engagementScore (fun a b => b <= a)).
    apply firstn_sorted, skipn_sorted.
    apply (sorted_impl _ (fun a b => engagementScore b <= engagementScore a) _)
      with (2 := Hsorted).
    intros a b H. lia.
  - rewrite length_map. apply firstn_le_length.
  - intros v Hv. apply in_map_iff in Hv. destruct Hv as [t [<- Ht]]. exists t.
    apply In_firstn, In_skipn, In_sortBy in Ht. now repeat split.
  - intros -> Hall. change ((1 - 1) * limit) with 0. cbn [skipn].
    rewrite firstn_all2 by (now rewrite length_sortBy).
    apply Permutation_map, Permutation_sortBy.
Qed.

Lemma trending_tweets_by_engagement_witness :
  exists ranked vs,
    getTrendingTweets (fun i => i) 1 5 Sample.thread = Json vs
    /\ Permutation ranked (tweets Sample.thread)
    /\ StronglySorted
         (fun a b => engagementScore b < engagementScore a
                     \/ (engagementScore b = engagementScore a /\ t_id b <= t_id a)) ranked
    /\ vs = map (meta None Sample.thread) (firstn 5 (skipn ((1 - 1) * 5) ranked))
    /\ StronglySorted (fun a b => b <= a)
         (map (fun v => m_likes v + m_retweets v + m_replies v) vs)
    /\ List.length vs <= 5
    /\ (forall v, In v vs ->
          exists t, In t (tweets Sample.thread) /\ v = meta None Sample.thread t
                    /\ m_likes v + m_retweets v + m_replies v = engagementScore t)
    /\ (1 = 1 -> List.length (tweets Sample.thread) <= 5 ->
        Permutation vs (map (meta None Sample.thread) (tweets Sample.thread))).
Proof.
  apply (trending_tweets_by_engagement (fun i => i) 1 5 Sample.thread); discriminate.
Defined.

(** ** Concrete runs of the statements above *)

Lemma hashtags_wellformed_witness :
  NoDup (hashtags (preSave (fooPost 20 1)))
  /\ forall g, In g (hashtags (preSave (fooPost 20 1))) ->
       g <> "" /\ allChars isTagChar g = true.
Proof. exact (hashtags_wellformed (fooPost 20 1)). Defined.

Lemma markAllAsRead_clears_witness :
  fst (handler (markAllAsRead 1) Sample.thread)
  = Sent 200 (Message "All notifications marked as read")
  /\ getUnreadCount 1 (snd (handler (markAllAsRead 1) Sample.thread)) = 0
  /\ (forall a, a <> 1 ->
        getUnreadCount a (snd (handler (markAllAsRead 1) Sample.thread))
        = getUnreadCount a Sample.thread)
  /\ map (set_read true) (notifications (snd (handler (markAllAsRead 1) Sample.thread)))
     = map (set_read true) (notifications Sample.thread)
  /\ tweets (snd (handler (markAllAsRead 1) Sample.thread)) = tweets Sample.thread
  /\ users (snd (handler (markAllAsRead 1) Sample.thread)) = users Sample.thread.
Proof. exact (markAllAsRead_clears 1 Sample.thread). Defined.

Lemma markAsRead_outcome_witness :
  fst (handler (markAsRead 1 14) Sample.thread) = Sent 200 (Message "Notification marked as read")
  /\ getUnreadCount 1 (snd (handler (markAsRead 1 14) Sample.thread)) + 1
     = getUnreadCount 1 Sample.thread
  /\ (forall a, a <> 1 ->
        getUnreadCount a (snd (handler (markAsRead 1 14) Sample.thread))
        = getUnreadCount a Sample.thread).
Proof. exact (markAsRead_outcome 1 14 Sample.thread). Defined.

Lemma shadowed_routes_witness :
  ((exists m path r ps, app m path = Some (r, ps) /\ controller r = to_searchTweets)
   <-> to_searchTweets <> to_getSuggestedUsers /\ to_searchTweets <> to_searchUsers
       /\ to_searchTweets <> to_searchTweets)
  /\ app GET ["api"; "users"; "Suggestions"]
     = Some (mkRoute GET [Param "username"] false to_getUserProfile, [("username", "Suggestions")])
  /\ app GET ["api"; "tweets"; "search"]
     = Some (mkRoute GET [Param "id"] false to_getTweetById, [("id", "search")]).
Proof.
  split; [exact (proj1 shadowed_routes to_searchTweets)|]. split.
  - exact (proj1 (proj2 shadowed_routes) "Suggestions" (or_introl eq_refl)).
  - exact (proj2 (proj2 shadowed_routes) "search" eq_refl).
Defined.

